(** * QtDataSync: the server's DatabaseController and the client's RemoteConnector

    A shallow embedding of
    - [QtDataSyncServer/databasecontroller.cpp] (createIdentity, identify, save
      and the schema of initDatabase),
    - [src/datasync/remoteconnector.cpp] (keepalive, back-off, error
      triggering, Welcome and Proof handling, login replies),
    - [src/datasync/wsremoteconnector.cpp] (reconnect),
    with the properties of the specification proved about it. *)

From Stdlib Require Import ZArith List Bool Lia.
From stdpp Require Import base decidable option list gmap strings.

Local Open Scope Z_scope.

(** A QUuid is a 128-bit value; the null uuid is the all-zero one. *)
Definition QUuid := Z.
Definition null_uuid : QUuid := 0.
Definition isNull (u : QUuid) : bool := u =? null_uuid.

(** * The database controller of the server *)
Module DatabaseController.

(** ** The schema created by [initDatabase] *)

(** users(identity UUID PRIMARY KEY) *)
Definition UserRow := QUuid.

(** devices(id SERIAL PRIMARY KEY, deviceid UUID, userid UUID REFERENCES users,
    UNIQUE (deviceid, userid)) *)
Record DeviceRow := mkDevice {
  dev_id : Z;
  dev_deviceid : QUuid;
  dev_userid : QUuid }.

(** data(index SERIAL PRIMARY KEY, userid UUID REFERENCES users, type TEXT,
    key TEXT, data JSONB, UNIQUE (userid, type, key)) *)
Record DataRow := mkData {
  dat_index : Z;
  dat_userid : QUuid;
  dat_type : string;
  dat_key : string;
  dat_data : string }.

(** states(dataindex REFERENCES data, deviceid REFERENCES devices,
    PRIMARY KEY (dataindex, deviceid)) *)
Record StateRow := mkState {
  st_dataindex : Z;
  st_deviceid : Z }.

#[global] Instance DeviceRow_eq_dec : EqDecision DeviceRow.
Proof. solve_decision. Defined.
#[global] Instance DataRow_eq_dec : EqDecision DataRow.
Proof. solve_decision. Defined.
#[global] Instance StateRow_eq_dec : EqDecision StateRow.
Proof. solve_decision. Defined.

(** The rows of the four tables, and the two SERIAL counters.  The counters
    are sequences: a value drawn from one is not given back when the
    transaction that drew it is rolled back. *)
Record Database := mkDatabase {
  users : list UserRow;
  devices : list DeviceRow;
  data : list DataRow;
  states : list StateRow;
  devices_id_seq : Z;
  data_index_seq : Z }.

(** The rows alone: what a transaction commits or rolls back. *)
Definition rows (db : Database)
  : list UserRow * list DeviceRow * list DataRow * list StateRow :=
  (users db, devices db, data db, states db).

(** The steps the controller asks of the SQL driver.  A [Driver] tells, for
    each step, whether the driver carries it out ([true]) or reports an error
    before it reaches the tables ([false]: lost connection and the like). *)
Inductive Step :=
  | Transaction
  | CreateIdentityQuery
  | CreateDeviceQuery
  | IdentifyQuery
  | GetIdQuery
  | UpdateQuery
  | InsertQuery
  | UpdateStateQuery
  | Commit.

#[global] Instance Step_eq_dec : EqDecision Step.
Proof. solve_decision. Defined.

Definition Driver := Step -> bool.

Definition all_ok : Driver := fun _ => true.

(** A driver that fails at one step only. *)
Definition fails_at (st : Step) : Driver :=
  fun s => negb (bool_decide (s = st)).

(** [db.rollback()]: the rows of the snapshot come back, the sequences stay
    where the transaction left them. *)
Definition rollback (snapshot working : Database) : Database :=
  {| users := users snapshot;
     devices := devices snapshot;
     data := data snapshot;
     states := states snapshot;
     devices_id_seq := devices_id_seq working;
     data_index_seq := data_index_seq working |}.

(** ** The SQL statements *)

Definition user_exists (identity : QUuid) (db : Database) : bool :=
  bool_decide (identity ∈ users db).

Definition device_conflict (id : Z) (deviceId userId : QUuid) (db : Database) : bool :=
  existsb (fun d => (dev_id d =? id)
                    || ((dev_deviceid d =? deviceId) && (dev_userid d =? userId)))
          (devices db).

(** INSERT INTO users (identity) VALUES(?) : the primary key rejects an
    identity that is already there. *)
Definition insert_user (identity : QUuid) (db : Database) : bool * Database :=
  if user_exists identity db then (false, db)
  else (true,
        {| users := users db ++ [identity];
           devices := devices db;
           data := data db;
           states := states db;
           devices_id_seq := devices_id_seq db;
           data_index_seq := data_index_seq db |}).

Definition next_device_id (db : Database) : Database :=
  {| users := users db;
     devices := devices db;
     data := data db;
     states := states db;
     devices_id_seq := devices_id_seq db + 1;
     data_index_seq := data_index_seq db |}.

Definition add_device (d : DeviceRow) (db : Database) : Database :=
  {| users := users db;
     devices := devices db ++ [d];
     data := data db;
     states := states db;
     devices_id_seq := devices_id_seq db;
     data_index_seq := data_index_seq db |}.

(** INSERT INTO devices (deviceid, userid) VALUES(?, ?) : the id is drawn from
    the sequence first; the statement fails when the user is missing (foreign
    key) or a unique constraint is hit. *)
Definition insert_device (deviceId userId : QUuid) (db : Database) : bool * Database :=
  let id := devices_id_seq db in
  let db1 := next_device_id db in
  if negb (user_exists userId db) then (false, db1)
  else if device_conflict id deviceId userId db then (false, db1)
  else (true, add_device (mkDevice id deviceId userId) db1).

(** The same statement with ON CONFLICT DO NOTHING: a unique conflict is no
    error and inserts nothing; a missing user still is one. *)
Definition insert_device_on_conflict_do_nothing
    (deviceId userId : QUuid) (db : Database) : bool * Database :=
  let id := devices_id_seq db in
  let db1 := next_device_id db in
  if negb (user_exists userId db) then (false, db1)
  else if device_conflict id deviceId userId db then (true, db1)
  else (true, add_device (mkDevice id deviceId userId) db1).

Definition data_matches (userId : QUuid) (type key : string) (r : DataRow) : bool :=
  (dat_userid r =? userId) && bool_decide (dat_type r = type)
                           && bool_decide (dat_key r = key).

(** SELECT index FROM data WHERE userid = ? AND type = ? AND key = ? *)
Definition select_index (userId : QUuid) (type key : string) (db : Database) : list Z :=
  dat_index <$> filter (fun r => data_matches userId type key r = true) (data db).

(** UPDATE data SET data = ? WHERE index = ? *)
Definition update_data (json : string) (index : Z) (db : Database) : Database :=
  {| users := users db;
     devices := devices db;
     data := (fun r => if dat_index r =? index
                       then mkData (dat_index r) (dat_userid r) (dat_type r) (dat_key r) json
                       else r) <$> data db;
     states := states db;
     devices_id_seq := devices_id_seq db;
     data_index_seq := data_index_seq db |}.

Definition data_conflict (index : Z) (userId : QUuid) (type key : string) (db : Database) : bool :=
  existsb (fun r => (dat_index r =? index) || data_matches userId type key r) (data db).

Definition next_data_index (db : Database) : Database :=
  {| users := users db;
     devices := devices db;
     data := data db;
     states := states db;
     devices_id_seq := devices_id_seq db;
     data_index_seq := data_index_seq db + 1 |}.

(** INSERT INTO data (userid, type, key, data) VALUES(?, ?, ?, ?) RETURNING index *)
Definition insert_data (userId : QUuid) (type key json : string) (db : Database)
  : option Z * Database :=
  let index := data_index_seq db in
  let db1 := next_data_index db in
  if negb (user_exists userId db) then (None, db1)
  else if data_conflict index userId type key db then (None, db1)
  else (Some index,
        {| users := users db1;
           devices := devices db1;
           data := data db1 ++ [mkData index userId type key json];
           states := states db1;
           devices_id_seq := devices_id_seq db1;
           data_index_seq := data_index_seq db1 |}).

(** SELECT ?, id FROM devices WHERE userid = ? AND deviceid != ? *)
Definition select_peers (index : Z) (userId deviceId : QUuid) (db : Database) : list StateRow :=
  (fun d => mkState index (dev_id d))
    <$> filter (fun d => (dev_userid d =? userId) && negb (dev_deviceid d =? deviceId) = true)
               (devices db).

(** One row of an INSERT ... ON CONFLICT DO NOTHING into states. *)
Definition add_state (sts : list StateRow) (r : StateRow) : list StateRow :=
  if bool_decide (r ∈ sts) then sts else sts ++ [r].

(** INSERT INTO states (dataindex, deviceid) SELECT ... ON CONFLICT DO NOTHING :
    the rows are added one after the other, those already there are skipped;
    a row whose dataindex is no index of data breaks the foreign key. *)
Definition insert_states (index : Z) (userId deviceId : QUuid) (db : Database)
  : bool * Database :=
  let sel := select_peers index userId deviceId db in
  if bool_decide (sel ≠ []) && negb (bool_decide (index ∈ dat_index <$> data db))
  then (false, db)
  else (true,
        {| users := users db;
           devices := devices db;
           data := data db;
           states := fold_left add_state sel (states db);
           devices_id_seq := devices_id_seq db;
           data_index_seq := data_index_seq db |}).

(** A QJsonObject is kept as its compact JSON text. *)
Definition QJsonObject := string.
Definition jsonToString (object : QJsonObject) : string := object.

(** ** The operations *)

(** [query.exec()]: the statement runs when the driver carries the step out,
    and succeeds when the tables accept it. *)
Definition exec (drv : Driver) (q : Step) (stmt : Database -> bool * Database)
    (db : Database) : bool * Database :=
  if drv q then stmt db else (false, db).

(** [query.exec() && query.first()] of a statement that returns a row. *)
Definition exec_returning (drv : Driver) (q : Step)
    (stmt : Database -> option Z * Database) (db : Database) : option Z * Database :=
  if drv q then stmt db else (None, db).

(** [DatabaseController::createIdentity]; [identity] is the uuid that
    [QUuid::createUuid()] draws. *)
Definition createIdentity (drv : Driver) (identity deviceId : QUuid) (db : Database)
  : QUuid * Database :=
  if negb (drv Transaction) then (null_uuid, db)
  else
    match exec drv CreateIdentityQuery (insert_user identity) db with
    | (false, w1) => (null_uuid, rollback db w1)
    | (true, w1) =>
        match exec drv CreateDeviceQuery (insert_device deviceId identity) w1 with
        | (false, w2) => (null_uuid, rollback db w2)
        | (true, w2) =>
            if drv Commit then (identity, w2)
            else (null_uuid, rollback db w2)
        end
    end.

(** [DatabaseController::identify]: no transaction, each statement is
    committed on its own.  The first query is SELECT EXISTS(SELECT identity
    FROM users WHERE identity = ?), which always has its one row. *)
Definition identify (drv : Driver) (identity deviceId : QUuid) (db : Database)
  : bool * Database :=
  if negb (drv IdentifyQuery) then (false, db)
  else if user_exists identity db then
    match exec drv CreateDeviceQuery
            (insert_device_on_conflict_do_nothing deviceId identity) db with
    | (false, db1) => (false, db1)
    | (true, db1) => (true, db1)
    end
  else (false, db).

(** The tail of [save] after the data row is written: the states of the peers
    and the commit. *)
Definition save_states (drv : Driver) (userId deviceId : QUuid) (index : Z)
    (snapshot w : Database) : bool * Database :=
  match exec drv UpdateStateQuery (insert_states index userId deviceId) w with
  | (false, w1) => (false, rollback snapshot w1)
  | (true, w1) =>
      if drv Commit then (true, w1) else (false, rollback snapshot w1)
  end.

(** [DatabaseController::save] *)
Definition save (drv : Driver) (userId deviceId : QUuid) (type key : string)
    (object : QJsonObject) (db : Database) : bool * Database :=
  if negb (drv Transaction) then (false, db)
  else if negb (drv GetIdQuery) then (false, rollback db db)
  else
    match select_index userId type key db with
    | index :: _ =>
        match exec drv UpdateQuery
                (fun w => (true, update_data (jsonToString object) index w)) db with
        | (false, w1) => (false, rollback db w1)
        | (true, w1) => save_states drv userId deviceId index db w1
        end
    | [] =>
        match exec_returning drv InsertQuery
                (insert_data userId type key (jsonToString object)) db with
        | (None, w1) => (false, rollback db w1)
        | (Some index, w1) => save_states drv userId deviceId index db w1
        end
    end.

(** How many states rows say that device row [device] has not yet fetched
    data row [index]. *)
Definition pending (index device : Z) (db : Database) : nat :=
  count_occ StateRow_eq_dec (states db) (mkState index device).

(** The data row of [(userId, type, key)], as [save] finds it. *)
Definition data_index_of (userId : QUuid) (type key : string) (db : Database) : option Z :=
  head (select_index userId type key db).

(** The device rows of [userId] other than the writer's, and the writer's. *)
Definition is_peer (userId deviceId : QUuid) (d : DeviceRow) : Prop :=
  dev_userid d = userId ∧ dev_deviceid d ≠ deviceId.

Definition is_writer (userId deviceId : QUuid) (d : DeviceRow) : Prop :=
  dev_userid d = userId ∧ dev_deviceid d = deviceId.

(** The constraints of the schema, and the sequences ahead of the ids in use. *)
Record consistent (db : Database) : Prop := mkConsistent {
  users_pk : NoDup (users db);
  devices_pk : NoDup (dev_id <$> devices db);
  devices_unique : NoDup ((fun d => (dev_deviceid d, dev_userid d)) <$> devices db);
  devices_fk : Forall (fun d => dev_userid d ∈ users db) (devices db);
  devices_seq : Forall (fun d => dev_id d < devices_id_seq db) (devices db);
  data_pk : NoDup (dat_index <$> data db);
  data_unique : NoDup ((fun r => (dat_userid r, dat_type r, dat_key r)) <$> data db);
  data_fk : Forall (fun r => dat_userid r ∈ users db) (data db);
  data_seq : Forall (fun r => dat_index r < data_index_seq db) (data db);
  states_pk : NoDup (states db);
  states_fk_data : Forall (fun s => st_dataindex s ∈ dat_index <$> data db) (states db);
  states_fk_device : Forall (fun s => st_deviceid s ∈ dev_id <$> devices db) (states db) }.

(** Device [deviceId] has a row under user [userId]. *)
Definition device_registered (deviceId userId : QUuid) (db : Database) : Prop :=
  ∃ d, d ∈ devices db ∧ dev_deviceid d = deviceId ∧ dev_userid d = userId.

(** Whether every query of [createIdentity] succeeds on [db]. *)
Definition createIdentity_queries (drv : Driver) (identity deviceId : QUuid)
    (db : Database) : bool :=
  match exec drv CreateIdentityQuery (insert_user identity) db with
  | (false, _) => false
  | (true, w1) => fst (exec drv CreateDeviceQuery (insert_device deviceId identity) w1)
  end.

(** Whether every query of [save] succeeds on [db]. *)
Definition save_queries (drv : Driver) (userId deviceId : QUuid) (type key : string)
    (object : QJsonObject) (db : Database) : bool :=
  drv GetIdQuery &&
  match select_index userId type key db with
  | index :: _ =>
      match exec drv UpdateQuery
              (fun w => (true, update_data (jsonToString object) index w)) db with
      | (false, _) => false
      | (true, w1) => fst (exec drv UpdateStateQuery (insert_states index userId deviceId) w1)
      end
  | [] =>
      match exec_returning drv InsertQuery
              (insert_data userId type key (jsonToString object)) db with
      | (None, _) => false
      | (Some index, w1) =>
          fst (exec drv UpdateStateQuery (insert_states index userId deviceId) w1)
      end
  end.

(** The reading of the states of a saved row that counts none for the
    writer: after a successful [save] no states row of the saved data row
    names a device row of the writer. *)
Definition no_state_for_writer (drv : Driver) (userId deviceId : QUuid)
    (type key : string) (object : QJsonObject) (db : Database) : Prop :=
  ∀ db' index d,
    save drv userId deviceId type key object db = (true, db') →
    data_index_of userId type key db' = Some index →
    d ∈ devices db' → is_writer userId deviceId d →
    pending index (dev_id d) db' = 0%nat.

(** One user (7) with two devices (10 and 20); device 20 saved ("t", "k")
    and device 10 has not fetched it yet. *)
Definition db_two_devices : Database :=
  {| users := [7];
     devices := [mkDevice 1 10 7; mkDevice 2 20 7];
     data := [mkData 1 7 "t" "k" "{}"];
     states := [mkState 1 1];
     devices_id_seq := 3;
     data_index_seq := 2 |}.

End DatabaseController.

(** * The remote connector of the client *)
Module RemoteConnector.

(** A QByteArray is a string of 8-bit characters. *)
Abbreviation QByteArray := string.

(** ** Messages *)

(** A key update of a WelcomeMessage: the tuple (index, scheme, key, cmac). *)
Definition KeyUpdate : Type := Z * QByteArray * QByteArray * QByteArray.

Definition ku_index (u : KeyUpdate) : Z := u.1.1.1.
Definition ku_scheme (u : KeyUpdate) : QByteArray := u.1.1.2.
Definition ku_key (u : KeyUpdate) : QByteArray := u.1.2.
Definition ku_cmac (u : KeyUpdate) : QByteArray := u.2.

Record WelcomeMessage := mkWelcome {
  hasChanges : bool;
  keyUpdates : list KeyUpdate }.

(** The fields of a ProofMessage that [onProof] reads; a null [trustmac] is
    [None]. *)
Record ProofMessage := mkProof {
  pNonce : QByteArray;
  deviceId : QUuid;
  deviceName : string;
  signAlgorithm : QByteArray;
  signKey : QByteArray;
  cryptAlgorithm : QByteArray;
  cryptKey : QByteArray;
  macscheme : QByteArray;
  cmac : QByteArray;
  trustmac : option QByteArray }.

Inductive ErrorType :=
  | UnknownError
  | IncompatibleVersionError
  | AuthenticationError
  | AccessError
  | KeyIndexError
  | ClientError
  | ServerError
  | UnexpectedMessageError.

Record ErrorMessage := mkError {
  err_type : ErrorType;
  err_message : string;
  canRecover : bool }.

Record DeviceInfo := mkDeviceInfo {
  info_deviceId : QUuid;
  info_name : string;
  info_fingerprint : QByteArray }.

(** What the connector writes to the socket. *)
Inductive Message :=
  | PingMessage
  | SyncMessage
  | MacUpdateMessage (keyIndex : Z) (cmac : QByteArray)
  | KeyChangeMessage (nextIndex : Z)
  | AcceptMessage (deviceId : QUuid) (index : Z) (scheme secret : QByteArray)
  | DenyMessage (deviceId : QUuid).

(** What [binaryMessageReceived] finds in a frame, once the name is read and
    the body deserialized: the ping marker, a frame that does not
    deserialize, a name that is no message type, or one of the messages whose
    handler is modelled here. *)
Inductive Frame :=
  | FPing
  | FMalformed
  | FUnknown (name : QByteArray)
  | FError (m : ErrorMessage)
  | FAccount (deviceId : QUuid)
  | FWelcome (m : WelcomeMessage)
  | FProof (m : ProofMessage)
  | FMacUpdateAck
  | FChangeAck (dataId : QByteArray)
  | FLastChanged.

Inductive RemoteEvent :=
  | RemoteDisconnected
  | RemoteConnecting
  | RemoteReady
  | RemoteReadyWithChanges.

(** The signals of the connector. *)
Inductive Signal :=
  | remoteEvent (e : RemoteEvent)
  | specialOperationTimeout
  | controllerError (text : string)
  | uploadDone (dataId : QByteArray)
  | loginRequested (info : DeviceInfo)
  | prepareAddedData (deviceId : QUuid)
  | accountAccessGranted (deviceId : QUuid).

(** The bodies of the lambdas given to [QTimer::singleShot]. *)
Inductive Callback :=
  | RetryTimer
  | ProofTimer (deviceId : QUuid).

(** What the connector does to the world around it, in the order it does it:
    frames written to the socket, signals emitted, single-shot timers
    started (delay in seconds), the socket opened or closed, the keepalive
    timer started. *)
Inductive Effect :=
  | Sent (m : Message)
  | Emitted (s : Signal)
  | SingleShot (seconds : Z) (cb : Callback)
  | SocketOpened (url : string)
  | SocketClosed
  | PingTimerStarted.

(** The three kinds of exception the handlers meet: [QtDataSync::Exception]
    (and its subclasses), [DataStreamException], and [CryptoPP::Exception]. *)
Inductive Exn :=
  | Exception (what : string)
  | DataStreamException
  | CryptoPPException (what : string).

(** A call returns or throws. *)
Inductive Outcome (A : Type) :=
  | Returns (a : A)
  | Throws (e : Exn).
Arguments Returns {A} a.
Arguments Throws {A} e.

(** ** The connection state machine *)

Inductive State :=
  | Disconnected
  | Connecting
  | Connected
  | Identifying
  | Registering
  | LoggingIn
  | Granting
  | Idle
  | Downloading
  | Closing
  | Retry
  | Error.

Inductive Event :=
  | EvConnected
  | EvDisconnected
  | EvIdentify
  | EvAwaitRegister
  | EvAwaitLogin
  | EvAwaitGranted
  | EvAccount
  | EvClose
  | EvReconnect
  | EvBasicError
  | EvFatalError
  | EvNoConnect.

#[global] Instance State_eq_dec : EqDecision State.
Proof. solve_decision. Defined.
#[global] Instance Event_eq_dec : EqDecision Event.
Proof. solve_decision. Defined.

(** The states of the parent state Active. *)
Definition in_Active (s : State) : bool :=
  match s with
  | Connecting | Connected | Identifying | Registering | LoggingIn
  | Granting | Idle | Downloading => true
  | Disconnected | Closing | Retry | Error => false
  end.

(** The machine: its active state, the data model ([isClosing], and whether
    the close under way is one to recover from), and the events submitted
    and not yet processed. *)
Record ConnectorStateMachine := mkMachine {
  state : State;
  isClosing : bool;
  recover : bool;
  events : list Event }.

(** Modelled from the spec: the transition table of connectorstatemachine.scxml,
    which is not under src/.  §4.2 names the states and events; the rows
    follow §4.3 (Identify leads to Registering, LoggingIn or Granting; Account,
    Welcome and Grant lead to Idle), §7 (an error closes the connection, a
    recoverable one retries, a fatal one does not; a lost transport retries
    unless [isClosing]), §8 (reconnect while Connecting or Closing is a no-op;
    reconnect from Idle goes Closing, Retry, Connecting) and §4.2 ([isClosing]
    keeps the machine from starting new work).  The result is the target
    state and the new value of [recover]. *)
Definition transition (m : ConnectorStateMachine) (e : Event) : option (State * bool) :=
  match state m, e with
  | Disconnected, EvReconnect =>
      if isClosing m then None else Some (Connecting, recover m)
  | Retry, EvReconnect =>
      if isClosing m then None else Some (Connecting, recover m)
  | Retry, EvClose => Some (Disconnected, recover m)
  | Error, EvClose => Some (Disconnected, recover m)
  | Error, EvReconnect =>
      if isClosing m then None else Some (Connecting, recover m)
  | Connecting, EvConnected => Some (Connected, recover m)
  | Connecting, EvNoConnect => Some (Disconnected, recover m)
  | Connecting, EvReconnect => None
  | Closing, EvReconnect => None
  | Closing, EvDisconnected =>
      if isClosing m then Some (Disconnected, recover m)
      else if recover m then Some (Retry, recover m)
      else Some (Error, recover m)
  | Connected, EvIdentify => Some (Identifying, recover m)
  | (Connected | Identifying), EvAwaitRegister => Some (Registering, recover m)
  | (Connected | Identifying), EvAwaitLogin => Some (LoggingIn, recover m)
  | (Connected | Identifying), EvAwaitGranted => Some (Granting, recover m)
  | (Registering | LoggingIn | Granting), EvAccount => Some (Idle, recover m)
  | s, EvDisconnected =>
      if in_Active s
      then if isClosing m then Some (Disconnected, recover m) else Some (Retry, recover m)
      else None
  | s, (EvReconnect | EvBasicError) =>
      if in_Active s then Some (Closing, true) else None
  | s, EvFatalError =>
      if in_Active s then Some (Closing, false) else None
  | s, EvClose =>
      if in_Active s then Some (Closing, recover m) else None
  | _, _ => None
  end.

(** ** Settings *)

Inductive QVariant :=
  | VBool (b : bool)
  | VInt (n : Z)
  | VString (s : string)
  | VUuid (u : QUuid).

(** An invalid QVariant is [None]. *)
Definition toBool (v : option QVariant) : bool :=
  match v with
  | Some (VBool b) => b
  | Some (VInt n) => negb (n =? 0)
  | Some (VString s) =>
      negb (bool_decide (s = "") || bool_decide (s = "0") || bool_decide (s = "false"))
  | _ => false
  end.

Definition toInt (v : option QVariant) : Z :=
  match v with
  | Some (VInt n) => n
  | Some (VBool b) => if b then 1 else 0
  | _ => 0
  end.

Definition toUuid (v : option QVariant) : QUuid :=
  match v with
  | Some (VUuid u) => u
  | _ => null_uuid
  end.

Definition toString (v : option QVariant) : string :=
  match v with
  | Some (VString s) => s
  | _ => ""
  end.

Definition keyRemoteEnabled : string := "enabled".
Definition keyRemoteUrl : string := "remote/url".
Definition keyAccessKey : string := "remote/accessKey".
Definition keyKeepaliveTimeout : string := "remote/keepaliveTimeout".
Definition keyDeviceId : string := "deviceId".
Definition keyDeviceName : string := "deviceName".
Definition keySendCmac : string := "sendCmac".

Record RemoteConfig := mkConfig {
  cfg_url : string;
  cfg_accessKey : string;
  cfg_keepaliveTimeout : Z }.

(** [RemoteConnector::Timeouts], in seconds. *)
Definition Timeouts : list Z := [5; 10; 30; 1 * 60; 5 * 60].

(** ** Sockets and timers *)

Inductive SocketState :=
  | UnconnectedState
  | HostLookupState
  | ConnectingState
  | ConnectedState
  | BoundState
  | ListeningState
  | ClosingState.

(** A QWebSocket: its state, and whether [doConnect] wired the keepalive
    timer to its connected and disconnected signals. *)
Record QWebSocket := mkSocket {
  sock_state : SocketState;
  sock_keepalive : bool }.

Record QTimer := mkTimer {
  timer_active : bool;
  timer_interval : Z }.

(** ** What the connector is given *)

(** The operations the connector calls on code that is not under src/: the
    crypto controller (cryptocontroller.cpp there predates the calls made
    here) and the asymmetric crypto info, the static helpers of the message
    classes, and Qt.  Each is taken as it is called: a function of the
    controller that returns a value, or throws.  [Crypto] is the state of the
    crypto controller, [CryptoInfo] an AsymmetricCryptoInfo. *)
Class Externals (Crypto CryptoInfo : Type) := {
  (* CryptoController *)
  keyIndex : Crypto -> Z;
  hasKeyUpdate : Crypto -> bool;
  verifyCmac : Crypto -> Z -> QByteArray -> QByteArray -> Outcome unit;
  decryptSecretKey : Crypto -> Z -> QByteArray -> QByteArray -> bool -> Outcome Crypto;
  generateEncryptionKeyCmac : Crypto -> Outcome QByteArray;
  encryptSecretKey : Crypto -> CryptoInfo -> Outcome (Z * QByteArray * QByteArray);
  verifyImportCmac :
    Crypto -> QByteArray -> QByteArray -> QByteArray -> QByteArray -> Outcome unit;
  verifyImportCmacForCrypto :
    Crypto -> QByteArray -> QByteArray -> CryptoInfo -> QByteArray -> Outcome unit;
  rng_GenerateBlock : Crypto -> Z -> QByteArray * Crypto;
  generateExportKey :
    Crypto -> option string -> Outcome (QByteArray * QByteArray * QByteArray);
  createExportCmac : Crypto -> QByteArray -> QByteArray -> QByteArray -> Outcome QByteArray;
  clearKeyMaterial : Crypto -> Crypto;
  acquireStore : Crypto -> bool -> bool * Crypto;
  loadKeyMaterial : Crypto -> QUuid -> Outcome Crypto;
  storePrivateKeys : Crypto -> QUuid -> Outcome Crypto;
  (* AsymmetricCryptoInfo *)
  createCryptoInfo :
    Crypto -> QByteArray -> QByteArray -> QByteArray -> QByteArray -> Outcome CryptoInfo;
  ownFingerprint : CryptoInfo -> QByteArray;
  (* messages *)
  signatureData : QUuid -> KeyUpdate -> QByteArray;
  NonceSize : Z;
  clientError_canRecover : bool;
  (* Qt and the defaults *)
  toRfc4122 : QUuid -> QByteArray;
  url_isValid : string -> bool;
  machineHostName : string;
  remoteConfiguration : RemoteConfig }.

Section Connector.
Context {Crypto CryptoInfo : Type} `{!Externals Crypto CryptoInfo}.

(** The members of RemoteConnector, with what the connector has done so far
    ([effects]) and the operation timer of its base class. *)
Record RC := mkRC {
  _cryptoController : Crypto;
  _socket : option QWebSocket;
  _pingTimer : QTimer;
  _awaitingPing : bool;
  _stateMachine : ConnectorStateMachine;
  _retryIndex : Z;
  _expectChanges : bool;
  _deviceId : QUuid;
  _deviceCache : list DeviceInfo;
  _exportsCache : gmap QByteArray QByteArray;
  _activeProofs : gmap QUuid CryptoInfo;
  settings : gmap string QVariant;
  _opTimer : option Z;
  effects : list Effect }.

Definition set_cryptoController (c : Crypto) (rc : RC) : RC :=
  mkRC c (_socket rc) (_pingTimer rc) (_awaitingPing rc) (_stateMachine rc)
       (_retryIndex rc) (_expectChanges rc) (_deviceId rc) (_deviceCache rc)
       (_exportsCache rc) (_activeProofs rc) (settings rc) (_opTimer rc) (effects rc).

Definition set_socket (so : option QWebSocket) (rc : RC) : RC :=
  mkRC (_cryptoController rc) so (_pingTimer rc) (_awaitingPing rc) (_stateMachine rc)
       (_retryIndex rc) (_expectChanges rc) (_deviceId rc) (_deviceCache rc)
       (_exportsCache rc) (_activeProofs rc) (settings rc) (_opTimer rc) (effects rc).

Definition set_pingTimer (t : QTimer) (rc : RC) : RC :=
  mkRC (_cryptoController rc) (_socket rc) t (_awaitingPing rc) (_stateMachine rc)
       (_retryIndex rc) (_expectChanges rc) (_deviceId rc) (_deviceCache rc)
       (_exportsCache rc) (_activeProofs rc) (settings rc) (_opTimer rc) (effects rc).

Definition set_awaitingPing (b : bool) (rc : RC) : RC :=
  mkRC (_cryptoController rc) (_socket rc) (_pingTimer rc) b (_stateMachine rc)
       (_retryIndex rc) (_expectChanges rc) (_deviceId rc) (_deviceCache rc)
       (_exportsCache rc) (_activeProofs rc) (settings rc) (_opTimer rc) (effects rc).

Definition set_stateMachine (m : ConnectorStateMachine) (rc : RC) : RC :=
  mkRC (_cryptoController rc) (_socket rc) (_pingTimer rc) (_awaitingPing rc) m
       (_retryIndex rc) (_expectChanges rc) (_deviceId rc) (_deviceCache rc)
       (_exportsCache rc) (_activeProofs rc) (settings rc) (_opTimer rc) (effects rc).

Definition set_retryIndex (i : Z) (rc : RC) : RC :=
  mkRC (_cryptoController rc) (_socket rc) (_pingTimer rc) (_awaitingPing rc)
       (_stateMachine rc) i (_expectChanges rc) (_deviceId rc) (_deviceCache rc)
       (_exportsCache rc) (_activeProofs rc) (settings rc) (_opTimer rc) (effects rc).

Definition set_expectChanges (b : bool) (rc : RC) : RC :=
  mkRC (_cryptoController rc) (_socket rc) (_pingTimer rc) (_awaitingPing rc)
       (_stateMachine rc) (_retryIndex rc) b (_deviceId rc) (_deviceCache rc)
       (_exportsCache rc) (_activeProofs rc) (settings rc) (_opTimer rc) (effects rc).

Definition set_deviceId (u : QUuid) (rc : RC) : RC :=
  mkRC (_cryptoController rc) (_socket rc) (_pingTimer rc) (_awaitingPing rc)
       (_stateMachine rc) (_retryIndex rc) (_expectChanges rc) u (_deviceCache rc)
       (_exportsCache rc) (_activeProofs rc) (settings rc) (_opTimer rc) (effects rc).

Definition set_deviceCache (l : list DeviceInfo) (rc : RC) : RC :=
  mkRC (_cryptoController rc) (_socket rc) (_pingTimer rc) (_awaitingPing rc)
       (_stateMachine rc) (_retryIndex rc) (_expectChanges rc) (_deviceId rc) l
       (_exportsCache rc) (_activeProofs rc) (settings rc) (_opTimer rc) (effects rc).

Definition set_exportsCache (c : gmap QByteArray QByteArray) (rc : RC) : RC :=
  mkRC (_cryptoController rc) (_socket rc) (_pingTimer rc) (_awaitingPing rc)
       (_stateMachine rc) (_retryIndex rc) (_expectChanges rc) (_deviceId rc)
       (_deviceCache rc) c (_activeProofs rc) (settings rc) (_opTimer rc) (effects rc).

Definition set_activeProofs (c : gmap QUuid CryptoInfo) (rc : RC) : RC :=
  mkRC (_cryptoController rc) (_socket rc) (_pingTimer rc) (_awaitingPing rc)
       (_stateMachine rc) (_retryIndex rc) (_expectChanges rc) (_deviceId rc)
       (_deviceCache rc) (_exportsCache rc) c (settings rc) (_opTimer rc) (effects rc).

Definition set_settings (st : gmap string QVariant) (rc : RC) : RC :=
  mkRC (_cryptoController rc) (_socket rc) (_pingTimer rc) (_awaitingPing rc)
       (_stateMachine rc) (_retryIndex rc) (_expectChanges rc) (_deviceId rc)
       (_deviceCache rc) (_exportsCache rc) (_activeProofs rc) st (_opTimer rc) (effects rc).

Definition set_opTimer (t : option Z) (rc : RC) : RC :=
  mkRC (_cryptoController rc) (_socket rc) (_pingTimer rc) (_awaitingPing rc)
       (_stateMachine rc) (_retryIndex rc) (_expectChanges rc) (_deviceId rc)
       (_deviceCache rc) (_exportsCache rc) (_activeProofs rc) (settings rc) t (effects rc).

Definition set_effects (l : list Effect) (rc : RC) : RC :=
  mkRC (_cryptoController rc) (_socket rc) (_pingTimer rc) (_awaitingPing rc)
       (_stateMachine rc) (_retryIndex rc) (_expectChanges rc) (_deviceId rc)
       (_deviceCache rc) (_exportsCache rc) (_activeProofs rc) (settings rc) (_opTimer rc) l.

(** ** The monad of the member functions

    A member function runs on the connector and returns or throws, leaving
    the connector as it was at that point; [None] is a call through a null
    pointer (or [logFatal]), after which there is no connector to speak of. *)
Definition M (A : Type) : Type := RC -> option (Outcome A * RC).

Definition ret {A} (a : A) : M A := fun rc => Some (Returns a, rc).

Definition bind {A B} (m : M A) (f : A -> M B) : M B :=
  fun rc =>
    match m rc with
    | Some (Returns a, rc1) => f a rc1
    | Some (Throws e, rc1) => Some (Throws e, rc1)
    | None => None
    end.

Definition throw {A} (e : Exn) : M A := fun rc => Some (Throws e, rc).

Definition crash {A} : M A := fun _ => None.

Definition get : M RC := fun rc => Some (Returns rc, rc).

Definition modify (f : RC -> RC) : M unit := fun rc => Some (Returns tt, f rc).

(** The value or the exception of a call on other code. *)
Definition lift {A} (o : Outcome A) : M A := fun rc => Some (o, rc).

(** try { m } catch(Exception &e) { h e } : only a [QtDataSync::Exception]
    is caught. *)
Definition catch_Exception {A} (m : M A) (h : string -> M A) : M A :=
  fun rc =>
    match m rc with
    | Some (Throws (Exception what), rc1) => h what rc1
    | r => r
    end.

(** try { m } catch ... : every kind of exception is caught. *)
Definition catch_all {A} (m : M A) (h : Exn -> M A) : M A :=
  fun rc =>
    match m rc with
    | Some (Throws e, rc1) => h e rc1
    | r => r
    end.

#[global] Instance M_ret : MRet M := @ret.
#[global] Instance M_bind : MBind M := fun A B f m => bind m f.

Definition effect (e : Effect) : M unit :=
  modify (fun rc => set_effects (effects rc ++ [e]) rc).

(** emit signal(...) *)
Definition emit (sg : Signal) : M unit := effect (Emitted sg).

(** ** Settings *)

(** [RemoteConnector::sValue], for the keys that are no header group: the
    stored value if there is one, else the default. *)
Definition sValue (key : string) (rc : RC) : option QVariant :=
  match settings rc !! key with
  | Some res => Some res
  | None =>
      let config := remoteConfiguration in
      if bool_decide (key = keyRemoteUrl) then Some (VString (cfg_url config))
      else if bool_decide (key = keyAccessKey) then Some (VString (cfg_accessKey config))
      else if bool_decide (key = keyKeepaliveTimeout)
           then Some (VInt (cfg_keepaliveTimeout config))
      else if bool_decide (key = keyRemoteEnabled) then Some (VBool true)
      else if bool_decide (key = keyDeviceName) then Some (VString machineHostName)
      else if bool_decide (key = keySendCmac) then Some (VBool false)
      else None
  end.

Definition setValue (key : string) (v : QVariant) : M unit :=
  modify (fun rc => set_settings (<[key := v]> (settings rc)) rc).

Definition remove (key : string) : M unit :=
  modify (fun rc => set_settings (delete key (settings rc)) rc).

(** [RemoteConnector::loadConfig] (without the headers) *)
Definition loadConfig (rc : RC) : RemoteConfig :=
  {| cfg_url := toString (sValue keyRemoteUrl rc);
     cfg_accessKey := toString (sValue keyAccessKey rc);
     cfg_keepaliveTimeout := toInt (sValue keyKeepaliveTimeout rc) |}.

(** ** The state machine, seen from the connector *)

(** [_stateMachine->submitEvent(e)]: the event is queued; the machine
    processes it when control is back in the event loop ([dispatch] below). *)
Definition submitEvent (e : Event) : M unit :=
  modify (fun rc =>
    let m := _stateMachine rc in
    set_stateMachine (mkMachine (state m) (isClosing m) (recover m) (events m ++ [e])) rc).

(** [_stateMachine->isActive(name)] for a state of the list; the parent state
    Active is [in_Active]. *)
Definition isActive (s : State) (rc : RC) : bool :=
  bool_decide (state (_stateMachine rc) = s).

(** [RemoteConnector::isIdle] *)
Definition isIdle (rc : RC) : bool := isActive Idle rc.

(** [RemoteConnector::reconnect] *)
Definition reconnect : M unit := submitEvent EvReconnect.

(** [RemoteConnector::triggerError] *)
Definition triggerError (canRecover : bool) : M unit :=
  if canRecover then submitEvent EvBasicError else submitEvent EvFatalError.

(** [RemoteConnector::disconnect] *)
Definition disconnect : M unit := triggerError false.

(** [RemoteConnector::checkIdle] *)
Definition checkIdle : M bool :=
  rc ← get;
  if isIdle rc then mret true
  else triggerError true;; mret false.

(** ** The socket *)

(** [_socket->sendBinaryMessage(...)] *)
Definition sendBinaryMessage (m : Message) : M unit :=
  rc ← get;
  match _socket rc with
  | Some _ => effect (Sent m)
  | None => crash
  end.

(** [RemoteConnector::sendMessage] *)
Definition sendMessage (m : Message) : M unit := sendBinaryMessage m.

(** ** The operation timer *)

(** Modelled from the spec: beginSpecialOp and endOp of the base class
    Controller, which is not under src/.  §4.3: an outbound request arms the
    operation timer; here the period is kept in minutes. *)
Definition beginSpecialOp (minutes : Z) : M unit := modify (set_opTimer (Some minutes)).

Definition endOp : M unit := modify (set_opTimer None).

(** The lambda that [initialize] connects to [specialOperationTimeout]. *)
Definition onSpecialOperationTimeout : M unit := triggerError true.

(** Modelled from the spec: the expiry of the operation timer of Controller.
    §4.3: "Expiry fires specialOperationTimeout"; the signal then runs the
    slot connected to it. *)
Definition operationTimeout : M unit :=
  rc ← get;
  match _opTimer rc with
  | None => mret tt
  | Some _ =>
      modify (set_opTimer None);;
      emit specialOperationTimeout;;
      onSpecialOperationTimeout
  end.

(** ** Keepalive *)

Definition pingTimer_start : M unit :=
  modify (fun rc => set_pingTimer (mkTimer true (timer_interval (_pingTimer rc))) rc);;
  effect PingTimerStarted.

Definition pingTimer_stop : M unit :=
  modify (fun rc => set_pingTimer (mkTimer false (timer_interval (_pingTimer rc))) rc).

(** [RemoteConnector::ping], the slot of the keepalive timer *)
Definition ping : M unit :=
  rc ← get;
  if _awaitingPing rc then
    modify (set_awaitingPing false);;
    reconnect
  else
    modify (set_awaitingPing true);;
    sendBinaryMessage PingMessage.

(** ** Back-off *)

(** [RemoteConnector::retry] *)
Definition retry : M Z :=
  rc ← get;
  retryTimeout ←
    (if Z.of_nat (length Timeouts) <=? _retryIndex rc
     then mret (List.last Timeouts 0)
     else if _retryIndex rc <? 0 then crash
     else match Timeouts !! Z.to_nat (_retryIndex rc) with
          | Some t => modify (set_retryIndex (_retryIndex rc + 1));; mret t
          | None => crash
          end);
  effect (SingleShot retryTimeout RetryTimer);;
  mret retryTimeout.

(** The lambda of the single-shot timer of [retry]. *)
Definition retryTimerFired : M unit :=
  rc ← get;
  if negb (_retryIndex rc =? 0) then reconnect else mret tt.

(** [RemoteConnector::scheduleRetry], run on entry of Retry *)
Definition scheduleRetry : M unit :=
  delta ← retry; mret tt.

(** [n] entries of Retry in a row. *)
Fixpoint retries (n : nat) : M unit :=
  match n with
  | O => mret tt
  | S k => scheduleRetry;; retries k
  end.

(** The delay of the [k]-th retry in a row, counted from 0, as the
    specification gives it: 5s, 10s, 30s, 60s, 300s, 300s, ... *)
Definition backoff (k : nat) : Z := nth k [5; 10; 30; 60; 300] 300.

(** [RemoteConnector::clearCaches] *)
Definition clearCaches (includeExport : bool) : M unit :=
  modify (set_deviceCache []);;
  (if includeExport then modify (set_exportsCache ∅) else mret tt);;
  modify (set_activeProofs ∅).

(** [RemoteConnector::onExitActiveState] *)
Definition onExitActiveState : M unit :=
  clearCaches false;;
  endOp;;
  emit (remoteEvent RemoteDisconnected).

(** ** Errors *)

Definition controllerError_text (t : ErrorType) : string :=
  match t with
  | IncompatibleVersionError => "Server is not compatibel with your application version."
  | AuthenticationError =>
      "Authentication failed. Try to remove and add your device again, or reset your account!"
  | AccessError =>
      "Account access (import) failed. The partner device was not available or did not accept your request!"
  | KeyIndexError => "Cannot update key! This client is not using the latest existing keys."
  | ClientError | ServerError | UnexpectedMessageError =>
      "Internal application error. Check the logs for details."
  | UnknownError => "Unknown error occured."
  end.

(** [RemoteConnector::onError] *)
Definition onError (message : ErrorMessage) : M unit :=
  triggerError (canRecover message);;
  if negb (canRecover message)
  then emit (controllerError (controllerError_text (err_type message)))
  else mret tt.

(** The error that [{ErrorMessage::ClientError, what}] builds. *)
Definition clientError (what : string) : ErrorMessage :=
  mkError ClientError what clientError_canRecover.

(** ** Key updates *)

(** [RemoteConnector::sendKeyUpdate] *)
Definition sendKeyUpdate : M unit :=
  setValue keySendCmac (VBool true);;
  rc ← get;
  cmac ← lift (generateEncryptionKeyCmac (_cryptoController rc));
  sendMessage (MacUpdateMessage (keyIndex (_cryptoController rc)) cmac).

(** [RemoteConnector::initKeyUpdate]; the key index is a quint32. *)
Definition initKeyUpdate : M unit :=
  rc ← get;
  if negb (isIdle rc) then mret tt
  else
    catch_Exception
      (sendMessage (KeyChangeMessage ((keyIndex (_cryptoController rc) + 1) mod 2 ^ 32)))
      (fun what => onError (clientError what)).

(** [RemoteConnector::onEntryIdleState] *)
Definition onEntryIdleState : M unit :=
  modify (set_retryIndex 0);;
  rc ← get;
  (if hasKeyUpdate (_cryptoController rc) then initKeyUpdate else mret tt);;
  rc ← get;
  if _expectChanges rc then
    modify (set_expectChanges false);;
    emit (remoteEvent RemoteReadyWithChanges)
  else emit (remoteEvent RemoteReady).

(** The body of the foreach loop of [onWelcome]; the result is [keyUpdated]. *)
Fixpoint welcome_keyUpdates (updates : list KeyUpdate) (keyUpdated : bool) : M bool :=
  match updates with
  | [] => mret keyUpdated
  | keyUpdate :: rest =>
      rc ← get;
      lift (verifyCmac (_cryptoController rc)
              (keyIndex (_cryptoController rc))
              (signatureData (_deviceId rc) keyUpdate)
              (ku_cmac keyUpdate));;
      c ← lift (decryptSecretKey (_cryptoController rc)
                  (ku_index keyUpdate) (ku_scheme keyUpdate) (ku_key keyUpdate) false);
      modify (set_cryptoController c);;
      welcome_keyUpdates rest true
  end.

(** [RemoteConnector::onWelcome] *)
Definition onWelcome (message : WelcomeMessage) : M unit :=
  rc ← get;
  if negb (isActive LoggingIn rc) then triggerError true
  else
    modify (set_expectChanges (hasChanges message));;
    submitEvent EvAccount;;
    keyUpdated ← welcome_keyUpdates (keyUpdates message) false;
    rc ← get;
    if keyUpdated || toBool (sValue keySendCmac rc) then sendKeyUpdate else mret tt.

(** [RemoteConnector::storeConfig] (without the headers) *)
Definition storeConfig (config : RemoteConfig) : M unit :=
  setValue keyRemoteUrl (VString (cfg_url config));;
  setValue keyAccessKey (VString (cfg_accessKey config));;
  setValue keyKeepaliveTimeout (VInt (cfg_keepaliveTimeout config)).

(** [RemoteConnector::onAccount] *)
Definition onAccount (deviceId : QUuid) (checkState : bool) : M unit :=
  rc ← get;
  if checkState && negb (isActive Registering rc) then triggerError true
  else
    modify (set_deviceId deviceId);;
    setValue keyDeviceId (VUuid deviceId);;
    rc ← get;
    storeConfig (loadConfig rc);;
    c ← lift (storePrivateKeys (_cryptoController rc) deviceId);
    modify (set_cryptoController c);;
    modify (set_expectChanges false);;
    submitEvent EvAccount.

(** [RemoteConnector::onMacUpdateAck] *)
Definition onMacUpdateAck : M unit :=
  idle ← checkIdle;
  if (idle : bool) then remove keySendCmac else mret tt.

(** [RemoteConnector::onChangeAck] *)
Definition onChangeAck (dataId : QByteArray) : M unit :=
  idle ← checkIdle;
  if (idle : bool) then emit (uploadDone dataId) else mret tt.

(** [RemoteConnector::onLastChanged] *)
Definition onLastChanged : M unit :=
  idle ← checkIdle;
  if (idle : bool) then endOp;; emit (remoteEvent RemoteReady) else mret tt.

(** ** Account access: export, proof, reply *)

Record ExportData := mkExportData {
  exp_trusted : bool;
  exp_pNonce : QByteArray;
  exp_partnerId : QUuid;
  exp_scheme : QByteArray;
  exp_cmac : QByteArray;
  exp_config : option RemoteConfig }.

(** [ExportData::signData] *)
Definition signData (pNonce : QByteArray) (partnerId : QUuid) (scheme : QByteArray)
  : QByteArray :=
  pNonce +:+ toRfc4122 partnerId +:+ scheme.

(** [RemoteConnector::exportAccount]; a null password is [None]. *)
Definition exportAccount (includeServer : bool) (password : option string)
  : M (ExportData * QByteArray * QByteArray) :=
  rc ← get;
  if isNull (_deviceId rc)
  then throw (Exception "Cannot export data without beeing registered on a server.")
  else
    let '(nonce, c) := rng_GenerateBlock (_cryptoController rc) NonceSize in
    modify (set_cryptoController c);;
    let partnerId := _deviceId rc in
    let trusted := bool_decide (password ≠ None) in
    '(scheme, salt, key) ← lift (generateExportKey c password);
    cmac ← lift (createExportCmac c scheme key (signData nonce partnerId scheme));
    rc ← get;
    let config := if includeServer then Some (loadConfig rc) else None in
    modify (fun rc => set_exportsCache (<[nonce := key]> (_exportsCache rc)) rc);;
    mret (mkExportData trusted nonce partnerId scheme cmac config, salt, key).

(** [RemoteConnector::loginReply] *)
Definition loginReply (deviceId : QUuid) (accept : bool) : M unit :=
  rc ← get;
  if negb (isIdle rc) then mret tt
  else
    catch_Exception
      (rc ← get;
       let crypto := _activeProofs rc !! deviceId in
       modify (set_activeProofs (delete deviceId (_activeProofs rc)));;
       match crypto with
       | None => mret tt
       | Some crypto =>
           if accept then
             '(index, scheme, secret) ←
               lift (encryptSecretKey (_cryptoController rc) crypto);
             sendMessage (AcceptMessage deviceId index scheme secret);;
             emit (prepareAddedData deviceId);;
             emit (accountAccessGranted deviceId)
           else sendMessage (DenyMessage deviceId)
       end)
      (fun what => sendMessage (DenyMessage deviceId)).

(** [RemoteConnector::onProof]; [_exportsCache.take] gives an empty key when
    the nonce is not in the cache. *)
Definition onProof (message : ProofMessage) : M unit :=
  idle ← checkIdle;
  if (idle : bool) then
    catch_Exception
      (rc ← get;
       let key := default "" (_exportsCache rc !! pNonce message) in
       modify (set_exportsCache (delete (pNonce message) (_exportsCache rc)));;
       (if bool_decide (key = "")
        then throw (Exception "ProofMessage for non existing export")
        else mret tt);;
       let macData := pNonce message +:+ toRfc4122 (_deviceId rc) +:+ macscheme message in
       lift (verifyImportCmac (_cryptoController rc)
               (macscheme message) key macData (cmac message));;
       cryptInfo ← lift (createCryptoInfo (_cryptoController rc)
                           (signAlgorithm message) (signKey message)
                           (cryptAlgorithm message) (cryptKey message));
       (match trustmac message with
        | Some mac =>
            lift (verifyImportCmacForCrypto (_cryptoController rc)
                    (macscheme message) key cryptInfo mac)
        | None => mret tt
        end);;
       modify (fun rc =>
         set_activeProofs (<[deviceId message := cryptInfo]> (_activeProofs rc)) rc);;
       (match trustmac message with
        | Some _ => loginReply (deviceId message) true
        | None =>
            emit (loginRequested
                    (mkDeviceInfo (deviceId message) (deviceName message)
                                  (ownFingerprint cryptInfo)))
        end);;
       effect (SingleShot (10 * 60) (ProofTimer (deviceId message))))
      (fun what => sendMessage (DenyMessage (deviceId message)))
  else mret tt.

(** The lambda of the single-shot timer of [onProof]. *)
Definition proofTimerFired (deviceId : QUuid) : M unit :=
  rc ← get;
  match _activeProofs rc !! deviceId with
  | Some _ =>
      modify (set_activeProofs (delete deviceId (_activeProofs rc)));;
      sendMessage (DenyMessage deviceId)
  | None => mret tt
  end.

(** ** Connecting and disconnecting *)

(** [RemoteConnector::loadIdentity] *)
Definition loadIdentity : M bool :=
  rc ← get;
  let nId := toUuid (sValue keyDeviceId rc) in
  if negb (nId =? _deviceId rc) || isNull nId then
    modify (set_deviceId nId);;
    let c1 := clearKeyMaterial (_cryptoController rc) in
    let '(ok, c2) := acquireStore c1 (negb (isNull nId)) in
    modify (set_cryptoController c2);;
    if negb ok then mret false
    else if isNull nId then mret true
    else
      match loadKeyMaterial c2 nId with
      | Returns c3 => modify (set_cryptoController c3);; mret true
      | Throws _ => mret false
      end
  else mret true.

(** [RemoteConnector::checkCanSync]; the result is the url to connect to. *)
Definition checkCanSync : M (option string) :=
  rc ← get;
  if isClosing (_stateMachine rc) then mret None
  else
    loaded ← loadIdentity;
    if negb loaded then mret None
    else
      rc ← get;
      if negb (toBool (sValue keyRemoteEnabled rc)) then mret None
      else
        let remoteUrl := toString (sValue keyRemoteUrl rc) in
        if negb (url_isValid remoteUrl) then mret None
        else mret (Some remoteUrl).

(** [RemoteConnector::doConnect], run on entry of Connecting.  The ssl
    configuration and the headers of the request are left out. *)
Definition doConnect : M unit :=
  emit (remoteEvent RemoteConnecting);;
  canSync ← checkCanSync;
  match canSync with
  | None => submitEvent EvNoConnect
  | Some remoteUrl =>
      rc ← get;
      let tOut := toInt (sValue keyKeepaliveTimeout rc) in
      modify (set_socket (Some (mkSocket UnconnectedState (0 <? tOut))));;
      (if 0 <? tOut then
         modify (set_pingTimer (mkTimer (timer_active (_pingTimer rc)) (tOut * 60000)));;
         modify (set_awaitingPing false)
       else mret tt);;
      beginSpecialOp 1;;
      modify (set_socket (Some (mkSocket ConnectingState (0 <? tOut))));;
      effect (SocketOpened remoteUrl)
  end.

(** [RemoteConnector::doDisconnect], run when the machine sends doDisconnect *)
Definition doDisconnect : M unit :=
  rc ← get;
  match _socket rc with
  | Some so =>
      match sock_state so with
      | HostLookupState | ConnectingState | UnconnectedState =>
          modify (set_socket None);;
          submitEvent EvDisconnected
      | ClosingState => mret tt
      | ConnectedState =>
          beginSpecialOp 1;;
          modify (set_socket (Some (mkSocket ClosingState (sock_keepalive so))));;
          effect SocketClosed
      | BoundState | ListeningState => crash
      end
  | None => submitEvent EvDisconnected
  end.

(** [RemoteConnector::connected] *)
Definition connected : M unit :=
  endOp;;
  submitEvent EvConnected.

(** [RemoteConnector::disconnected]; the log line of an unexpected disconnect
    reads the close code of the socket. *)
Definition disconnected : M unit :=
  endOp;;
  rc ← get;
  (if in_Active (state (_stateMachine rc)) && negb (isActive Connecting rc)
   then match _socket rc with Some _ => mret tt | None => crash end
   else mret tt);;
  modify (set_socket None);;
  submitEvent EvDisconnected.

(** The connected signal of the socket, as [doConnect] wires it: the
    connector's slot, then the start of the keepalive timer. *)
Definition socket_connected : M unit :=
  modify (fun rc =>
    set_socket (match _socket rc with
                | Some so => Some (mkSocket ConnectedState (sock_keepalive so))
                | None => None
                end) rc);;
  connected;;
  rc ← get;
  match _socket rc with
  | Some so => if sock_keepalive so then pingTimer_start else mret tt
  | None => mret tt
  end.

(** The disconnected signal of the socket: the keepalive timer stops at
    once, the connector's slot is queued and runs after it. *)
Definition socket_disconnected : M unit :=
  rc ← get;
  (match _socket rc with
   | Some so =>
       modify (set_socket (Some (mkSocket UnconnectedState (sock_keepalive so))));;
       (if sock_keepalive so then pingTimer_stop else mret tt)
   | None => mret tt
   end);;
  disconnected.

(** ** Incoming frames *)

(** [RemoteConnector::binaryMessageReceived] *)
Definition binaryMessageReceived (frame : Frame) : M unit :=
  match frame with
  | FPing =>
      modify (set_awaitingPing false);;
      pingTimer_start
  | _ =>
      catch_all
        (match frame with
         | FPing => mret tt
         | FMalformed => throw DataStreamException
         | FUnknown name => triggerError true
         | FError m => onError m
         | FAccount deviceId => onAccount deviceId true
         | FWelcome m => onWelcome m
         | FProof m => onProof m
         | FMacUpdateAck => onMacUpdateAck
         | FChangeAck dataId => onChangeAck dataId
         | FLastChanged => onLastChanged
         end)
        (fun e =>
           match e with
           | DataStreamException => triggerError true
           | Exception what => onError (clientError what)
           | CryptoPPException what => onError (clientError what)
           end)
  end.

(** ** The machine at work *)

(** The callback connected to the entry of a state. *)
Definition onEntry (s : State) : M unit :=
  match s with
  | Connecting => doConnect
  | Retry => scheduleRetry
  | Idle => onEntryIdleState
  | Closing => doDisconnect
  | _ => mret tt
  end.

(** One step of the machine: the first queued event is taken; if the table
    has a transition for it, Active is left (when it is), the target becomes
    the active state and its entry callback runs. *)
Definition dispatch : M unit :=
  rc ← get;
  let m := _stateMachine rc in
  match events m with
  | [] => mret tt
  | e :: queue =>
      modify (set_stateMachine (mkMachine (state m) (isClosing m) (recover m) queue));;
      match transition m e with
      | None => mret tt
      | Some (target, rec) =>
          (if in_Active (state m) && negb (in_Active target)
           then onExitActiveState else mret tt);;
          modify (fun rc =>
            set_stateMachine
              (mkMachine target (isClosing m) rec (events (_stateMachine rc))) rc);;
          onEntry target
      end
  end.

(** What happens to a connector: a frame arrives, the machine takes a step,
    a timer fires, the socket reports, or the owner calls in. *)
Inductive Op :=
  | OpFrame (frame : Frame)
  | OpDispatch
  | OpPing
  | OpRetryTimer
  | OpProofTimer (deviceId : QUuid)
  | OpOperationTimeout
  | OpSocketConnected
  | OpSocketDisconnected
  | OpReconnect
  | OpDisconnect
  | OpInitKeyUpdate
  | OpLoginReply (deviceId : QUuid) (accept : bool)
  | OpExportAccount (includeServer : bool) (password : option string).

Definition run_op (op : Op) : M unit :=
  match op with
  | OpFrame frame => binaryMessageReceived frame
  | OpDispatch => dispatch
  | OpPing => ping
  | OpRetryTimer => retryTimerFired
  | OpProofTimer deviceId => proofTimerFired deviceId
  | OpOperationTimeout => operationTimeout
  | OpSocketConnected => socket_connected
  | OpSocketDisconnected => socket_disconnected
  | OpReconnect => reconnect
  | OpDisconnect => disconnect
  | OpInitKeyUpdate => initKeyUpdate
  | OpLoginReply deviceId accept => loginReply deviceId accept
  | OpExportAccount includeServer password =>
      exportAccount includeServer password;; mret tt
  end.

(** The connector after [op]; an exception that [op] lets out is the
    caller's, the connector stays as the throw left it. *)
Definition after (op : Op) (rc : RC) : option RC :=
  match run_op op rc with
  | Some (_, rc1) => Some rc1
  | None => None
  end.

(** [m] keeps [P]: if [P] holds of the connector before [m], it holds of the
    connector [m] leaves, whether [m] returns or throws. *)
Definition keeps {A} (P : RC -> Prop) (m : M A) : Prop :=
  forall rc o rc', P rc -> m rc = Some (o, rc') -> P rc'.

(** The answers to a proof that go out on the socket. *)
Definition is_reply (e : Effect) : bool :=
  match e with
  | Sent (AcceptMessage _ _ _ _) | Sent (DenyMessage _) => true
  | _ => false
  end.

Definition replies (l : list Effect) : list Effect :=
  filter (fun e => is_reply e = true) l.


Definition is_export (op : Op) : bool :=
  match op with
  | OpExportAccount _ _ => true
  | _ => false
  end.

(** The reading of the operation timeout as a fatal error: the slot of
    [specialOperationTimeout] does what [triggerError(false)] does. *)
Definition timeout_is_fatal (rc : RC) : Prop :=
  onSpecialOperationTimeout rc = triggerError false rc.

Fixpoint after_all (ops : list Op) (rc : RC) : option RC :=
  match ops with
  | [] => Some rc
  | op :: rest =>
      match after op rc with
      | Some rc1 => after_all rest rc1
      | None => None
      end
  end.

(** The delays of the retry timers among [l], in the order they were
    started. *)
Definition retry_delays (l : list Effect) : list Z :=
  omap (fun e => match e with
                 | SingleShot seconds RetryTimer => Some seconds
                 | _ => None
                 end) l.

(** Whether [op], run on [rc], makes the machine enter [s]: a step of the
    machine whose event has a transition to [s]. *)
Definition enters (s : State) (op : Op) (rc : RC) : bool :=
  match op with
  | OpDispatch =>
      match events (_stateMachine rc) with
      | e :: _ =>
          match transition (_stateMachine rc) e with
          | Some (target, _) => bool_decide (target = s)
          | None => false
          end
      | [] => false
      end
  | _ => false
  end.

(** How many times the run of [ops] from [rc] enters [s]. *)
Fixpoint entries (s : State) (ops : list Op) (rc : RC) : nat :=
  match ops with
  | [] => 0%nat
  | op :: rest =>
      ((if enters s op rc then 1 else 0) +
       match after op rc with
       | Some rc1 => entries s rest rc1
       | None => 0
       end)%nat
  end.



(** The Accepts among what the connector sent. *)
Definition is_accept (e : Effect) : bool :=
  match e with
  | Sent (AcceptMessage _ _ _ _) => true
  | _ => false
  end.

Definition accepts (l : list Effect) : list Effect :=
  filter (fun e => is_accept e = true) l.

(** The reading of the single use of an export nonce that puts no condition
    on the state of the connector: of two ProofMessages with the same nonce
    and no [exportAccount] between them, the later one finds the nonce gone
    and is not accepted. *)
Definition nonce_accepted_once (rc : RC) (m1 m2 : ProofMessage) : Prop :=
  forall ops rc1 rc2 o rc3,
    after (OpFrame (FProof m1)) rc = Some rc1 ->
    Forall (fun op => is_export op = false) ops ->
    after_all ops rc1 = Some rc2 ->
    pNonce m2 = pNonce m1 ->
    binaryMessageReceived (FProof m2) rc2 = Some (o, rc3) ->
    _exportsCache rc2 !! pNonce m2 = None /\
    accepts (effects rc3) = accepts (effects rc2).

End Connector.

Arguments RC : clear implicits.

End RemoteConnector.

(** * The symmetric keys of the crypto controller *)
Module CryptoController.
Import RemoteConnector.

Section Keys.

(** The primitives: the CMAC of [data] under a symmetric key, the decryption
    of a secret with the private key of the device, the encryption of one
    for a peer's public key. *)
Variable mac : QByteArray -> QByteArray -> QByteArray.
Variable decrypt : QByteArray -> Outcome QByteArray.
Variable encrypt : QByteArray -> QByteArray -> QByteArray.

(** The symmetric keys that are loaded, by index, and the index of the
    current one ([keyIndex]); the staged next index, if any. *)
Record Crypto := mkCrypto {
  localCipher : Z;
  loadedCiphers : gmap Z QByteArray;
  nextCipher : option Z;
  rngState : Z }.

(** An AsymmetricCryptoInfo: the schemes and public keys of a peer. *)
Record CryptoInfo := mkCryptoInfo {
  ci_signScheme : QByteArray;
  ci_signKey : QByteArray;
  ci_cryptScheme : QByteArray;
  ci_cryptKey : QByteArray }.

Definition check (b : bool) (what : string) : Outcome unit :=
  if b then Returns tt else Throws (Exception what).

(** Modelled from the spec: CryptoController::verifyCmac, whose code is not
    under src/.  §4.3: "Client verifies each cmac against the immediately
    preceding key": the tag is checked under the loaded key of the given
    index, and a failed check throws. *)
Definition verifyCmac (c : Crypto) (index : Z) (data cmac : QByteArray) : Outcome unit :=
  match loadedCiphers c !! index with
  | Some key => check (bool_decide (mac key data = cmac)) "cmac verification failed"
  | None => Throws (Exception "no key of that index")
  end.

(** Modelled from the spec: CryptoController::decryptSecretKey, whose code is
    not under src/.  §4.1 gives decryptSecretKey(index, scheme, cipher, activateIfNewer);
    §4.3 says of Welcome that the client "decrypts, and installs the highest
    index as current", and the call in onWelcome, which passes [false], is
    commented "import the key and set active if newer": with [false] the
    decrypted key is stored under its index and becomes current if its index
    is above the current one.  With [true] (onGrant, where §4.3 has the
    granted key become valid) it becomes current outright. *)
Definition decryptSecretKey (c : Crypto) (index : Z) (scheme cipher : QByteArray)
    (grant : bool) : Outcome Crypto :=
  match decrypt cipher with
  | Returns key =>
      Returns {| localCipher := if grant then index
                                else if localCipher c <? index then index
                                else localCipher c;
                 loadedCiphers := <[index := key]> (loadedCiphers c);
                 nextCipher := nextCipher c;
                 rngState := rngState c |}
  | Throws e => Throws e
  end.

(** Modelled from the spec: CryptoController::generateEncryptionKeyCmac.
    §4.1: "CMAC tag over the current symmetric key". *)
Definition generateEncryptionKeyCmac (c : Crypto) : Outcome QByteArray :=
  match loadedCiphers c !! localCipher c with
  | Some key => Returns (mac key key)
  | None => Throws (Exception "no current key")
  end.

(** Modelled from the spec: the rest of what the connector calls, none of it
    under src/.  §4.1 and §4.3: the import cmac and the trustmac are tags
    under the export key; a peer's keys are read and verified; the current
    secret is encrypted for the peer. *)
Definition encryptSecretKey (c : Crypto) (info : CryptoInfo)
  : Outcome (Z * QByteArray * QByteArray) :=
  match loadedCiphers c !! localCipher c with
  | Some key => Returns (localCipher c, "AES", encrypt (ci_cryptKey info) key)
  | None => Throws (Exception "no current key")
  end.

Definition verifyImportCmac (c : Crypto) (scheme key data cmac : QByteArray)
  : Outcome unit :=
  check (bool_decide (mac key data = cmac)) "import cmac verification failed".

Definition cryptoSignData (info : CryptoInfo) : QByteArray :=
  ci_signScheme info +:+ ci_signKey info +:+ ci_cryptScheme info +:+ ci_cryptKey info.

Definition verifyImportCmacForCrypto (c : Crypto) (scheme key : QByteArray)
    (info : CryptoInfo) (cmac : QByteArray) : Outcome unit :=
  check (bool_decide (mac key (cryptoSignData info) = cmac)) "trustmac verification failed".

Definition createCryptoInfo (c : Crypto) (signScheme signKey cryptScheme cryptKey : QByteArray)
  : Outcome CryptoInfo :=
  if bool_decide (signKey = "") || bool_decide (cryptKey = "")
  then Throws (CryptoPPException "invalid key")
  else Returns (mkCryptoInfo signScheme signKey cryptScheme cryptKey).

Definition nonce_of (n : Z) : QByteArray :=
  String (Ascii.ascii_of_N (Z.to_N (n mod 256))) "".

Definition rng_GenerateBlock (c : Crypto) (size : Z) : QByteArray * Crypto :=
  (nonce_of (rngState c),
   {| localCipher := localCipher c;
      loadedCiphers := loadedCiphers c;
      nextCipher := nextCipher c;
      rngState := rngState c + 1 |}).

Definition generateExportKey (c : Crypto) (password : option string)
  : Outcome (QByteArray * QByteArray * QByteArray) :=
  Returns ("PBKDF", "salt", "k" +:+ default "" password).

Definition createExportCmac (c : Crypto) (scheme key data : QByteArray) : Outcome QByteArray :=
  Returns (mac key data).

Definition signatureData (deviceId : QUuid) (u : KeyUpdate) : QByteArray :=
  ku_scheme u +:+ ku_key u.

#[local] Instance externals : Externals Crypto CryptoInfo := {|
  RemoteConnector.keyIndex := localCipher;
  RemoteConnector.hasKeyUpdate := fun c => bool_decide (nextCipher c ≠ None);
  RemoteConnector.verifyCmac := verifyCmac;
  RemoteConnector.decryptSecretKey := decryptSecretKey;
  RemoteConnector.generateEncryptionKeyCmac := generateEncryptionKeyCmac;
  RemoteConnector.encryptSecretKey := encryptSecretKey;
  RemoteConnector.verifyImportCmac := verifyImportCmac;
  RemoteConnector.verifyImportCmacForCrypto := verifyImportCmacForCrypto;
  RemoteConnector.rng_GenerateBlock := rng_GenerateBlock;
  RemoteConnector.generateExportKey := generateExportKey;
  RemoteConnector.createExportCmac := createExportCmac;
  RemoteConnector.clearKeyMaterial := fun c => c;
  RemoteConnector.acquireStore := fun c _ => (true, c);
  RemoteConnector.loadKeyMaterial := fun c _ => Returns c;
  RemoteConnector.storePrivateKeys := fun c _ => Returns c;
  RemoteConnector.createCryptoInfo := createCryptoInfo;
  RemoteConnector.ownFingerprint := cryptoSignData;
  RemoteConnector.signatureData := signatureData;
  RemoteConnector.NonceSize := 1;
  RemoteConnector.clientError_canRecover := false;
  RemoteConnector.toRfc4122 := fun u => nonce_of u;
  RemoteConnector.url_isValid := fun url => negb (bool_decide (url = ""));
  RemoteConnector.machineHostName := "host-1";
  RemoteConnector.remoteConfiguration := mkConfig "wss://example.org" "key" 1 |}.

(** Each update of the list is verified under [prevKey], the key before it,
    and decrypts to the key the next one is verified under. *)
Fixpoint chain_verified (deviceId : QUuid) (prevKey : QByteArray)
    (updates : list KeyUpdate) : Prop :=
  match updates with
  | [] => True
  | u :: rest =>
      mac prevKey (signatureData deviceId u) = ku_cmac u ∧
      ∃ key, decrypt (ku_key u) = Returns key ∧ chain_verified deviceId key rest
  end.

(** The indices go up, starting above [current]. *)
Fixpoint ascending (current : Z) (indices : list Z) : Prop :=
  match indices with
  | [] => True
  | i :: rest => current < i ∧ ascending i rest
  end.

End Keys.

End CryptoController.

(** * A connector to try things on *)
Module Examples.
Import RemoteConnector CryptoController.

(** Toy primitives: the tag is key and data side by side, decryption is the
    identity, encryption puts the recipient's key in front. *)
Definition toy_mac (key data : QByteArray) : QByteArray := key +:+ "/" +:+ data.
Definition toy_decrypt (cipher : QByteArray) : Outcome QByteArray := Returns cipher.
Definition toy_encrypt (key plain : QByteArray) : QByteArray := key +:+ "!" +:+ plain.

#[global] Instance toy : Externals Crypto CryptoInfo :=
  externals toy_mac toy_decrypt toy_encrypt.

(** A connector of device 42 in state [s], connected, holding key 7, with
    nothing queued, nothing cached and nothing done yet. *)
Definition connector_in (s : State) : RC Crypto CryptoInfo :=
  mkRC (mkCrypto 7 {[7 := "key7"]} None 0)
       (Some (RemoteConnector.mkSocket ConnectedState true))
       (mkTimer true 60000) false (mkMachine s false true []) 0 false 42 [] ∅ ∅ ∅ None [].

(** The same, with the operation timer armed for five minutes. *)
Definition connector_waiting : RC Crypto CryptoInfo :=
  set_opTimer (Some 5) (connector_in Idle).

(** The same, with the export of nonce "n" (key "k") in the cache. *)
Definition connector_exporting : RC Crypto CryptoInfo :=
  set_exportsCache {["n" := "k"]} (connector_in Idle).

(** A proof for the export of nonce "n" from device 9, without trustmac and
    with one. *)
Definition proof_untrusted : ProofMessage :=
  mkProof "n" 9 "phone" "sa" "sk" "ca" "ck" "s" (toy_mac "k" ("n" +:+ nonce_of 42 +:+ "s")) None.

Definition proof_trusted : ProofMessage :=
  mkProof "n" 9 "phone" "sa" "sk" "ca" "ck" "s" (toy_mac "k" ("n" +:+ nonce_of 42 +:+ "s"))
          (Some (toy_mac "k" "saskcack")).

(** A Welcome with the keys 8 and 9, each signed under the key before it. *)
Definition welcome_two_keys : WelcomeMessage :=
  mkWelcome true [(8, "AES", "key8", toy_mac "key7" "AESkey8");
                  (9, "AES", "key9", toy_mac "key8" "AESkey9")].

(** A connector whose Welcome has just been handled: still in LoggingIn
    with the account event queued, and the export of nonce "n" (key "k") in
    the cache. *)
Definition connector_welcomed : RC Crypto CryptoInfo :=
  set_stateMachine (mkMachine LoggingIn false true [EvAccount])
    (set_exportsCache {["n" := "k"]} (connector_in LoggingIn)).

(** The connector an operation leaves ([rc] itself if there is none). *)
Definition connector_after (ops : list Op) (rc : RC Crypto CryptoInfo)
  : RC Crypto CryptoInfo :=
  default rc (after_all ops rc).

End Examples.

(** * The websocket connector (wsremoteconnector.cpp) *)
Module WsRemoteConnector.

Inductive RemoteState :=
  | Disconnected
  | Connecting
  | Identifying
  | Idle
  | Reloading
  | Operating
  | Closing.

#[global] Instance RemoteState_eq_dec : EqDecision RemoteState.
Proof. solve_decision. Defined.

(** The socket: whether it was asked to close, and how many times its
    destroyed signal is connected to [reconnect]. *)
Record Socket := mkSocket {
  closeRequested : bool;
  reconnectOnDestroyed : nat }.

Inductive Effect :=
  | clearAuthenticationError
  | remoteStateChanged_RemoteConnecting
  | remoteStateChanged_RemoteDisconnected
  | SocketOpened (url : string).

(** The members [reconnect] reads and writes; of the settings, the remote
    url and the enabled flag (absent: [None], read as [true]). *)
Record Ws := mkWs {
  socket : option Socket;
  state : RemoteState;
  retryIndex : Z;
  remoteUrl : string;
  remoteEnabled : option bool;
  effects : list Effect }.

Section Reconnect.

(** [QUrl::isValid] *)
Variable url_isValid : string -> bool.

(** [WsRemoteConnector::reconnect] *)
Definition reconnect (ws : Ws) : Ws :=
  if bool_decide (state ws = Connecting) || bool_decide (state ws = Closing) then ws
  else
    match socket ws with
    | Some so =>
        {| socket := Some (mkSocket true (S (reconnectOnDestroyed so)));
           state := Closing;
           retryIndex := retryIndex ws;
           remoteUrl := remoteUrl ws;
           remoteEnabled := remoteEnabled ws;
           effects := effects ws |}
    | None =>
        if negb (url_isValid (remoteUrl ws)) || negb (default true (remoteEnabled ws))
        then
          {| socket := None;
             state := Disconnected;
             retryIndex := retryIndex ws;
             remoteUrl := remoteUrl ws;
             remoteEnabled := remoteEnabled ws;
             effects := effects ws ++ [clearAuthenticationError;
                                       remoteStateChanged_RemoteConnecting;
                                       remoteStateChanged_RemoteDisconnected] |}
        else
          {| socket := Some (mkSocket false 0);
             state := Connecting;
             retryIndex := retryIndex ws;
             remoteUrl := remoteUrl ws;
             remoteEnabled := remoteEnabled ws;
             effects := effects ws ++ [clearAuthenticationError;
                                       remoteStateChanged_RemoteConnecting;
                                       SocketOpened (remoteUrl ws)] |}
    end.

End Reconnect.

(** A websocket connector that is connecting. *)
Definition ws_connecting : Ws :=
  mkWs (Some (mkSocket false 0)) Connecting 2 "wss://example.org" None [].

End WsRemoteConnector.

(** * The operations of the websocket connector (wsremoteconnector.cpp) *)
Module WsOperations.
Import WsRemoteConnector.

(** An ObjectKey: the type name and the key of a dataset. *)
Definition ObjectKey : Type := string * string.

(** The commands that [sendCommand] is called with, with their data. *)
Inductive Command :=
  | createIdentityCmd (deviceId : string)
  | identifyCmd (userId deviceId : string)
  | loadChangesCmd (resync : bool)
  | loadCmd (key : ObjectKey)
  | saveCmd (key : ObjectKey) (value : string)
  | removeCmd (key : ObjectKey)
  | markUnchangedCmd (key : ObjectKey)
  | deleteOldDeviceCmd.

Inductive RemoteStateValue :=
  | RemoteDisconnected
  | RemoteLoadingState
  | RemoteReady.

(** The signals the operations emit; a changed entry of a change hash is
    [true], a deleted one [false]. *)
Inductive Signal :=
  | operationFailed (text : string)
  | operationDone (data : string)
  | remoteStateChanged (s : RemoteStateValue) (changes : list (ObjectKey * bool))
  | remoteDataChanged (key : ObjectKey) (changed : bool)
  | performLocalReset (clearStore : bool)
  | authenticationFailed (text : string).

(** What the operations do, in order: commands sent, signals emitted, the
    single-shot timer of [retry] (which calls [reloadRemoteState]), pings. *)
Inductive Action :=
  | Sent (c : Command)
  | Emitted (s : Signal)
  | SingleShot (msec : Z)
  | Pinged.

(** The encryptor, if there is one: [encrypt] and [decrypt] return the
    value or throw a QException, whose [what] is on the right. *)
Record Encryptor := mkEncryptor {
  encrypt : ObjectKey -> string -> string -> string + string;
  decrypt : ObjectKey -> string -> string -> string + string }.

(** The connector: the members [reconnect] works on ([ws]; the signals of
    [reconnect] are in its [effects]), the other members, the user identity
    and the verifyPeer flag of the settings (absent: [None]), and what the
    operations did ([actions]). *)
Record Connector := mkConnector {
  ws : Ws;
  needResync : bool;
  operationTimer : bool;
  decryptReply : bool;
  currentKey : ObjectKey;
  currentKeyProperty : string;
  userIdentity : option string;
  verifyPeer : option bool;
  actions : list Action }.

Definition set_ws (w : Ws) (c : Connector) : Connector :=
  mkConnector w (needResync c) (operationTimer c) (decryptReply c) (currentKey c)
              (currentKeyProperty c) (userIdentity c) (verifyPeer c) (actions c).

Definition set_needResync (b : bool) (c : Connector) : Connector :=
  mkConnector (ws c) b (operationTimer c) (decryptReply c) (currentKey c)
              (currentKeyProperty c) (userIdentity c) (verifyPeer c) (actions c).

Definition set_operationTimer (b : bool) (c : Connector) : Connector :=
  mkConnector (ws c) (needResync c) b (decryptReply c) (currentKey c)
              (currentKeyProperty c) (userIdentity c) (verifyPeer c) (actions c).

Definition set_decryptReply (b : bool) (c : Connector) : Connector :=
  mkConnector (ws c) (needResync c) (operationTimer c) b (currentKey c)
              (currentKeyProperty c) (userIdentity c) (verifyPeer c) (actions c).

Definition set_currentKey (key : ObjectKey) (keyProperty : string) (c : Connector)
  : Connector :=
  mkConnector (ws c) (needResync c) (operationTimer c) (decryptReply c) key
              keyProperty (userIdentity c) (verifyPeer c) (actions c).

Definition set_userIdentity (u : option string) (c : Connector) : Connector :=
  mkConnector (ws c) (needResync c) (operationTimer c) (decryptReply c) (currentKey c)
              (currentKeyProperty c) u (verifyPeer c) (actions c).

Definition set_actions (l : list Action) (c : Connector) : Connector :=
  mkConnector (ws c) (needResync c) (operationTimer c) (decryptReply c) (currentKey c)
              (currentKeyProperty c) (userIdentity c) (verifyPeer c) l.

Definition set_state (s : RemoteState) (c : Connector) : Connector :=
  set_ws (mkWs (socket (ws c)) s (retryIndex (ws c)) (remoteUrl (ws c))
               (remoteEnabled (ws c)) (effects (ws c))) c.

Definition set_retryIndex (i : Z) (c : Connector) : Connector :=
  set_ws (mkWs (socket (ws c)) (state (ws c)) i (remoteUrl (ws c))
               (remoteEnabled (ws c)) (effects (ws c))) c.

Definition set_socket (so : option Socket) (c : Connector) : Connector :=
  set_ws (mkWs so (state (ws c)) (retryIndex (ws c)) (remoteUrl (ws c))
               (remoteEnabled (ws c)) (effects (ws c))) c.

Definition emit (s : Signal) (c : Connector) : Connector :=
  set_actions (actions c ++ [Emitted s]) c.

(** [WsRemoteConnector::timeouts], in milliseconds. *)
Definition timeouts : list Z := [5 * 1000; 10 * 1000; 30 * 1000; 60 * 1000; 5 * 60 * 1000].

(** [socket->close()]; [None] is the call on a null socket. *)
Definition socket_close (c : Connector) : option Connector :=
  match socket (ws c) with
  | Some so => Some (set_socket (Some (mkSocket true (reconnectOnDestroyed so))) c)
  | None => None
  end.

(** [WsRemoteConnector::sendCommand] *)
Definition sendCommand (command : Command) (c : Connector) : option Connector :=
  match socket (ws c) with
  | Some _ => Some (set_operationTimer true (set_actions (actions c ++ [Sent command]) c))
  | None => None
  end.

(** [WsRemoteConnector::retry] *)
Definition retry (c : Connector) : option (Z * Connector) :=
  let i := retryIndex (ws c) in
  if Z.of_nat (length timeouts) <=? i then
    let retryTimeout := List.last timeouts 0 in
    Some (retryTimeout, set_actions (actions c ++ [SingleShot retryTimeout]) c)
  else if i <? 0 then None
  else
    match timeouts !! Z.to_nat i with
    | Some retryTimeout =>
        let c1 := set_retryIndex (i + 1) c in
        Some (retryTimeout, set_actions (actions c1 ++ [SingleShot retryTimeout]) c1)
    | None => None
    end.

Section Operations.

(** [QUrl::isValid], the encryptor of the connector (null: [None]) and the
    id of the device. *)
Variable url_isValid : string -> bool.
Variable cryptor : option Encryptor.
Variable getDeviceId : string.

(** [WsRemoteConnector::reloadRemoteState] *)
Definition reloadRemoteState (c : Connector) : option Connector :=
  match state (ws c) with
  | Disconnected => Some (set_ws (reconnect url_isValid (ws c)) c)
  | Idle =>
      let c1 := emit (remoteStateChanged RemoteLoadingState []) c in
      let c2 := if needResync c1 then emit (performLocalReset false) c1 else c1 in
      let c3 := set_state Reloading c2 in
      c4 ← sendCommand (loadChangesCmd (needResync c3)) c3;
      Some (set_needResync false c4)
  | Operating => snd <$> retry c
  | _ => Some c
  end.

(** [WsRemoteConnector::requestResync] *)
Definition requestResync (c : Connector) : option Connector :=
  reloadRemoteState (set_retryIndex 0 (set_needResync true c)).

(** [WsRemoteConnector::download] *)
Definition download (key : ObjectKey) (keyProperty : string) (c : Connector)
  : option Connector :=
  if negb (bool_decide (state (ws c) = Idle)) then
    Some (emit (operationFailed "Remote connector state does not allow downloads") c)
  else
    c1 ← sendCommand (loadCmd key) (set_state Operating c);
    match cryptor with
    | Some _ => Some (set_decryptReply true (set_currentKey key keyProperty c1))
    | None => Some c1
    end.

(** [WsRemoteConnector::upload] *)
Definition upload (key : ObjectKey) (object keyProperty : string) (c : Connector)
  : option Connector :=
  if negb (bool_decide (state (ws c) = Idle)) then
    Some (emit (operationFailed "Remote connector state does not allow uploads") c)
  else
    let c1 := set_state Operating c in
    match cryptor with
    | Some cr =>
        match encrypt cr key object keyProperty with
        | inl value => sendCommand (saveCmd key value) c1
        | inr what => Some (set_state Idle (emit (operationFailed what) c1))
        end
    | None => sendCommand (saveCmd key object) c1
    end.

(** [WsRemoteConnector::remove] *)
Definition remove (key : ObjectKey) (c : Connector) : option Connector :=
  if negb (bool_decide (state (ws c) = Idle)) then
    Some (emit (operationFailed "Remote connector state does not allow removals") c)
  else sendCommand (removeCmd key) (set_state Operating c).

(** [WsRemoteConnector::markUnchanged] *)
Definition markUnchanged (key : ObjectKey) (c : Connector) : option Connector :=
  if negb (bool_decide (state (ws c) = Idle)) then
    Some (emit (operationFailed
                  "Remote connector state does not allow marking as unchanged") c)
  else sendCommand (markUnchangedCmd key) (set_state Operating c).

(** [WsRemoteConnector::timerEvent], for the ping timer *)
Definition timerEvent (c : Connector) : Connector :=
  match socket (ws c) with
  | Some _ => set_actions (actions c ++ [Pinged]) c
  | None => c
  end.

(** [WsRemoteConnector::connected] *)
Definition connected (c : Connector) : option Connector :=
  let c1 := set_state Identifying (set_retryIndex 0 c) in
  match userIdentity c1 with
  | None => sendCommand (createIdentityCmd getDeviceId) c1
  | Some id => sendCommand (identifyCmd id getDeviceId) c1
  end.

(** [WsRemoteConnector::disconnected]; the log line of an unexpected
    disconnect reads the close code of the socket. *)
Definition disconnected (c : Connector) : option Connector :=
  let c1 := set_operationTimer false c in
  let c2 := if bool_decide (state (ws c1) = Operating)
            then emit (operationFailed "Connection closed") c1 else c1 in
  c3 ← (if negb (bool_decide (state (ws c2) = Closing)) then
          c2' ← (if negb (bool_decide (state (ws c2) = Connecting))
                 then match socket (ws c2) with Some _ => Some c2 | None => None end
                 else Some c2);
          snd <$> retry c2'
        else Some c2);
  match socket (ws c3) with
  | Some _ =>
      Some (emit (remoteStateChanged RemoteDisconnected [])
                 (set_socket None (set_state Disconnected c3)))
  | None => None
  end.

(** The destroyed signal of the socket that [disconnected] deleted:
    [reconnect] runs once for each time [reconnect] connected itself to it. *)
Definition destroyed (so : Socket) (c : Connector) : Connector :=
  Nat.iter (reconnectOnDestroyed so) (fun c => set_ws (reconnect url_isValid (ws c)) c) c.

(** [WsRemoteConnector::error] *)
Definition error (c : Connector) : option Connector :=
  match socket (ws c) with
  | Some _ => socket_close (emit (remoteStateChanged RemoteDisconnected []) c)
  | None => None
  end.

(** [WsRemoteConnector::sslErrors] *)
Definition sslErrors (c : Connector) : option Connector :=
  if default true (verifyPeer c)
  then socket_close (emit (remoteStateChanged RemoteDisconnected []) c)
  else Some c.

(** [WsRemoteConnector::operationTimeout] *)
Definition operationTimeout (c : Connector) : Connector :=
  set_ws (reconnect url_isValid (ws c)) c.

(** [WsRemoteConnector::identified] *)
Definition identified (userId : string) (resync : bool) (c : Connector)
  : option Connector :=
  let c1 := set_needResync (needResync c || resync) c in
  let c2 := set_userIdentity (Some userId) c1 in
  reloadRemoteState (set_state Idle c2).

(** [WsRemoteConnector::identifyFailed] *)
Definition identifyFailed (c : Connector) : option Connector :=
  socket_close (emit (authenticationFailed "User does not exist!") (set_state Closing c)).

(** [WsRemoteConnector::changeState] *)
Definition changeState (success : bool) (changes : list (ObjectKey * bool))
    (c : Connector) : option Connector :=
  c1 ← (if success
        then Some (emit (remoteStateChanged RemoteReady changes) (set_retryIndex 0 c))
        else snd <$> retry c);
  Some (set_state Idle c1).

(** [WsRemoteConnector::notifyChanged] *)
Definition notifyChanged (key : ObjectKey) (changed : bool) (c : Connector) : Connector :=
  emit (remoteDataChanged key changed) c.

(** [WsRemoteConnector::completed]; with [decryptReply] set there is an
    encryptor to call. *)
Definition completed (success : bool) (data error : string) (c : Connector)
  : option Connector :=
  c1 ← (if success then
          if decryptReply c then
            match cryptor with
            | Some cr =>
                let c1 := match decrypt cr (currentKey c) data (currentKeyProperty c) with
                          | inl plain => emit (operationDone plain) c
                          | inr what => emit (operationFailed what) c
                          end in
                Some (set_decryptReply false (set_currentKey ("", "") "" c1))
            | None => None
            end
          else Some (emit (operationDone data) c)
        else Some (emit (operationFailed error) c));
  Some (set_state Idle c1).

(** What [binaryMessageReceived] finds in a message: no JSON, one of the
    five commands with its data, or another command. *)
Inductive Reply :=
  | InvalidJson
  | Identified (userId : string) (resync : bool)
  | IdentifyFailed
  | ChangeState (success : bool) (changes : list (ObjectKey * bool))
  | NotifyChanged (key : ObjectKey) (changed : bool)
  | Completed (success : bool) (data error : string)
  | UnknownCommand (name : string).

(** [WsRemoteConnector::binaryMessageReceived] *)
Definition binaryMessageReceived (message : Reply) (c : Connector) : option Connector :=
  let c1 := set_operationTimer false c in
  match message with
  | InvalidJson => Some c1
  | Identified userId resync => identified userId resync c1
  | IdentifyFailed => identifyFailed c1
  | ChangeState success changes => changeState success changes c1
  | NotifyChanged key changed => Some (notifyChanged key changed c1)
  | Completed success data error => completed success data error c1
  | UnknownCommand _ => Some c1
  end.

(** A connection attempt that fails: the retry timer fires and calls
    [reloadRemoteState], and the socket that [reconnect] opened reports
    disconnected. *)
Definition failed_attempt (c : Connector) : option Connector :=
  c1 ← reloadRemoteState c; disconnected c1.

Fixpoint failed_attempts (n : nat) (c : Connector) : option Connector :=
  match n with
  | O => Some c
  | S k => c1 ← failed_attempt c; failed_attempts k c1
  end.

(** The delays of the single-shot timers among [l], in order. *)
Definition delays (l : list Action) : list Z :=
  omap (fun a => match a with SingleShot msec => Some msec | _ => None end) l.

(** The delay before the [k]-th retry in a row, counted from 0, in
    milliseconds. *)
Definition backoff_msec (k : nat) : Z := nth k [5000; 10000; 30000; 60000; 300000] 300000.

(** The four operations on a dataset, and the text each fails with when the
    state does not allow it. *)
Inductive Operation :=
  | Download (key : ObjectKey) (keyProperty : string)
  | Upload (key : ObjectKey) (object keyProperty : string)
  | Remove (key : ObjectKey)
  | MarkUnchanged (key : ObjectKey).

Definition run_operation (op : Operation) : Connector -> option Connector :=
  match op with
  | Download key keyProperty => download key keyProperty
  | Upload key object keyProperty => upload key object keyProperty
  | Remove key => remove key
  | MarkUnchanged key => markUnchanged key
  end.

Definition refusal (op : Operation) : string :=
  match op with
  | Download _ _ => "Remote connector state does not allow downloads"
  | Upload _ _ _ => "Remote connector state does not allow uploads"
  | Remove _ => "Remote connector state does not allow removals"
  | MarkUnchanged _ => "Remote connector state does not allow marking as unchanged"
  end.

End Operations.

(** A connector in state [s] with its socket, nothing pending and nothing
    done yet. *)
Definition connector_in (s : RemoteState) : Connector :=
  mkConnector (mkWs (Some (mkSocket false 0)) s 0 "wss://example.org" None [])
              false false false ("", "") "" (Some "user-1") None [].

(** An encryptor whose [encrypt] throws. *)
Definition failing_encryptor : Encryptor :=
  mkEncryptor (fun _ _ _ => inr "no key") (fun _ data _ => inl data).

(** A connector that lost its connection: disconnected, without a socket. *)
Definition connector_down : Connector :=
  mkConnector (mkWs None Disconnected 0 "wss://example.org" None [])
              false false false ("", "") "" (Some "user-1") None [].

(** A url check to try things with: every url but the empty one is valid. *)
Definition nonempty_url (url : string) : bool := negb (bool_decide (url = "")).

End WsOperations.

(** * The remote configuration (remoteconfig.cpp) *)
Module RemoteConfigClass.

(** RemoteConfigPrivate: the shared data of a RemoteConfig. *)
Record RemoteConfigPrivate := mkPrivate {
  url : string;
  accessKey : string;
  headers : gmap string string;
  keepaliveTimeout : Z }.

(** A RemoteConfig: its d-pointer, and the data the pointer leads to. *)
Record RemoteConfig := mkRemoteConfig {
  d : positive;
  data : RemoteConfigPrivate }.

(** [RemoteConfig::operator==] *)
Definition operator_eq (self other : RemoteConfig) : bool :=
  bool_decide (d self = d other) ||
  (bool_decide (url (data self) = url (data other)) &&
   bool_decide (accessKey (data self) = accessKey (data other)) &&
   bool_decide (headers (data self) = headers (data other)) &&
   bool_decide (keepaliveTimeout (data self) = keepaliveTimeout (data other))).

(** [RemoteConfig::operator!=] *)
Definition operator_ne (self other : RemoteConfig) : bool :=
  negb (bool_decide (d self = d other)) &&
  (negb (bool_decide (url (data self) = url (data other))) ||
   negb (bool_decide (accessKey (data self) = accessKey (data other))) ||
   negb (bool_decide (headers (data self) = headers (data other))) ||
   negb (bool_decide (keepaliveTimeout (data self) = keepaliveTimeout (data other)))).

(** Two configurations with the same d-pointer see the same data. *)
Definition shared (a b : RemoteConfig) : Prop := d a = d b → data a = data b.

(** Two configurations to try things on: the same data behind two pointers. *)
Definition config_at (p : positive) : RemoteConfig :=
  mkRemoteConfig p (mkPrivate "wss://example.org" "key" {["X-App" := "1"]} 1).

End RemoteConfigClass.

(** * More slots of the remote connector (remoteconnector.cpp) *)
Module ConnectorSlots.
Import RemoteConnector.

(** The errors of a QSslError that [sslErrors] tells apart. *)
Inductive QSslError :=
  | SelfSignedCertificate
  | SelfSignedCertificateInChain
  | OtherSslError (code : Z).

(** [QSslSocket::PeerVerifyMode], in the order of the enum. *)
Inductive PeerVerifyMode :=
  | VerifyNone
  | QueryPeer
  | VerifyPeer
  | AutoVerifyPeer.

Definition mode_value (m : PeerVerifyMode) : Z :=
  match m with
  | VerifyNone => 0
  | QueryPeer => 1
  | VerifyPeer => 2
  | AutoVerifyPeer => 3
  end.

Definition is_self_signed (e : QSslError) : bool :=
  match e with
  | SelfSignedCertificate | SelfSignedCertificateInChain => true
  | OtherSslError _ => false
  end.

(** The foreach loop of [sslErrors]: the value of [shouldClose] after it. *)
Definition shouldClose (peerVerifyMode : PeerVerifyMode) (errors : list QSslError) : bool :=
  fold_left
    (fun shouldClose error =>
       if is_self_signed error
       then shouldClose && (mode_value VerifyPeer <=? mode_value peerVerifyMode)
       else shouldClose)
    errors true.

Section Slots.
Context {Crypto CryptoInfo : Type} `{!Externals Crypto CryptoInfo}.

Abbreviation M := (@M Crypto CryptoInfo).

(** [RemoteConnector::resync] *)
Definition resync : M unit :=
  rc ← get;
  if negb (isIdle rc) then mret tt
  else
    emit (remoteEvent RemoteReadyWithChanges);;
    sendMessage SyncMessage.

(** [RemoteConnector::tryClose] *)
Definition tryClose : M unit :=
  rc ← get;
  match _socket rc with
  | Some so =>
      match sock_state so with
      | ConnectedState =>
          modify (set_socket (Some (mkSocket ClosingState (sock_keepalive so))));;
          effect SocketClosed
      | _ => mret tt
      end
  | None => mret tt
  end.

(** [RemoteConnector::error]; the log line reads the error string of the
    socket. *)
Definition error : M unit :=
  rc ← get;
  match _socket rc with
  | Some _ => tryClose
  | None => crash
  end.

(** [RemoteConnector::sslErrors]; [peerVerifyMode] is the mode of the ssl
    configuration of the defaults. *)
Definition sslErrors (peerVerifyMode : PeerVerifyMode) (errors : list QSslError) : M unit :=
  if shouldClose peerVerifyMode errors then tryClose else mret tt.

End Slots.

End ConnectorSlots.

(** * More connectors and proofs to try things on *)
Module MoreExamples.
Import RemoteConnector CryptoController Examples.

(** The connector in Idle with the proof of device 9 on hold. *)
Definition connector_asked : RC Crypto CryptoInfo :=
  set_activeProofs {[9 := mkCryptoInfo "sa" "sk" "ca" "ck"]} (connector_in Idle).

(** The same, without a current key to hand out. *)
Definition connector_asked_no_key : RC Crypto CryptoInfo :=
  set_cryptoController (mkCrypto 7 ∅ None 0) connector_asked.

(** Proofs for the export of nonce "n": one with a cmac that does not
    verify, one with a signature key that cannot be read. *)
Definition proof_bad_cmac : ProofMessage :=
  mkProof "n" 9 "phone" "sa" "sk" "ca" "ck" "s" "forged" None.

Definition proof_bad_key : ProofMessage :=
  mkProof "n" 9 "phone" "sa" "" "ca" "ck" "s" (toy_mac "k" ("n" +:+ nonce_of 42 +:+ "s")) None.

(** A connector that is not registered: its device id is null. *)
Definition connector_unregistered : RC Crypto CryptoInfo :=
  set_deviceId null_uuid (connector_in Idle).

End MoreExamples.

(** * The tables the server creates at start (databasecontroller.cpp) *)
Module DatabaseSetup.

(** A CREATE TABLE statement: the table it creates and the tables its
    REFERENCES clauses name. *)
Record CreateTable := mkCreateTable {
  table : string;
  references : list string }.

Definition createUsers : CreateTable := mkCreateTable "users" [].
Definition createDevices : CreateTable := mkCreateTable "devices" ["users"].
Definition createData : CreateTable := mkCreateTable "data" ["users"].
Definition createStates : CreateTable := mkCreateTable "states" ["data"; "devices"].

(** [db.tables()] *)
Definition Tables := list string.

(** Whether the driver carries a CREATE TABLE out, by the table's name. *)
Definition Driver := string -> bool.

Definition all_ok : Driver := fun _ => true.

(** [query.exec(CREATE TABLE ...)]: an error when the driver reports one, when
    the table is there already, or when a referenced table is missing. *)
Definition exec (drv : Driver) (q : CreateTable) (tables : Tables) : bool * Tables :=
  if negb (drv (table q)) then (false, tables)
  else if bool_decide (table q ∈ tables) then (false, tables)
  else if negb (forallb (fun t => bool_decide (t ∈ tables)) (references q))
  then (false, tables)
  else (true, tables ++ [table q]).

(** One block of [initDatabase]: the table is created when [db.tables()] does
    not list it; [None] is the early [return] after a failure. *)
Definition create_if_missing (drv : Driver) (q : CreateTable) (tables : Tables)
  : option Tables :=
  if negb (bool_decide (table q ∈ tables)) then
    match exec drv q tables with
    | (false, _) => None
    | (true, tables') => Some tables'
    end
  else Some tables.

(** [DatabaseController::initDatabase]: the tables of the database when it
    returns. *)
Definition initDatabase (drv : Driver) (tables : Tables) : Tables :=
  match create_if_missing drv createUsers tables with
  | None => tables
  | Some t1 =>
      match create_if_missing drv createDevices t1 with
      | None => t1
      | Some t2 =>
          match create_if_missing drv createData t2 with
          | None => t2
          | Some t3 =>
              match create_if_missing drv createStates t3 with
              | None => t3
              | Some t4 => t4
              end
          end
      end
  end.

(** The tables of the schema, in the order [initDatabase] looks at them. *)
Definition schema : list string := ["users"; "devices"; "data"; "states"].

End DatabaseSetup.

(** * Properties of the database controller *)
Module DatabaseFacts.
Import DatabaseController.

Lemma rows_rollback snapshot w : rows (rollback snapshot w) = rows snapshot.
Proof. reflexivity. Qed.

Lemma add_state_elem sts x r : r ∈ add_state sts x ↔ r ∈ sts ∨ r = x.
Proof.
  unfold add_state. case_bool_decide as Hx.
  - split; [by left | intros [?| ->]; done].
  - rewrite elem_of_app, list_elem_of_singleton. done.
Qed.

Lemma fold_add_state_elem sel : ∀ sts r,
  r ∈ fold_left add_state sel sts ↔ r ∈ sts ∨ r ∈ sel.
Proof.
  induction sel as [|x sel IH]; intros sts r; simpl.
  - split; [by left | intros [?|H]; [done | by apply not_elem_of_nil in H]].
  - rewrite IH, add_state_elem, elem_of_cons. tauto.
Qed.

Lemma add_state_NoDup sts x : NoDup sts → NoDup (add_state sts x).
Proof.
  intros Hnd. unfold add_state. case_bool_decide as Hx; [done|].
  apply NoDup_app. split_and!; [done | | apply NoDup_singleton].
  intros y Hy ->%list_elem_of_singleton. done.
Qed.

Lemma fold_add_state_NoDup sel : ∀ sts,
  NoDup sts → NoDup (fold_left add_state sel sts).
Proof.
  induction sel as [|x sel IH]; intros sts Hnd; simpl; [done|].
  apply IH, add_state_NoDup, Hnd.
Qed.

Lemma fold_add_state_present sel : ∀ sts,
  (∀ r, r ∈ sel → r ∈ sts) → fold_left add_state sel sts = sts.
Proof.
  induction sel as [|x sel IH]; intros sts Hin; simpl; [done|].
  assert (add_state sts x = sts) as ->.
  { unfold add_state. rewrite bool_decide_eq_true_2; [done|]. apply Hin. left. }
  apply IH. intros r Hr. apply Hin. by right.
Qed.

Lemma NoDup_count_one (l : list StateRow) x :
  NoDup l → x ∈ l → count_occ StateRow_eq_dec l x = 1%nat.
Proof.
  intros Hnd Hx. apply list_elem_of_In in Hx. apply NoDup_ListNoDup in Hnd.
  exact (proj1 (NoDup_count_occ' StateRow_eq_dec l) Hnd x Hx).
Qed.

Lemma select_peers_elem index userId deviceId db r :
  r ∈ select_peers index userId deviceId db ↔
  ∃ d, d ∈ devices db ∧ is_peer userId deviceId d ∧ r = mkState index (dev_id d).
Proof.
  unfold select_peers, is_peer. rewrite list_elem_of_fmap. split.
  - intros (d & -> & Hd). apply list_elem_of_filter in Hd as [Hp Hd].
    apply andb_true_iff in Hp as [Hu Hn]. apply negb_true_iff in Hn.
    exists d. split_and!; [done | lia | lia | done].
  - intros (d & Hd & [Hu Hn] & ->). exists d. split; [done|].
    apply list_elem_of_filter. split; [|done].
    apply andb_true_iff. split; [lia|]. apply negb_true_iff. lia.
Qed.

Lemma insert_states_true index userId deviceId w db' :
  insert_states index userId deviceId w = (true, db') →
  users db' = users w ∧ devices db' = devices w ∧ data db' = data w ∧
  states db' = fold_left add_state (select_peers index userId deviceId w) (states w).
Proof.
  unfold insert_states. destruct (_ && _); [done|]. intros [= <-]. done.
Qed.

Lemma save_states_true_inv drv userId deviceId index snapshot w db' :
  save_states drv userId deviceId index snapshot w = (true, db') →
  drv UpdateStateQuery = true ∧ drv Commit = true ∧
  insert_states index userId deviceId w = (true, db').
Proof.
  unfold save_states, exec. destruct (drv UpdateStateQuery); simpl; [|done].
  destruct (insert_states index userId deviceId w) as [[] w1]; [|done].
  destruct (drv Commit); [|done]. by intros [= <-].
Qed.

(** A successful [save] took one of two ways: it found the row and updated
    it, or found none and inserted one; then it wrote the peers' states. *)
Lemma save_true_inv drv userId deviceId type key object db db' :
  save drv userId deviceId type key object db = (true, db') →
  ∃ index w,
    ((∃ rest, select_index userId type key db = index :: rest ∧
              w = update_data (jsonToString object) index db)
     ∨ (select_index userId type key db = [] ∧
        insert_data userId type key (jsonToString object) db = (Some index, w)))
    ∧ insert_states index userId deviceId w = (true, db').
Proof.
  unfold save, exec, exec_returning. destruct (drv Transaction); simpl; [|done].
  destruct (drv GetIdQuery); simpl; [|done].
  destruct (select_index userId type key db) as [|index rest] eqn:Hsel.
  - destruct (drv InsertQuery); simpl; [|done].
    destruct (insert_data userId type key (jsonToString object) db)
      as [[index|] w1] eqn:Hins; [|done].
    intros (_ & _ & H)%save_states_true_inv. exists index, w1. split; [|done].
    by right.
  - destruct (drv UpdateQuery); simpl; [|done].
    intros (_ & _ & H)%save_states_true_inv.
    exists index, (update_data (jsonToString object) index db). split; [|done].
    left. by exists rest.
Qed.

Lemma insert_data_Some userId type key json db index w :
  insert_data userId type key json db = (Some index, w) →
  users w = users db ∧ devices w = devices db ∧ states w = states db ∧
  data w = data db ++ [mkData index userId type key json] ∧
  (∀ r, r ∈ data db → dat_index r ≠ index).
Proof.
  unfold insert_data. destruct (negb _); [done|].
  destruct (data_conflict _ _ _ _ _) eqn:Hc; [done|]. intros [= <- <-]. simpl.
  split_and!; try done. intros r Hr Heq.
  apply not_true_iff_false in Hc. apply Hc. unfold data_conflict.
  apply existsb_exists. exists r. split; [by apply list_elem_of_In|].
  apply orb_true_iff. left. lia.
Qed.

Lemma data_matches_refl index userId type key json :
  data_matches userId type key (mkData index userId type key json) = true.
Proof.
  unfold data_matches. simpl. rewrite Z.eqb_refl, !bool_decide_eq_true_2; done.
Qed.

Lemma select_index_update userId type key json index db :
  select_index userId type key (update_data json index db) =
  select_index userId type key db.
Proof.
  unfold select_index. simpl. induction (data db) as [|r l IH]; [done|].
  rewrite fmap_cons, !filter_cons.
  assert (data_matches userId type key
            (if dat_index r =? index
             then mkData (dat_index r) (dat_userid r) (dat_type r) (dat_key r) json
             else r) = data_matches userId type key r) as Hm
    by (destruct (dat_index r =? index); done).
  rewrite Hm. destruct (decide (data_matches userId type key r = true)).
  - rewrite !fmap_cons, IH. f_equal. by destruct (dat_index r =? index).
  - apply IH.
Qed.

Lemma select_index_elem userId type key db index :
  index ∈ select_index userId type key db →
  ∃ r, r ∈ data db ∧ dat_index r = index ∧ dat_userid r = userId ∧
       dat_type r = type ∧ dat_key r = key.
Proof.
  unfold select_index. intros (r & -> & Hr)%list_elem_of_fmap.
  apply list_elem_of_filter in Hr as [Hm Hr]. exists r.
  unfold data_matches in Hm. apply andb_true_iff in Hm as [Hm Hk].
  apply andb_true_iff in Hm as [Hu Ht].
  apply bool_decide_eq_true in Hk, Ht. split_and!; try done. lia.
Qed.

Lemma select_peers_devices index userId deviceId w db :
  devices w = devices db →
  select_peers index userId deviceId w = select_peers index userId deviceId db.
Proof. unfold select_peers. by intros ->. Qed.

Lemma update_data_same json index db :
  (∀ r, r ∈ data db → dat_index r = index → dat_data r = json) →
  update_data json index db = db.
Proof.
  intros Hsame. unfold update_data. destruct db as [us ds da sts s1 s2]; simpl in *.
  f_equal. induction da as [|r l IH]; [done|]. rewrite fmap_cons. f_equal.
  - destruct (dat_index r =? index) eqn:Hi; [|done].
    rewrite <- (Hsame r); [by destruct r | by left | lia].
  - apply IH. intros r' Hr'. apply Hsame. by right.
Qed.

Lemma select_index_data userId type key w db :
  data w = data db →
  select_index userId type key w = select_index userId type key db.
Proof. unfold select_index. by intros ->. Qed.

Lemma select_index_insert userId type key json index db w :
  select_index userId type key db = [] →
  data w = data db ++ [mkData index userId type key json] →
  select_index userId type key w = [index].
Proof.
  unfold select_index. intros Hsel ->. rewrite filter_app, fmap_app, Hsel. simpl.
  rewrite filter_cons, decide_True by apply data_matches_refl. done.
Qed.

(** What a successful [save] leaves behind. *)
Lemma save_true_result drv userId deviceId type key object db db' :
  save drv userId deviceId type key object db = (true, db') →
  ∃ index,
    data_index_of userId type key db' = Some index ∧
    mkData index userId type key (jsonToString object) ∈ data db' ∧
    (∀ r, r ∈ data db' → dat_index r = index → dat_data r = jsonToString object) ∧
    users db' = users db ∧ devices db' = devices db ∧
    states db' = fold_left add_state (select_peers index userId deviceId db) (states db).
Proof.
  intros (index & w & Hway & Hst)%save_true_inv. exists index.
  apply insert_states_true in Hst as (Hu & Hd & Hda & Hs).
  unfold data_index_of. rewrite (select_index_data _ _ _ _ _ Hda), Hu, Hd, Hda, Hs.
  destruct Hway as [(rest & Hsel & ->) | (Hsel & Hins)].
  - rewrite select_index_update, Hsel. split_and!; try done.
    + destruct (select_index_elem userId type key db index) as (r & Hr & <- & <- & <- & <-).
      { rewrite Hsel. by left. }
      simpl. apply list_elem_of_fmap. exists r. split; [|done].
      by rewrite Z.eqb_refl.
    + simpl. intros r (r0 & -> & Hr0)%list_elem_of_fmap.
      destruct (dat_index r0 =? index) eqn:Hi; [done|]. simpl. lia.
  - apply insert_data_Some in Hins as (Hu' & Hd' & Hs' & Hda' & Hfresh).
    rewrite (select_index_insert _ _ _ _ _ _ _ Hsel Hda').
    rewrite Hu', Hd', Hs', Hda', (select_peers_devices _ _ _ _ _ Hd').
    split_and!; try done.
    + apply elem_of_app. right. by apply list_elem_of_singleton.
    + intros r [Hr | ->%list_elem_of_singleton]%elem_of_app Hi; [|done].
      by apply Hfresh in Hr.
Qed.

Lemma count_occ_add_state sts x r :
  r ≠ x → count_occ StateRow_eq_dec (add_state sts x) r = count_occ StateRow_eq_dec sts r.
Proof.
  intros Hne. unfold add_state. case_bool_decide; [done|].
  rewrite count_occ_app. simpl. destruct (StateRow_eq_dec x r); [congruence | lia].
Qed.

Lemma count_occ_fold_add_state sel : ∀ sts r,
  r ∉ sel →
  count_occ StateRow_eq_dec (fold_left add_state sel sts) r =
  count_occ StateRow_eq_dec sts r.
Proof.
  induction sel as [|x sel IH]; intros sts r Hr; simpl; [done|].
  apply not_elem_of_cons in Hr as [Hne Hr].
  rewrite IH by done. by apply count_occ_add_state.
Qed.

Lemma NoDup_fmap_same {A B} (f : A → B) (l : list A) x y :
  NoDup (f <$> l) → x ∈ l → y ∈ l → f x = f y → x = y.
Proof.
  induction l as [|a l IH]; intros Hnd Hx Hy Hf; [by apply elem_of_nil in Hx|].
  rewrite fmap_cons in Hnd. apply NoDup_cons in Hnd as [Ha Hnd].
  apply elem_of_cons in Hx as [->|Hx]; apply elem_of_cons in Hy as [->|Hy].
  - done.
  - exfalso. apply Ha. rewrite Hf. apply list_elem_of_fmap. by exists y.
  - exfalso. apply Ha. rewrite <- Hf. apply list_elem_of_fmap. by exists x.
  - by apply IH.
Qed.

(** Replaying a [save] on the database a successful one left: no row of any
    table changes, whether the replay succeeds or not. *)
Lemma save_replay drv drv2 userId deviceId type key object db db' b db'' :
  save drv userId deviceId type key object db = (true, db') →
  save drv2 userId deviceId type key object db' = (b, db'') →
  rows db'' = rows db'.
Proof.
  intros (index & Hidx & Hrow & Hjson & Hu & Hd & Hs)%save_true_result.
  unfold data_index_of in Hidx. unfold save, exec.
  destruct (drv2 Transaction); simpl; [|by intros [= <- <-]].
  destruct (drv2 GetIdQuery); simpl; [|by intros [= <- <-]].
  destruct (select_index userId type key db') as [|i rest]; [done|].
  injection Hidx as ->.
  destruct (drv2 UpdateQuery); simpl; [|by intros [= <- <-]].
  rewrite (update_data_same _ _ _ Hjson). unfold save_states, exec.
  destruct (drv2 UpdateStateQuery); simpl; [|by intros [= <- <-]].
  destruct (insert_states index userId deviceId db') as [ok w1] eqn:Hins.
  assert (rows w1 = rows db') as Hrows.
  { destruct ok.
    - apply insert_states_true in Hins as (Hu1 & Hd1 & Hda1 & Hs1).
      unfold rows. rewrite Hu1, Hd1, Hda1, Hs1. do 3 f_equal.
      apply fold_add_state_present. intros r Hr. rewrite Hs.
      apply fold_add_state_elem. right.
      by rewrite <- (select_peers_devices _ _ _ _ _ Hd).
    - unfold insert_states in Hins.
      destruct (bool_decide _ && _); [by injection Hins as <- | done]. }
  destruct ok; [destruct (drv2 Commit)|]; by intros [= <- <-].
Qed.

Lemma db_two_devices_consistent : consistent db_two_devices.
Proof. split; apply (bool_decide_unpack _); vm_compute; exact I. Qed.

Lemma writer_not_selected index userId deviceId db d :
  NoDup (dev_id <$> devices db) →
  d ∈ devices db → is_writer userId deviceId d →
  mkState index (dev_id d) ∉ select_peers index userId deviceId db.
Proof.
  intros Hnd Hd [_ Hw] (p & Hp & [_ Hne] & Heq)%select_peers_elem.
  injection Heq as Heq.
  assert (d = p) as -> by (eapply (NoDup_fmap_same dev_id); eauto).
  done.
Qed.

(** C1, as amended: after a successful [save] the saved data row has exactly
    one states row for every device row of the user whose deviceid is not the
    writer's; the save adds no states row for the writer (its count is what
    it was before); and replaying the same save leaves the states rows, and
    the data rows, as they are. *)
Theorem save_states_of_peers drv userId deviceId type key object db db' :
  consistent db →
  save drv userId deviceId type key object db = (true, db') →
  ∃ index,
    data_index_of userId type key db' = Some index ∧
    mkData index userId type key (jsonToString object) ∈ data db' ∧
    devices db' = devices db ∧
    (∀ d, d ∈ devices db' → is_peer userId deviceId d →
          pending index (dev_id d) db' = 1%nat) ∧
    (∀ d, d ∈ devices db' → is_writer userId deviceId d →
          pending index (dev_id d) db' = pending index (dev_id d) db) ∧
    (∀ drv2 b db'',
          save drv2 userId deviceId type key object db' = (b, db'') →
          states db'' = states db' ∧ data db'' = data db').
Proof.
  intros Hc Hsave.
  destruct (save_true_result _ _ _ _ _ _ _ _ Hsave)
    as (index & Hidx & Hrow & _ & _ & Hd & Hs).
  exists index. split_and!; try done.
  - intros d Hdev Hpeer. unfold pending. rewrite Hs. apply NoDup_count_one.
    + apply fold_add_state_NoDup, Hc.
    + apply fold_add_state_elem. right. apply select_peers_elem.
      exists d. by rewrite <- Hd.
  - intros d Hdev Hw. unfold pending. rewrite Hs.
    apply count_occ_fold_add_state, writer_not_selected; [apply Hc | | done].
    by rewrite <- Hd.
  - intros drv2 b db'' Hreplay.
    pose proof (save_replay _ _ _ _ _ _ _ _ _ _ _ Hsave Hreplay) as Hrows.
    unfold rows in Hrows. by injection Hrows as _ _ -> ->.
Qed.

Lemma save_states_of_peers_witness :
  ∃ index,
    data_index_of 7 "t" "k2" (save all_ok 7 10 "t" "k2" "{x}" db_two_devices).2 = Some index ∧
    pending index 2 (save all_ok 7 10 "t" "k2" "{x}" db_two_devices).2 = 1%nat.
Proof.
  destruct (save_states_of_peers all_ok 7 10 "t" "k2" "{x}" db_two_devices
              (save all_ok 7 10 "t" "k2" "{x}" db_two_devices).2
              db_two_devices_consistent eq_refl)
    as (index & Hidx & _ & _ & Hpeer & _).
  exists index. split; [exact Hidx|].
  apply (Hpeer (mkDevice 2 20 7)).
  - apply (bool_decide_unpack _). vm_compute. exact I.
  - split; [reflexivity | discriminate].
Defined.

(** C1, as stated, fails: device 10 saves ("t", "k") while the states row
    that device 20's earlier save left for it is still there, and that row
    is there after the save. *)
Lemma save_writer_state_counterexample :
  ¬ no_state_for_writer all_ok 7 10 "t" "k" "{x}" db_two_devices.
Proof.
  intros H.
  specialize (H (save all_ok 7 10 "t" "k" "{x}" db_two_devices).2 1 (mkDevice 1 10 7)
                eq_refl eq_refl).
  assert (pending 1 1 (save all_ok 7 10 "t" "k" "{x}" db_two_devices).2 = 0%nat) as H0.
  { apply H; [apply (bool_decide_unpack _); vm_compute; exact I | by split]. }
  vm_compute in H0. discriminate.
Qed.

(** [createIdentity], case by case: either every step succeeds, the new
    identity is returned and the rows are those of the working copy, or some
    step fails, the null uuid is returned and the rows are those of before. *)
Lemma createIdentity_cases drv identity deviceId db :
  (drv Transaction && createIdentity_queries drv identity deviceId db && drv Commit = true ∧
   (createIdentity drv identity deviceId db).1 = identity ∧
   users (createIdentity drv identity deviceId db).2 = users db ++ [identity] ∧
   devices (createIdentity drv identity deviceId db).2 =
     devices db ++ [mkDevice (devices_id_seq db) deviceId identity]) ∨
  (drv Transaction && createIdentity_queries drv identity deviceId db && drv Commit = false ∧
   (createIdentity drv identity deviceId db).1 = null_uuid ∧
   rows (createIdentity drv identity deviceId db).2 = rows db).
Proof.
  unfold createIdentity, createIdentity_queries, exec.
  destruct (drv Transaction); simpl; [|by right].
  destruct (drv CreateIdentityQuery); simpl; [|by right].
  unfold insert_user. destruct (user_exists identity db); simpl; [by right|].
  destruct (drv CreateDeviceQuery); simpl; [|by right].
  unfold insert_device. destruct (negb _); simpl; [by right|].
  destruct (device_conflict _ _ _ _); simpl; [by right|].
  destruct (drv Commit); simpl; [by left | by right].
Qed.

(** [save], case by case, in the same way. *)
Lemma save_cases drv userId deviceId type key object db :
  (drv Transaction && save_queries drv userId deviceId type key object db && drv Commit = true ∧
   (save drv userId deviceId type key object db).1 = true) ∨
  (drv Transaction && save_queries drv userId deviceId type key object db && drv Commit = false ∧
   (save drv userId deviceId type key object db).1 = false ∧
   rows (save drv userId deviceId type key object db).2 = rows db).
Proof.
  unfold save, save_queries, save_states, exec, exec_returning.
  destruct (drv Transaction); simpl; [|by right].
  destruct (drv GetIdQuery); simpl; [|by right].
  destruct (select_index userId type key db) as [|index rest].
  - destruct (drv InsertQuery); simpl; [|by right].
    destruct (insert_data userId type key (jsonToString object) db) as [[index|] w1];
      [|by right].
    destruct (drv UpdateStateQuery); simpl; [|by right].
    destruct (insert_states index userId deviceId w1) as [[] w2]; simpl; [|by right].
    destruct (drv Commit); simpl; [by left | by right].
  - destruct (drv UpdateQuery); simpl; [|by right].
    destruct (drv UpdateStateQuery); simpl; [|by right].
    destruct (insert_states _ _ _ _) as [[] w2]; simpl; [|by right].
    destruct (drv Commit); simpl; [by left | by right].
Qed.

(** C7: [createIdentity] and [save] are atomic.  If a query of the
    transaction fails, the rows of all four tables are those of before and
    the operation reports failure (the null uuid, [false]); the same holds
    when the transaction cannot be begun or committed; and the operation
    reports success, or leaves changed rows, only when every step succeeded. *)
Theorem transactions_atomic drv identity userId deviceId type key object db :
  (createIdentity_queries drv identity deviceId db = false →
     (createIdentity drv identity deviceId db).1 = null_uuid ∧
     rows (createIdentity drv identity deviceId db).2 = rows db) ∧
  (save_queries drv userId deviceId type key object db = false →
     (save drv userId deviceId type key object db).1 = false ∧
     rows (save drv userId deviceId type key object db).2 = rows db) ∧
  (drv Transaction = false ∨ drv Commit = false →
     ((createIdentity drv identity deviceId db).1 = null_uuid ∧
      rows (createIdentity drv identity deviceId db).2 = rows db) ∧
     ((save drv userId deviceId type key object db).1 = false ∧
      rows (save drv userId deviceId type key object db).2 = rows db)) ∧
  ((createIdentity drv identity deviceId db).1 ≠ null_uuid ∨
   rows (createIdentity drv identity deviceId db).2 ≠ rows db →
     drv Transaction = true ∧ createIdentity_queries drv identity deviceId db = true ∧
     drv Commit = true ∧ (createIdentity drv identity deviceId db).1 = identity) ∧
  ((save drv userId deviceId type key object db).1 = true ∨
   rows (save drv userId deviceId type key object db).2 ≠ rows db →
     drv Transaction = true ∧ save_queries drv userId deviceId type key object db = true ∧
     drv Commit = true ∧ (save drv userId deviceId type key object db).1 = true).
Proof.
  pose proof (createIdentity_cases drv identity deviceId db) as Hc.
  pose proof (save_cases drv userId deviceId type key object db) as Hs.
  split_and!.
  - intros Hq. rewrite Hq, andb_false_r in Hc. simpl in Hc.
    destruct Hc as [[? _] | (_ & ? & ?)]; done.
  - intros Hq. rewrite Hq, andb_false_r in Hs. simpl in Hs.
    destruct Hs as [[? _] | (_ & ? & ?)]; done.
  - intros Hf. split.
    + destruct Hc as [[Ht _] | (_ & ? & ?)]; [|done].
      apply andb_true_iff in Ht as [[? ?]%andb_true_iff ?]. destruct Hf; congruence.
    + destruct Hs as [[Ht _] | (_ & ? & ?)]; [|done].
      apply andb_true_iff in Ht as [[? ?]%andb_true_iff ?]. destruct Hf; congruence.
  - intros Hch. destruct Hc as [(Ht & Hr & _) | (_ & Hr & Hrows)].
    + apply andb_true_iff in Ht as [[? ?]%andb_true_iff ?]. done.
    + destruct Hch; congruence.
  - intros Hch. destruct Hs as [(Ht & Hr) | (_ & Hr & Hrows)].
    + apply andb_true_iff in Ht as [[? ?]%andb_true_iff ?]. done.
    + destruct Hch; congruence.
Qed.

Lemma transactions_atomic_witness :
  ((createIdentity (fails_at CreateDeviceQuery) 9 30 db_two_devices).1 = null_uuid ∧
   rows (createIdentity (fails_at CreateDeviceQuery) 9 30 db_two_devices).2
     = rows db_two_devices) ∧
  ((save (fails_at UpdateStateQuery) 7 10 "t" "k2" "{x}" db_two_devices).1 = false ∧
   rows (save (fails_at UpdateStateQuery) 7 10 "t" "k2" "{x}" db_two_devices).2
     = rows db_two_devices).
Proof.
  split.
  - apply (proj1 (transactions_atomic (fails_at CreateDeviceQuery)
                    9 7 30 "t" "k2" "{x}" db_two_devices)).
    vm_compute. reflexivity.
  - apply (proj1 (proj2 (transactions_atomic (fails_at UpdateStateQuery)
                    9 7 10 "t" "k2" "{x}" db_two_devices))).
    vm_compute. reflexivity.
Defined.

Lemma device_conflict_registered deviceId userId db :
  consistent db →
  device_conflict (devices_id_seq db) deviceId userId db = true ↔
  device_registered deviceId userId db.
Proof.
  intros Hc. unfold device_conflict, device_registered. rewrite existsb_exists.
  pose proof (devices_seq db Hc) as Hseq. rewrite Forall_forall in Hseq.
  split.
  - intros (d & Hd%list_elem_of_In & Hor). exists d. split; [done|].
    apply orb_true_iff in Hor as [Hid | Hu].
    + specialize (Hseq d Hd). lia.
    + apply andb_true_iff in Hu. lia.
  - intros (d & Hd & <- & <-). exists d. split; [by apply list_elem_of_In|].
    rewrite !Z.eqb_refl. apply orb_true_r.
Qed.

(** C4: [identify] lets members in only.  Without a users row of that
    identity it returns [false] and the database is as before.  With one, and
    both queries executed, it returns [true] and has inserted the device row
    unless the device already had one.  If a query is not executed it
    returns [false] and inserts nothing.  So a device row that [identify]
    adds is the row of the identified device under an existing user, and is
    added only when [identify] returns [true]. *)
Theorem identify_members_only drv identity deviceId db :
  consistent db →
  (identity ∉ users db → identify drv identity deviceId db = (false, db)) ∧
  (identity ∈ users db → drv IdentifyQuery = true → drv CreateDeviceQuery = true →
     (identify drv identity deviceId db).1 = true ∧
     (device_registered deviceId identity db →
        devices (identify drv identity deviceId db).2 = devices db) ∧
     (¬ device_registered deviceId identity db →
        devices (identify drv identity deviceId db).2 =
          devices db ++ [mkDevice (devices_id_seq db) deviceId identity])) ∧
  (drv IdentifyQuery = false ∨ drv CreateDeviceQuery = false →
     (identify drv identity deviceId db).1 = false ∧
     (identify drv identity deviceId db).2 = db) ∧
  (∀ d, d ∈ devices (identify drv identity deviceId db).2 → d ∉ devices db →
     (identify drv identity deviceId db).1 = true ∧ identity ∈ users db ∧
     dev_deviceid d = deviceId ∧ dev_userid d = identity).
Proof.
  intros Hc. pose proof (device_conflict_registered deviceId identity db Hc) as Hconf.
  unfold identify, exec, insert_device_on_conflict_do_nothing, user_exists.
  split_and!.
  - intros Hu. rewrite bool_decide_eq_false_2 by done. by destruct (drv IdentifyQuery).
  - intros Hu -> ->. rewrite bool_decide_eq_true_2 by done. simpl.
    destruct (device_conflict _ _ _ _) eqn:Hdc; simpl.
    + split_and!; [done | done | intros Hn; destruct Hn; by apply Hconf].
    + split_and!; [done | | done]. by intros Hr%Hconf.
  - intros Hf. destruct (drv IdentifyQuery); simpl; [|done].
    destruct Hf as [Hf|Hf]; [done|]. rewrite Hf. by case_bool_decide.
  - intros d. destruct (drv IdentifyQuery); simpl; [|done].
    case_bool_decide as Hu; simpl; [|done].
    destruct (drv CreateDeviceQuery); simpl; [|done].
    destruct (device_conflict _ _ _ _); simpl; [done|].
    intros [Hd | ->%list_elem_of_singleton]%elem_of_app Hnew; done.
Qed.

Lemma identify_members_only_witness :
  (identify all_ok 7 30 db_two_devices).1 = true ∧
  devices (identify all_ok 7 30 db_two_devices).2 =
    devices db_two_devices ++ [mkDevice 3 30 7].
Proof.
  destruct (identify_members_only all_ok 7 30 db_two_devices db_two_devices_consistent)
    as (_ & Hmember & _).
  destruct Hmember as (Htrue & _ & Hnew); [| reflexivity | reflexivity |].
  - apply (bool_decide_unpack _). vm_compute. exact I.
  - split; [exact Htrue|]. apply Hnew.
    intros (d & Hd & Hdev & _). vm_compute in Hd.
    apply elem_of_cons in Hd as [-> | Hd]; [discriminate|].
    apply elem_of_cons in Hd as [-> | Hd]; [discriminate|].
    by apply elem_of_nil in Hd.
Defined.

End DatabaseFacts.

(** * Properties of the remote connector *)
Module ConnectorFacts.
Import RemoteConnector.

(** The plumbing of the monad, unfolded. *)
Ltac mstep :=
  cbv beta iota zeta delta
    [mbind M_bind bind mret M_ret ret get modify lift throw crash
     effect emit catch_Exception catch_all].

Ltac msimpl := repeat (mstep; cbn).

Ltac msimpl_in H :=
  repeat (cbv beta iota zeta delta
            [mbind M_bind bind mret M_ret ret get modify lift throw crash
             effect emit catch_Exception catch_all] in H;
          cbn in H).

Section Facts.
Context {Crypto CryptoInfo : Type} `{!Externals Crypto CryptoInfo}.

Abbreviation RC := (RC Crypto CryptoInfo).

(** C8: the keepalive is a two-tick protocol.  On a tick of the keepalive
    timer with [_awaitingPing] clear (and a socket to write to) the connector
    sends a Ping frame and sets the flag; a Ping frame that arrives clears
    the flag and restarts the timer; on a tick with the flag set the
    connector clears it and calls [reconnect]. *)
Theorem keepalive_two_ticks (rc : RC) :
  (_awaitingPing rc = false → _socket rc ≠ None →
     ping rc = Some (Returns tt,
                     set_effects (effects rc ++ [Sent PingMessage])
                                 (set_awaitingPing true rc))) ∧
  binaryMessageReceived FPing rc =
    Some (Returns tt,
          set_effects (effects rc ++ [PingTimerStarted])
            (set_pingTimer (mkTimer true (timer_interval (_pingTimer rc)))
               (set_awaitingPing false rc))) ∧
  (_awaitingPing rc = true →
     ping rc = reconnect (set_awaitingPing false rc)).
Proof.
  split_and!.
  - intros Hflag Hsock. unfold ping, sendBinaryMessage. msimpl. rewrite Hflag.
    destruct (_socket rc); [reflexivity | done].
  - reflexivity.
  - intros Hflag. unfold ping. msimpl. rewrite Hflag. reflexivity.
Qed.

(** C3, as amended: when the armed operation timer expires,
    [specialOperationTimeout] is emitted and its slot calls
    [triggerError(true)]: the event submitted to the machine is basicError,
    the recoverable one, which takes any state of Active to Closing with the
    retry to follow. *)
Theorem operation_timeout_is_basic_error (rc : RC) (minutes : Z) :
  _opTimer rc = Some minutes →
  onSpecialOperationTimeout rc = triggerError true rc ∧
  (∃ rc', operationTimeout rc = Some (Returns tt, rc') ∧
          _opTimer rc' = None ∧
          effects rc' = effects rc ++ [Emitted specialOperationTimeout] ∧
          events (_stateMachine rc') = events (_stateMachine rc) ++ [EvBasicError] ∧
          state (_stateMachine rc') = state (_stateMachine rc)) ∧
  (∀ m, in_Active (state m) = true → transition m EvBasicError = Some (Closing, true)) ∧
  (∀ m, state m = Closing → isClosing m = false → recover m = true →
        transition m EvDisconnected = Some (Retry, true)).
Proof.
  intros Harmed. split_and!.
  - reflexivity.
  - eexists. unfold operationTimeout, onSpecialOperationTimeout, triggerError, submitEvent.
    msimpl. rewrite Harmed. msimpl. split; [reflexivity|]. done.
  - intros m Hact. unfold transition. by destruct (state m).
  - intros m Hs Hc Hr. unfold transition. by rewrite Hs, Hc, Hr.
Qed.

Lemma scheduleRetry_step (rc : RC) :
  0 ≤ _retryIndex rc ≤ 5 →
  ∃ rc', scheduleRetry rc = Some (Returns tt, rc') ∧
    effects rc' =
      effects rc ++ [SingleShot (backoff (Z.to_nat (_retryIndex rc))) RetryTimer] ∧
    _retryIndex rc' = Z.min (_retryIndex rc + 1) 5.
Proof.
  intros Hi.
  assert (_retryIndex rc = 0 ∨ _retryIndex rc = 1 ∨ _retryIndex rc = 2 ∨
          _retryIndex rc = 3 ∨ _retryIndex rc = 4 ∨ _retryIndex rc = 5) as Hcases by lia.
  destruct rc; simpl in *.
  destruct Hcases as [-> | [-> | [-> | [-> | [-> | ->]]]]];
    eexists; (split; [vm_compute; reflexivity|]); split; reflexivity.
Qed.

Lemma backoff_capped (k : nat) : (5 ≤ k)%nat → backoff k = 300.
Proof.
  intros Hk. unfold backoff.
  do 5 (destruct k as [|k]; [lia|]). by destruct k.
Qed.

Lemma backoff_next (i : Z) (k : nat) :
  0 ≤ i ≤ 5 →
  backoff (Z.to_nat (Z.min (i + 1) 5) + k) = backoff (Z.to_nat i + S k).
Proof.
  intros Hi. destruct (decide (i = 5)) as [-> | Hne].
  - rewrite !backoff_capped; [done | lia | lia].
  - f_equal. lia.
Qed.

Lemma retries_from (n : nat) : ∀ rc : RC,
  0 ≤ _retryIndex rc ≤ 5 →
  ∃ rc', retries n rc = Some (Returns tt, rc') ∧
    effects rc' =
      effects rc ++
      ((fun k => SingleShot (backoff (Z.to_nat (_retryIndex rc) + k)) RetryTimer)
         <$> seq 0 n) ∧
    _retryIndex rc' = Z.min (_retryIndex rc + Z.of_nat n) 5.
Proof.
  induction n as [|n IH]; intros rc Hi.
  - exists rc. split; [reflexivity|]. simpl. rewrite app_nil_r. split; [done | lia].
  - destruct (scheduleRetry_step rc Hi) as (rc1 & Hstep & Heff & Hidx).
    destruct (IH rc1) as (rc' & Hrest & Heff' & Hidx'); [lia|].
    exists rc'. split_and!.
    + cbn [retries]. mstep. rewrite Hstep. exact Hrest.
    + rewrite Heff', Heff, <- app_assoc. f_equal. cbn [seq fmap list_fmap app].
      rewrite Nat.add_0_r. f_equal. rewrite <- fmap_S_seq, <- list_fmap_compose.
      apply list_fmap_ext. intros _ k _. simpl. f_equal. rewrite Hidx.
      by apply backoff_next.
    + lia.
Qed.

(** ** Invariants of member functions *)

Lemma keeps_ret {A} (P : RC → Prop) (a : A) : keeps P (mret a).
Proof. intros rc o rc' HP [= <- <-]. done. Qed.

Lemma keeps_throw {A} (P : RC → Prop) e : keeps P (@throw _ _ A e).
Proof. intros rc o rc' HP [= <- <-]. done. Qed.

Lemma keeps_crash {A} (P : RC → Prop) : keeps P (@crash _ _ A).
Proof. intros rc o rc' HP [=]. Qed.

Lemma keeps_lift {A} (P : RC → Prop) (x : Outcome A) : keeps P (lift x).
Proof. intros rc o rc' HP [= <- <-]. done. Qed.

Lemma keeps_modify (P : RC → Prop) (f : RC → RC) : (∀ rc, P rc → P (f rc)) → keeps P (modify f).
Proof. intros Hf rc o rc' HP [= <- <-]. by apply Hf. Qed.

Lemma keeps_bind {A B} (P : RC → Prop) (m : M A) (f : A → M B) :
  keeps P m → (∀ a, keeps P (f a)) → keeps P (m ≫= f).
Proof.
  intros Hm Hf rc o rc' HP. unfold mbind, M_bind, bind.
  destruct (m rc) as [[[a|e] rc1]|] eqn:Hrun; [| |done].
  - intros Hrest. eapply Hf; [|exact Hrest]. eapply Hm; eauto.
  - intros [= <- <-]. eapply Hm; eauto.
Qed.

(** What [get] reads satisfies [P] too. *)
Lemma keeps_bind_get {B} (P : RC → Prop) (f : RC → M B) :
  (∀ rc0, P rc0 → keeps P (f rc0)) → keeps P (get ≫= f).
Proof. intros Hf rc o rc' HP. unfold mbind, M_bind, bind, get. by apply Hf. Qed.

Lemma keeps_catch_Exception {A} (P : RC → Prop) (m : M A) h :
  keeps P m → (∀ what, keeps P (h what)) → keeps P (catch_Exception m h).
Proof.
  intros Hm Hh rc o rc' HP. unfold catch_Exception.
  destruct (m rc) as [[[a|[what| |what]] rc1]|] eqn:Hrun; try done.
  - intros [= <- <-]. eapply Hm; eauto.
  - intros Hrest. eapply Hh; [|exact Hrest]. eapply Hm; eauto.
  - intros [= <- <-]. eapply Hm; eauto.
  - intros [= <- <-]. eapply Hm; eauto.
Qed.

Lemma keeps_catch_all {A} (P : RC → Prop) (m : M A) h :
  keeps P m → (∀ e, keeps P (h e)) → keeps P (catch_all m h).
Proof.
  intros Hm Hh rc o rc' HP. unfold catch_all.
  destruct (m rc) as [[[a|e] rc1]|] eqn:Hrun; try done.
  - intros [= <- <-]. eapply Hm; eauto.
  - intros Hrest. eapply Hh; [|exact Hrest]. eapply Hm; eauto.
Qed.

(** Breaks a goal [keeps P m] down along the structure of [m]; [leaf] is
    tried on what is left of the [modify] steps. *)
Ltac keeps_step leaf :=
  lazymatch goal with
  | |- keeps _ (mret _) => apply keeps_ret
  | |- keeps _ (throw _) => apply keeps_throw
  | |- keeps _ crash => apply keeps_crash
  | |- keeps _ (lift _) => apply keeps_lift
  | |- keeps _ (get ≫= _) => apply keeps_bind_get; intros ? ?
  | |- keeps _ (_ ≫= _) => apply keeps_bind; [| intros ?]
  | |- keeps _ (catch_Exception _ _) => apply keeps_catch_Exception; [| intros ?]
  | |- keeps _ (catch_all _ _) => apply keeps_catch_all; [| intros ?]
  | |- keeps _ (modify _) => apply keeps_modify; intros ? ?; leaf
  | |- keeps _ (if ?b then _ else _) => destruct b
  | |- keeps _ (match ?x with _ => _ end) => destruct x
  | |- keeps _ (let _ := _ in _) => cbv zeta
  end.

Ltac keeps_auto leaf := repeat (first [assumption | keeps_step leaf]).

Create HintDb connector.

#[local] Hint Unfold run_op binaryMessageReceived dispatch onEntry ping retryTimerFired
  proofTimerFired operationTimeout onSpecialOperationTimeout socket_connected
  socket_disconnected connected disconnected reconnect disconnect initKeyUpdate
  loginReply onProof onWelcome onAccount onMacUpdateAck onChangeAck onLastChanged
  onError triggerError checkIdle submitEvent sendMessage sendBinaryMessage
  sendKeyUpdate setValue remove storeConfig onEntryIdleState onExitActiveState
  clearCaches endOp beginSpecialOp doConnect doDisconnect checkCanSync loadIdentity
  scheduleRetry retry pingTimer_start pingTimer_stop emit effect exportAccount
  : connector.

Lemma welcome_keyUpdates_keeps (P : RC → Prop) updates :
  (∀ c rc, P rc → P (set_cryptoController c rc)) →
  ∀ b, keeps P (welcome_keyUpdates updates b).
Proof.
  intros Hset. induction updates as [|u rest IH]; intros b; cbn [welcome_keyUpdates].
  - apply keeps_ret.
  - keeps_auto ltac:(by apply Hset). apply IH.
Qed.

(** A nonce that is not in the export cache gets into it by [exportAccount]
    only. *)
Lemma exports_absent_kept (nonce : QByteArray) (op : Op) :
  is_export op = false →
  keeps (fun rc => _exportsCache rc !! nonce = None) (run_op op).
Proof.
  intros Hop. destruct op as [frame| | | | | | | | | | | |]; try discriminate Hop;
    [destruct frame|..]; repeat autounfold with connector;
    keeps_auto ltac:(first [ done | cbn; rewrite lookup_delete_None; by right ]).
  by apply welcome_keyUpdates_keeps.
Qed.

Lemma replies_snoc (l : list Effect) (e : Effect) :
  is_reply e = false → replies (l ++ [e]) = replies l.
Proof.
  intros He. unfold replies. rewrite filter_app, filter_cons, decide_False.
  - apply app_nil_r.
  - by rewrite He.
Qed.


Lemma after_all_keeps (P : RC → Prop) (ops : list Op) :
  Forall (fun op => keeps P (run_op op)) ops →
  ∀ rc rc', P rc → after_all ops rc = Some rc' → P rc'.
Proof.
  induction 1 as [|op ops Hop _ IH]; intros rc rc' HP; simpl.
  - by intros [= <-].
  - unfold after. destruct (run_op op rc) as [[o rc1]|] eqn:Hrun; [|done].
    apply IH. by apply (Hop rc o rc1).
Qed.

Lemma onEntryIdleState_resets (rc : RC) :
  _socket rc ≠ None → isIdle rc = true →
  ∃ rc', onEntryIdleState rc = Some (Returns tt, rc') ∧ _retryIndex rc' = 0 ∧
         _stateMachine rc' = _stateMachine rc.
Proof.
  intros Hsock Hidle. destruct rc; simpl in *. unfold isIdle, isActive in Hidle.
  simpl in Hidle.
  unfold onEntryIdleState, initKeyUpdate, sendMessage, sendBinaryMessage, isIdle, isActive.
  msimpl. destruct (hasKeyUpdate _); msimpl.
  - rewrite Hidle. msimpl. destruct _socket0; [|done]. msimpl.
    destruct _expectChanges0; msimpl; eexists; (split; [reflexivity|]); done.
  - destruct _expectChanges0; msimpl; eexists; (split; [reflexivity|]); done.
Qed.

(** ** What a run does to the retry index *)

Lemma retry_delays_snoc (l : list Effect) (e : Effect) :
  match e with SingleShot _ RetryTimer => False | _ => True end →
  retry_delays (l ++ [e]) = retry_delays l.
Proof.
  intros He. unfold retry_delays. rewrite omap_app.
  destruct e as [| |t [|dev]| | |]; simpl; by rewrite ?app_nil_r.
Qed.

(** The retry index and the retry timers started so far, as a pair. *)
Ltac retry_leaf :=
  cbv beta in *;
  match goal with H : _ ∧ _ |- _ => destruct H as [? ?] end;
  split; cbn; [assumption | rewrite ?retry_delays_snoc by exact I; assumption].

(** Every operation but a step of the machine leaves the retry index alone
    and starts no retry timer. *)
Lemma retry_kept (op : Op) (i : Z) (l : list Z) :
  op ≠ OpDispatch →
  keeps (fun r : RC => _retryIndex r = i ∧ retry_delays (effects r) = l) (run_op op).
Proof.
  intros Hop. destruct op as [frame| | | | | | | | | | | |]; try done;
    [destruct frame|..]; repeat autounfold with connector;
    keeps_auto ltac:(retry_leaf).
  apply welcome_keyUpdates_keeps. intros c r Hr. retry_leaf.
Qed.

(** So does the entry of every state but Retry and Idle. *)
Lemma retry_kept_on_entry (t : State) (i : Z) (l : list Z) :
  t ≠ Retry → t ≠ Idle →
  keeps (fun r : RC => _retryIndex r = i ∧ retry_delays (effects r) = l) (onEntry t).
Proof.
  intros Hr Hi. destruct t; try done; unfold onEntry;
    repeat autounfold with connector; keeps_auto ltac:(retry_leaf).
Qed.

(** A step of the machine that has a transition runs the entry callback of
    the target; what comes before it leaves the retry index alone. *)
Lemma dispatch_entry (rc : RC) (e : Event) (queue : list Event) (t : State) (rec : bool) :
  events (_stateMachine rc) = e :: queue →
  transition (_stateMachine rc) e = Some (t, rec) →
  ∃ r1 : RC, dispatch rc = onEntry t r1 ∧ _retryIndex r1 = _retryIndex rc ∧
             retry_delays (effects r1) = retry_delays (effects rc).
Proof.
  intros Hev Htr.
  destruct rc as [c so pt ap [s cl rv ev] ri ec did dc exc acp st ot eff].
  simpl in *. subst ev. unfold dispatch. msimpl. rewrite Htr. msimpl.
  destruct (in_Active s && negb (in_Active t)); msimpl.
  - unfold onExitActiveState, clearCaches, endOp. msimpl.
    eexists. split; [reflexivity|]. split; [done|]. cbn.
    by rewrite retry_delays_snoc.
  - eexists. split; [reflexivity|]. done.
Qed.

(** One operation of a run that does not enter Idle: the entry of Retry
    starts the retry timer with the delay of the index and moves the index
    on; everything else leaves both alone. *)
Lemma retry_frame_step (op : Op) (rc rc1 : RC) :
  0 ≤ _retryIndex rc ≤ 5 →
  after op rc = Some rc1 →
  enters Idle op rc = false →
  retry_delays (effects rc1) =
    retry_delays (effects rc) ++
    (if enters Retry op rc then [backoff (Z.to_nat (_retryIndex rc))] else []) ∧
  _retryIndex rc1 =
    (if enters Retry op rc then Z.min (_retryIndex rc + 1) 5 else _retryIndex rc).
Proof.
  intros Hi Hrun Hidle.
  assert (∀ m : M unit,
            keeps (fun r : RC => _retryIndex r = _retryIndex rc ∧
                                 retry_delays (effects r) = retry_delays (effects rc)) m →
            ∀ (r0 : RC) o, _retryIndex r0 = _retryIndex rc →
              retry_delays (effects r0) = retry_delays (effects rc) →
              m r0 = Some (o, rc1) →
              retry_delays (effects rc1) = retry_delays (effects rc) ++ [] ∧
              _retryIndex rc1 = _retryIndex rc) as Hkept.
  { intros m Hm r0 o H1 H2 Hr. rewrite app_nil_r.
    destruct (Hm r0 o rc1 (conj H1 H2) Hr) as [? ?]. by split. }
  unfold after in Hrun. destruct (run_op op rc) as [[o r]|] eqn:Hop; [|done].
  injection Hrun as ->.
  assert (op = OpDispatch ∨ op ≠ OpDispatch) as [-> | Hne]
    by (destruct op; (by left) || (by right)).
  2:{ assert (enters Retry op rc = false) as -> by (by destruct op).
      by apply (Hkept (run_op op) (retry_kept op _ _ Hne) rc o). }
  simpl in Hop. unfold enters in *.
  destruct (events (_stateMachine rc)) as [|e queue] eqn:Hev.
  { unfold dispatch in Hop. msimpl_in Hop. rewrite Hev in Hop. msimpl_in Hop.
    injection Hop as _ <-. by rewrite app_nil_r. }
  destruct (transition (_stateMachine rc) e) as [[t rec]|] eqn:Htr.
  2:{ unfold dispatch in Hop. msimpl_in Hop. rewrite Hev in Hop. msimpl_in Hop.
      rewrite Htr in Hop. msimpl_in Hop. injection Hop as _ <-. cbn.
      by rewrite app_nil_r. }
  apply bool_decide_eq_false in Hidle.
  destruct (dispatch_entry rc e queue t rec Hev Htr) as (r1 & Hd & Hi1 & Hd1).
  rewrite Hd in Hop. case_bool_decide as Ht.
  - subst t. simpl in Hop.
    destruct (scheduleRetry_step r1) as (r2 & Hs & Heff & Hidx); [lia|].
    rewrite Hs in Hop. injection Hop as _ <-. rewrite Heff, Hidx, Hi1. split; [|done].
    unfold retry_delays at 1. rewrite omap_app. fold (retry_delays (effects r1)).
    by rewrite Hd1.
  - by apply (Hkept (onEntry t) (retry_kept_on_entry t _ _ Ht Hidle) r1 o).
Qed.

(** A run that does not enter Idle: the retry timers it starts are those of
    its entries of Retry, with the delays of the schedule from the index on. *)
Lemma retry_frame (ops : list Op) : ∀ rc rc' : RC,
  0 ≤ _retryIndex rc ≤ 5 →
  after_all ops rc = Some rc' →
  entries Idle ops rc = 0%nat →
  retry_delays (effects rc') =
    retry_delays (effects rc) ++
    ((fun k => backoff (Z.to_nat (_retryIndex rc) + k)) <$> seq 0 (entries Retry ops rc)) ∧
  _retryIndex rc' = Z.min (_retryIndex rc + Z.of_nat (entries Retry ops rc)) 5.
Proof.
  induction ops as [|op ops IH]; intros rc rc' Hi Hrun Hidle.
  - injection Hrun as <-. simpl. rewrite app_nil_r. split; [done | lia].
  - cbn [after_all] in Hrun. cbn [entries] in Hidle |- *.
    destruct (after op rc) as [rc1|] eqn:Hop; [|done].
    assert (enters Idle op rc = false ∧ entries Idle ops rc1 = 0%nat) as [Hno Hrest].
    { destruct (enters Idle op rc); [lia|]. split; [done | lia]. }
    destruct (retry_frame_step op rc rc1 Hi Hop Hno) as [Hd1 Hi1].
    destruct (enters Retry op rc).
    + destruct (IH rc1 rc') as [Hd Hidx]; [lia | done | done |].
      split; [|lia]. rewrite Hd, Hd1, <- app_assoc. f_equal.
      cbn [Nat.add seq fmap list_fmap app]. rewrite Nat.add_0_r. f_equal.
      rewrite <- fmap_S_seq, <- list_fmap_compose.
      apply list_fmap_ext. intros _ k _. simpl. rewrite Hi1.
      by apply backoff_next.
    + rewrite app_nil_r in Hd1.
      destruct (IH rc1 rc') as [Hd Hidx]; [lia | done | done |].
      rewrite Hi1 in Hd, Hidx. rewrite Hd, Hd1. split; [done | simpl; lia].
Qed.

(** C5: the back-off.  Take a connector with retry index 0 and any run of
    operations (frames, steps of the machine, timers, socket signals, calls
    of the owner) in which the machine does not enter Idle, which it does
    only after a successful Welcome or Account.  The retry timers started in
    the run are those of its entries of Retry, one each, with the delays 5s,
    10s, 30s, 60s, 300s, 300s, ... in that order: the index goes up by one
    at each entry of Retry until it is 5, past the last entry of
    [Timeouts], and stays there, and nothing else in the run touches it.
    The same for [n] entries of Retry back to back.  Entering Idle sets the
    index to 0, and Idle is where the account event, which [onWelcome] and
    [onAccount] submit, takes the machine from LoggingIn, Registering and
    Granting. *)
Theorem backoff_schedule (rc : RC) (n : nat) :
  _retryIndex rc = 0 →
  (∀ ops rc',
     after_all ops rc = Some rc' → entries Idle ops rc = 0%nat →
     retry_delays (effects rc') =
       retry_delays (effects rc) ++ (backoff <$> seq 0 (entries Retry ops rc)) ∧
     _retryIndex rc' = Z.min (Z.of_nat (entries Retry ops rc)) 5) ∧
  (∃ rc', retries n rc = Some (Returns tt, rc') ∧
          effects rc' =
            effects rc ++ ((fun k => SingleShot (backoff k) RetryTimer) <$> seq 0 n) ∧
          _retryIndex rc' = Z.min (Z.of_nat n) 5) ∧
  (∀ (rc0 : RC) queue,
     state (_stateMachine rc0) ∈ [Registering; LoggingIn; Granting] →
     events (_stateMachine rc0) = EvAccount :: queue →
     _socket rc0 ≠ None →
     ∃ rc', dispatch rc0 = Some (Returns tt, rc') ∧
            state (_stateMachine rc') = Idle ∧ _retryIndex rc' = 0) ∧
  (∀ (rc0 : RC) message o rc',
     isActive LoggingIn rc0 = true → onWelcome message rc0 = Some (o, rc') →
     _stateMachine rc' =
       mkMachine LoggingIn (isClosing (_stateMachine rc0)) (recover (_stateMachine rc0))
                 (events (_stateMachine rc0) ++ [EvAccount])) ∧
  (∀ (rc0 : RC) deviceId rc',
     isActive Registering rc0 = true →
     onAccount deviceId true rc0 = Some (Returns tt, rc') →
     _stateMachine rc' =
       mkMachine Registering (isClosing (_stateMachine rc0)) (recover (_stateMachine rc0))
                 (events (_stateMachine rc0) ++ [EvAccount])).
Proof.
  intros Hzero. split_and!.
  - intros ops rc' Hrun Hidle.
    destruct (retry_frame ops rc rc') as [Hd Hi]; [lia | done | done |].
    rewrite Hzero in Hd, Hi. split; [exact Hd | exact Hi].
  - destruct (retries_from n rc) as (rc' & Hrun & Heff & Hidx); [lia|].
    exists rc'. rewrite Hzero in Heff, Hidx. by split_and!.
  - intros rc0 queue Hstate Hev Hsock.
    destruct rc0 as [c so pt ap [s cl rv ev] ri ec did dc exc acp st ot eff].
    simpl in *. subst ev.
    assert (transition (mkMachine s cl rv (EvAccount :: queue)) EvAccount = Some (Idle, rv))
      as Htr.
    { apply elem_of_cons in Hstate as [-> | Hstate]; [done|].
      apply elem_of_cons in Hstate as [-> | Hstate]; [done|].
      apply list_elem_of_singleton in Hstate as ->. done. }
    assert (in_Active s = true) as Hact.
    { apply elem_of_cons in Hstate as [-> | Hstate]; [done|].
      apply elem_of_cons in Hstate as [-> | Hstate]; [done|].
      apply list_elem_of_singleton in Hstate as ->. done. }
    unfold dispatch. msimpl. rewrite Htr. msimpl. rewrite Hact. msimpl.
    match goal with
    | |- ∃ rc', onEntryIdleState ?r = _ ∧ _ =>
        destruct (onEntryIdleState_resets r) as (rc' & Hrun & Hidx & Hm);
          [done | done |]
    end.
    exists rc'. split; [done|]. rewrite Hm. done.
  - intros rc0 message o rc' Hlog. unfold onWelcome. msimpl. rewrite Hlog. msimpl.
    unfold isActive in Hlog. apply bool_decide_eq_true in Hlog.
    intros Hrun.
    match type of Hrun with
    | context [welcome_keyUpdates _ _ ?r] => set (rc1 := r) in *
    end.
    assert (keeps (fun r : RC => _stateMachine r = _stateMachine rc1)
              (keyUpdated ← welcome_keyUpdates (keyUpdates message) false;
               r ← get;
               if keyUpdated || toBool (sValue keySendCmac r)
               then sendKeyUpdate else mret tt)) as Hk.
    { repeat autounfold with connector. keeps_auto ltac:(done).
      by apply welcome_keyUpdates_keeps. }
    rewrite (Hk rc1 o rc' eq_refl Hrun). subst rc1. simpl. by rewrite Hlog.
  - intros rc0 deviceId rc' Hreg.
    destruct rc0 as [c so pt ap [s cl rv ev] ri ec did dc exc acp st ot eff].
    unfold isActive in Hreg. cbn in Hreg. apply bool_decide_eq_true in Hreg. subst s.
    unfold onAccount, storeConfig, setValue, submitEvent, isActive. msimpl.
    rewrite bool_decide_eq_true_2 by done. msimpl.
    destruct (storePrivateKeys c deviceId); msimpl; [|done].
    intros Hrun. apply (f_equal (fun r => (fun x => _stateMachine (snd x)) <$> r)) in Hrun.
    cbn in Hrun. by injection Hrun as <-.
Qed.

(** ** Running a member function step by step *)

Lemma run_bind_returns {A B} (m : M A) (f : A → M B) (rc rc1 : RC) a :
  m rc = Some (Returns a, rc1) → (m ≫= f) rc = f a rc1.
Proof. intros Hm. unfold mbind, M_bind, bind. by rewrite Hm. Qed.

Lemma run_catch_get {A} (f : RC → M A) h (rc : RC) :
  catch_Exception (get ≫= f) h rc = catch_Exception (f rc) h rc.
Proof. reflexivity. Qed.

Lemma run_catch_modify {A} (g : RC → RC) (k : unit → M A) h (rc : RC) :
  catch_Exception (modify g ≫= k) h rc = catch_Exception (k tt) h (g rc).
Proof. reflexivity. Qed.

Lemma checkIdle_idle (rc : RC) :
  isIdle rc = true → checkIdle rc = Some (Returns true, rc).
Proof. intros Hidle. unfold checkIdle. msimpl. by rewrite Hidle. Qed.

Lemma checkIdle_busy (rc : RC) :
  isIdle rc = false →
  checkIdle rc =
    Some (Returns false,
          set_stateMachine
            (mkMachine (state (_stateMachine rc)) (isClosing (_stateMachine rc))
                       (recover (_stateMachine rc))
                       (events (_stateMachine rc) ++ [EvBasicError])) rc).
Proof.
  intros Hidle. unfold checkIdle, triggerError, submitEvent. msimpl. by rewrite Hidle.
Qed.

(** [onProof], run in Idle, takes the nonce of the proof out of the export
    cache, whatever becomes of the proof. *)
Lemma onProof_takes (m : ProofMessage) (rc : RC) o rc1 :
  isIdle rc = true → onProof m rc = Some (o, rc1) →
  _exportsCache rc1 !! pNonce m = None.
Proof.
  intros Hidle Hrun. unfold onProof in Hrun.
  rewrite (run_bind_returns _ _ _ _ _ (checkIdle_idle rc Hidle)) in Hrun.
  cbv beta iota in Hrun. rewrite run_catch_get, run_catch_modify in Hrun.
  revert Hrun.
  apply (keeps_catch_Exception (fun r : RC => _exportsCache r !! pNonce m = None)).
  - repeat autounfold with connector. keeps_auto ltac:(done).
  - intros what. repeat autounfold with connector. keeps_auto ltac:(done).
  - cbn. apply lookup_delete_eq.
Qed.

(** [onProof] on a nonce that is not in the export cache: in Idle the
    proof is answered with a Deny and forgotten; out of Idle it is an
    unexpected message.  Either way nothing is accepted. *)
Lemma onProof_unknown_nonce (m : ProofMessage) (rc : RC) o rc1 :
  _exportsCache rc !! pNonce m = None →
  onProof m rc = Some (o, rc1) →
  o = Returns tt ∧ _activeProofs rc1 = _activeProofs rc ∧
  effects rc1 =
    effects rc ++ (if isIdle rc then [Sent (DenyMessage (deviceId m))] else []).
Proof.
  intros Habs. unfold onProof. destruct (isIdle rc) eqn:Hidle.
  - rewrite (run_bind_returns _ _ _ _ _ (checkIdle_idle rc Hidle)).
    cbv beta iota. rewrite run_catch_get, run_catch_modify.
    unfold sendMessage, sendBinaryMessage. msimpl. rewrite Habs. msimpl.
    rewrite bool_decide_eq_true_2 by done. msimpl.
    destruct (_socket rc); [|done]. by intros [= <- <-].
  - rewrite (run_bind_returns _ _ _ _ _ (checkIdle_busy rc Hidle)).
    cbv beta iota. msimpl. intros [= <- <-]. by rewrite app_nil_r.
Qed.

Lemma error_handler_keeps (P : RC → Prop) (e : Exn) :
  (∀ m rc, P rc → P (set_stateMachine m rc)) →
  (∀ l rc, P rc → P (set_effects l rc)) →
  keeps P (match e with
           | DataStreamException => triggerError true
           | Exception what => onError (clientError what)
           | CryptoPPException what => onError (clientError what)
           end).
Proof.
  intros Hm He. destruct e; repeat autounfold with connector;
    keeps_auto ltac:(first [by apply Hm | by apply He]).
Qed.

(** C10, as amended: an export nonce is accepted at most once after a
    ProofMessage for it has been handled in Idle.  Once a ProofMessage has
    been handled in Idle, its nonce is out of the export cache, and stays
    out whatever happens next, as long as [exportAccount] is not called; a
    later ProofMessage with the same nonce is then never accepted (no proof
    is cached for it, no Accept sent, no signal emitted): in Idle it fails
    the cache lookup and is answered with a Deny, out of Idle it is dropped
    as an unexpected message, and that is all that is sent. *)
Theorem export_nonce_single_use (rc rc1 rc2 : RC) (m1 m2 : ProofMessage)
    (ops : list Op) :
  isIdle rc = true →
  after (OpFrame (FProof m1)) rc = Some rc1 →
  Forall (fun op => is_export op = false) ops →
  after_all ops rc1 = Some rc2 →
  pNonce m2 = pNonce m1 →
  _exportsCache rc1 !! pNonce m1 = None ∧
  _exportsCache rc2 !! pNonce m2 = None ∧
  (∀ o rc3,
     binaryMessageReceived (FProof m2) rc2 = Some (o, rc3) →
     o = Returns tt ∧
     _activeProofs rc3 = _activeProofs rc2 ∧
     effects rc3 =
       effects rc2 ++ (if isIdle rc2 then [Sent (DenyMessage (deviceId m2))] else [])) ∧
  (isIdle rc2 = true → _socket rc2 ≠ None →
     ∃ rc3, binaryMessageReceived (FProof m2) rc2 = Some (Returns tt, rc3)).
Proof.
  intros Hidle Hfirst Hops Hrun Hnonce.
  assert (_exportsCache rc1 !! pNonce m1 = None) as Hout1.
  { unfold after, run_op, binaryMessageReceived, catch_all in Hfirst.
    destruct (onProof m1 rc) as [[[[]|e] r]|] eqn:Hproof; [| |done].
    - injection Hfirst as <-. by apply (onProof_takes m1 rc _ _ Hidle Hproof).
    - pose proof (onProof_takes m1 rc _ _ Hidle Hproof) as Hr.
      match type of Hfirst with
      | match ?h r with _ => _ end = _ => destruct (h r) as [[o' r']|] eqn:Hh; [|done]
      end.
      injection Hfirst as <-. revert Hr Hh.
      apply (error_handler_keeps (fun r => _exportsCache r !! pNonce m1 = None)); done. }
  assert (_exportsCache rc2 !! pNonce m2 = None) as Hout2.
  { rewrite Hnonce. revert Hout1 Hrun.
    apply (after_all_keeps (fun r => _exportsCache r !! pNonce m1 = None)).
    eapply Forall_impl; [exact Hops|]. intros op Hop. by apply exports_absent_kept. }
  split_and!; [done | done | |].
  - intros o rc3. unfold binaryMessageReceived, catch_all.
    destruct (onProof m2 rc2) as [[o2 r]|] eqn:Hproof; [|done].
    destruct (onProof_unknown_nonce m2 rc2 o2 r Hout2 Hproof) as (-> & Hact & Heff).
    by intros [= <- <-].
  - intros Hidle2 Hsock. unfold binaryMessageReceived, catch_all, onProof.
    rewrite (run_bind_returns _ _ _ _ _ (checkIdle_idle rc2 Hidle2)).
    cbv beta iota. rewrite run_catch_get, run_catch_modify.
    unfold sendMessage, sendBinaryMessage. msimpl. rewrite Hout2. msimpl.
    rewrite bool_decide_eq_true_2 by done. msimpl.
    destruct (_socket rc2); [|done]. by eexists.
Qed.




(** C9: [reconnect] while Connecting or Closing is a no-op.  In
    wsremoteconnector.cpp the call returns at once and leaves the connector
    as it is: state, socket and retry index unchanged, nothing opened.  In
    remoteconnector.cpp the call submits the reconnect event; the machine has
    no transition for it in these two states, so once the event is processed
    the connector is as it was before the call: no state is entered, no
    [doConnect] runs. *)
Theorem reconnect_is_noop (url_isValid : string → bool) (ws : WsRemoteConnector.Ws)
    (rc : RC) :
  WsRemoteConnector.state ws = WsRemoteConnector.Connecting ∨
  WsRemoteConnector.state ws = WsRemoteConnector.Closing →
  state (_stateMachine rc) = Connecting ∨ state (_stateMachine rc) = Closing →
  events (_stateMachine rc) = [] →
  WsRemoteConnector.reconnect url_isValid ws = ws ∧
  (reconnect;; dispatch) rc = Some (Returns tt, rc) ∧
  transition (_stateMachine rc) EvReconnect = None.
Proof.
  intros Hws Hrc Hev. split_and!.
  - unfold WsRemoteConnector.reconnect.
    destruct Hws as [Hs | Hs]; rewrite Hs; reflexivity.
  - destruct rc as [c so pt ap [s cl rv ev] ri ec did dc exc acp st ot eff].
    simpl in *. subst ev. unfold reconnect, submitEvent, dispatch. msimpl.
    destruct Hrc as [-> | ->]; reflexivity.
  - unfold transition. by destruct Hrc as [-> | ->].
Qed.

End Facts.

(** ** Welcome, on the symmetric keys of the crypto controller *)
Section Welcome.
Import CryptoController.

Variable mac : QByteArray → QByteArray → QByteArray.
Variable decrypt : QByteArray → Outcome QByteArray.
Variable encrypt : QByteArray → QByteArray → QByteArray.

#[local] Instance welcome_externals : Externals Crypto CryptoInfo :=
  externals mac decrypt encrypt.

Abbreviation RC := (RC Crypto CryptoInfo).

Lemma last_cons (l : list Z) : ∀ a d, List.last (a :: l) d = List.last l a.
Proof.
  induction l as [|b l IH]; intros a d; [done|].
  change (List.last (a :: b :: l) d) with (List.last (b :: l) d).
  by rewrite !IH.
Qed.

Lemma ascending_le_last (indices : list Z) : ∀ current,
  ascending current indices →
  current ≤ List.last indices current ∧
  ∀ i, i ∈ indices → current < i ≤ List.last indices current.
Proof.
  induction indices as [|j rest IH]; intros current Hasc.
  - split; [simpl; lia|]. intros i Hi. by apply elem_of_nil in Hi.
  - destruct Hasc as [Hlt Hasc]. destruct (IH j Hasc) as [Hle Hall].
    rewrite last_cons. split; [lia|]. intros i [-> | Hi]%elem_of_cons; [lia|].
    specialize (Hall i Hi). lia.
Qed.

(** The loop of [onWelcome], when it runs to its end. *)
Lemma welcome_loop (updates : list KeyUpdate) : ∀ (rc rc' : RC) b b',
  ascending (localCipher (_cryptoController rc)) (ku_index <$> updates) →
  welcome_keyUpdates updates b rc = Some (Returns b', rc') →
  b' = b || bool_decide (updates ≠ []) ∧
  rc' = set_cryptoController (_cryptoController rc') rc ∧
  (updates ≠ [] →
     ∃ key0,
       loadedCiphers (_cryptoController rc) !! localCipher (_cryptoController rc) = Some key0 ∧
       chain_verified mac decrypt (_deviceId rc) key0 updates) ∧
  localCipher (_cryptoController rc') =
    List.last (ku_index <$> updates) (localCipher (_cryptoController rc)) ∧
  (∀ i, i ≤ localCipher (_cryptoController rc) →
        loadedCiphers (_cryptoController rc') !! i = loadedCiphers (_cryptoController rc) !! i) ∧
  (∀ u, u ∈ updates →
        ∃ key, decrypt (ku_key u) = Returns key ∧
               loadedCiphers (_cryptoController rc') !! ku_index u = Some key).
Proof.
  induction updates as [|u rest IH]; intros rc rc' b b' Hasc Hrun.
  - injection Hrun as <- <-. rewrite orb_false_r. split_and!; try done.
    + by destruct rc.
    + intros u Hu. by apply elem_of_nil in Hu.
  - cbn [welcome_keyUpdates] in Hrun. msimpl_in Hrun.
    unfold CryptoController.verifyCmac, CryptoController.decryptSecretKey, check in Hrun.
    destruct (loadedCiphers (_cryptoController rc) !! localCipher (_cryptoController rc))
      as [key0|] eqn:Hkey0; [|done].
    case_bool_decide as Hmac; [|done]. msimpl_in Hrun.
    destruct (decrypt (ku_key u)) as [key|e] eqn:Hdec; [|done]. msimpl_in Hrun.
    destruct Hasc as [Hlt Hasc]. rewrite (proj2 (Z.ltb_lt _ _) Hlt) in Hrun.
    apply IH in Hrun; [|exact Hasc].
    destruct Hrun as (-> & Hrc & Hchain & Hlast & Hframe & Hinst).
    cbn in Hchain, Hlast, Hframe, Hrc.
    assert (loadedCiphers (_cryptoController rc') !! ku_index u = Some key) as Hu.
    { rewrite Hframe by lia. apply lookup_insert_eq. }
    split_and!.
    + rewrite (bool_decide_eq_true_2 (u :: rest ≠ [])) by discriminate.
      by rewrite orb_true_r.
    + rewrite Hrc. by destruct rc.
    + intros _. exists key0. split; [done|]. split; [done|]. exists key. split; [done|].
      destruct rest as [|u' rest]; [done|].
      destruct Hchain as (key1 & Hkey1 & Hchain); [done|].
      rewrite lookup_insert_eq in Hkey1. by injection Hkey1 as <-.
    + rewrite Hlast, fmap_cons. by rewrite last_cons.
    + intros i Hi. rewrite Hframe by lia. apply lookup_insert_ne. lia.
    + intros u' [-> | Hu']%elem_of_cons; [by exists key | by apply Hinst].
Qed.

(** C2: a WelcomeMessage processed in LoggingIn, its key updates ordered by
    index and newer than the current key.  Each update's cmac is verified
    under the key before it: the first under the key that was current, every
    other under the key the update before it decrypts to.  Each secret is
    decrypted and stored under its index, and afterwards the current index
    is the last of the list, which is the highest.  A MacUpdate with the
    current index and the cmac of the current key is sent if and only if the
    list is not empty or [sendCmac] is set in the settings; nothing else is
    sent. *)
Theorem welcome_installs_keys (rc rc' : RC) (message : WelcomeMessage) :
  isActive LoggingIn rc = true →
  ascending (localCipher (_cryptoController rc)) (ku_index <$> keyUpdates message) →
  onWelcome message rc = Some (Returns tt, rc') →
  (keyUpdates message ≠ [] →
     ∃ key0,
       loadedCiphers (_cryptoController rc) !! localCipher (_cryptoController rc) = Some key0 ∧
       chain_verified mac decrypt (_deviceId rc) key0 (keyUpdates message)) ∧
  (∀ u, u ∈ keyUpdates message →
     ∃ key, decrypt (ku_key u) = Returns key ∧
            loadedCiphers (_cryptoController rc') !! ku_index u = Some key) ∧
  keyIndex (_cryptoController rc') =
    List.last (ku_index <$> keyUpdates message) (keyIndex (_cryptoController rc)) ∧
  (∀ i, i ∈ ku_index <$> keyUpdates message → i ≤ keyIndex (_cryptoController rc')) ∧
  (if bool_decide (keyUpdates message ≠ []) || toBool (sValue keySendCmac rc)
   then ∃ tag,
          RemoteConnector.generateEncryptionKeyCmac (_cryptoController rc') = Returns tag ∧
          effects rc' =
            effects rc ++ [Sent (MacUpdateMessage (keyIndex (_cryptoController rc')) tag)]
   else effects rc' = effects rc).
Proof.
  intros Hlog Hasc Hrun. unfold onWelcome in Hrun. msimpl_in Hrun.
  rewrite Hlog in Hrun. msimpl_in Hrun.
  match type of Hrun with
  | context [welcome_keyUpdates _ _ ?r] => set (r1 := r) in *
  end.
  destruct (welcome_keyUpdates (keyUpdates message) false r1)
    as [[[b'|e] r2]|] eqn:Hloop; [| done | done].
  apply welcome_loop in Hloop; [|exact Hasc].
  destruct Hloop as (-> & Hr2 & Hchain & Hlast & _ & Hinst).
  change (_cryptoController r1) with (_cryptoController rc) in Hchain, Hlast.
  change (_deviceId r1) with (_deviceId rc) in Hchain.
  assert (sValue keySendCmac r2 = sValue keySendCmac rc) as Hs by (by rewrite Hr2).
  assert (effects r2 = effects rc) as He by (by rewrite Hr2).
  assert (_socket r2 = _socket rc) as Hso by (by rewrite Hr2).
  rewrite Hs in Hrun. simpl in Hrun.
  destruct (ascending_le_last _ _ Hasc) as [_ Hall].
  assert (∀ r : RC, _cryptoController r = _cryptoController r2 → effects r = effects r2 →
          (keyUpdates message ≠ [] →
           ∃ key0,
             loadedCiphers (_cryptoController rc) !! localCipher (_cryptoController rc)
               = Some key0 ∧
             chain_verified mac decrypt (_deviceId rc) key0 (keyUpdates message)) ∧
          (∀ u, u ∈ keyUpdates message →
             ∃ key, decrypt (ku_key u) = Returns key ∧
                    loadedCiphers (_cryptoController r) !! ku_index u = Some key) ∧
          keyIndex (_cryptoController r) =
            List.last (ku_index <$> keyUpdates message) (keyIndex (_cryptoController rc)) ∧
          (∀ i, i ∈ ku_index <$> keyUpdates message → i ≤ keyIndex (_cryptoController r)))
    as Hkeys.
  { intros r Hc _. rewrite Hc. split_and!; try done.
    intros i Hi. cbn. rewrite Hlast. specialize (Hall i Hi). cbn in Hall. lia. }
  destruct (bool_decide (keyUpdates message ≠ []) || toBool (sValue keySendCmac rc)).
  - unfold sendKeyUpdate, setValue, sendMessage, sendBinaryMessage in Hrun.
    msimpl_in Hrun.
    destruct (CryptoController.generateEncryptionKeyCmac mac (_cryptoController r2))
      as [tag|e] eqn:Htag; [|done].
    msimpl_in Hrun. rewrite Hso in Hrun. destruct (_socket rc); [|done].
    injection Hrun as <-. cbn.
    destruct (Hkeys r2 eq_refl eq_refl) as (H1 & H2 & H3 & H4).
    split_and!; try done. exists tag. by rewrite He.
  - injection Hrun as <-.
    destruct (Hkeys r2 eq_refl eq_refl) as (H1 & H2 & H3 & H4). by split_and!.
Qed.

End Welcome.

(** ** The theorems at work on the example connector *)
Section Witnesses.
Import CryptoController Examples.

Ltac by_computation := vm_compute; first [reflexivity | discriminate | lia | done].

Lemma keepalive_two_ticks_witness :
  ping (connector_in Idle) =
    Some (Returns tt,
          set_effects [Sent PingMessage] (set_awaitingPing true (connector_in Idle))).
Proof.
  apply (proj1 (keepalive_two_ticks (connector_in Idle))); by_computation.
Defined.

Lemma operation_timeout_is_basic_error_witness :
  ∃ rc', operationTimeout connector_waiting = Some (Returns tt, rc') ∧
         events (_stateMachine rc') = [EvBasicError].
Proof.
  destruct (operation_timeout_is_basic_error connector_waiting 5)
    as (_ & (rc' & Hrun & _ & _ & Hev & _) & _); [by_computation|].
  exists rc'. split; [exact Hrun | exact Hev].
Defined.

(** C3, as stated, fails: the slot of the timeout submits basicError, not
    the fatalError that [triggerError(false)] submits. *)
Lemma timeout_is_not_fatal : ¬ timeout_is_fatal connector_waiting.
Proof. unfold timeout_is_fatal. vm_compute. discriminate. Qed.


(** A ProofMessage that arrives before the machine is in Idle leaves its
    nonce in the export cache; the same message, arriving again in Idle, is
    accepted. *)
Lemma nonce_accepted_after_unexpected_proof :
  ¬ nonce_accepted_once connector_welcomed proof_trusted proof_trusted.
Proof.
  intros H.
  destruct (H [OpDispatch]
              (connector_after [OpFrame (FProof proof_trusted)] connector_welcomed)
              (connector_after [OpFrame (FProof proof_trusted); OpDispatch]
                               connector_welcomed)
              (Returns tt)
              (connector_after [OpFrame (FProof proof_trusted); OpDispatch;
                                OpFrame (FProof proof_trusted)] connector_welcomed))
    as [_ Haccepts]; [by_computation | repeat constructor | by_computation..|].
  vm_compute in Haccepts. discriminate.
Qed.

Lemma backoff_schedule_witness :
  (retry_delays
     (effects (connector_after [OpSocketDisconnected; OpDispatch; OpRetryTimer; OpDispatch;
                                OpSocketDisconnected; OpDispatch] (connector_in Connected)))
   = [5; 10] ∧
   _retryIndex (connector_after [OpSocketDisconnected; OpDispatch; OpRetryTimer; OpDispatch;
                                 OpSocketDisconnected; OpDispatch] (connector_in Connected))
   = 2) ∧
  ∃ rc', retries 7 (connector_in Retry) = Some (Returns tt, rc') ∧
         effects rc' = (fun k => SingleShot (backoff k) RetryTimer) <$> seq 0 7 ∧
         _retryIndex rc' = 5.
Proof.
  split.
  - destruct (backoff_schedule (connector_in Connected) 0) as (Hrun & _);
      [by_computation|].
    apply (Hrun [OpSocketDisconnected; OpDispatch; OpRetryTimer; OpDispatch;
                 OpSocketDisconnected; OpDispatch]); by_computation.
  - destruct (backoff_schedule (connector_in Retry) 7) as (_ & (rc' & H1 & H2 & H3) & _);
      [by_computation|].
    exists rc'. split_and!; [exact H1 | exact H2 | exact H3].
Defined.

Lemma reconnect_is_noop_witness :
  WsRemoteConnector.reconnect (fun _ => true) WsRemoteConnector.ws_connecting
    = WsRemoteConnector.ws_connecting ∧
  (reconnect;; dispatch) (connector_in Closing) = Some (Returns tt, connector_in Closing).
Proof.
  destruct (reconnect_is_noop (fun _ => true) WsRemoteConnector.ws_connecting
              (connector_in Closing))
    as (H1 & H2 & _); [left; by_computation | right; by_computation | by_computation |].
  split; [exact H1 | exact H2].
Defined.


Lemma export_nonce_single_use_witness :
  ∃ rc3,
    binaryMessageReceived (FProof proof_trusted)
      (connector_after [OpFrame (FProof proof_untrusted); OpPing; OpLoginReply 9 false]
                       connector_exporting)
    = Some (Returns tt, rc3).
Proof.
  destruct (export_nonce_single_use connector_exporting
              (connector_after [OpFrame (FProof proof_untrusted)] connector_exporting)
              (connector_after [OpFrame (FProof proof_untrusted); OpPing;
                                OpLoginReply 9 false] connector_exporting)
              proof_untrusted proof_trusted [OpPing; OpLoginReply 9 false])
    as (_ & _ & _ & Hdeny);
    [by_computation | by_computation | repeat constructor | by_computation
     | by_computation |].
  apply Hdeny; by_computation.
Defined.

Lemma welcome_installs_keys_witness :
  keyIndex (_cryptoController
              (connector_after [OpFrame (FWelcome welcome_two_keys)]
                               (connector_in LoggingIn)))
  = List.last (ku_index <$> keyUpdates welcome_two_keys)
              (keyIndex (_cryptoController (connector_in LoggingIn))).
Proof.
  destruct (welcome_installs_keys toy_mac toy_decrypt toy_encrypt
              (connector_in LoggingIn)
              (connector_after [OpFrame (FWelcome welcome_two_keys)]
                               (connector_in LoggingIn))
              welcome_two_keys)
    as (_ & _ & Hlast & _);
    [by_computation | cbn; lia | by_computation |].
  exact Hlast.
Defined.

End Witnesses.

End ConnectorFacts.

(** * The schema constraints under the operations of the database controller *)
Module DatabaseInvariants.
Import DatabaseController.
Import DatabaseFacts.

(** Rows kept and sequences not behind: the constraints carry over. *)
Lemma consistent_rows db db' :
  consistent db →
  rows db' = rows db →
  devices_id_seq db ≤ devices_id_seq db' →
  data_index_seq db ≤ data_index_seq db' →
  consistent db'.
Proof.
  intros Hc Hrows Hs1 Hs2.
  destruct db as [us ds da sts s1 s2], db' as [us' ds' da' sts' s1' s2'].
  unfold rows in Hrows. simpl in *. injection Hrows as -> -> -> ->.
  split; simpl; try apply Hc.
  - eapply Forall_impl; [exact (devices_seq _ Hc)|]. simpl. intros; lia.
  - eapply Forall_impl; [exact (data_seq _ Hc)|]. simpl. intros; lia.
Qed.

Lemma rollback_consistent snapshot w :
  consistent snapshot →
  devices_id_seq snapshot ≤ devices_id_seq w →
  data_index_seq snapshot ≤ data_index_seq w →
  consistent (rollback snapshot w).
Proof. intros Hc H1 H2. by apply (consistent_rows snapshot). Qed.

Lemma insert_user_consistent identity db b db' :
  consistent db → insert_user identity db = (b, db') →
  consistent db' ∧ devices_id_seq db' = devices_id_seq db
                 ∧ data_index_seq db' = data_index_seq db.
Proof.
  intros Hc. unfold insert_user, user_exists. case_bool_decide as Hin; intros [= <- <-]; [by split_and!|].
  split; [|done]. split; simpl; try apply Hc.
  - apply NoDup_app. split_and!; [apply Hc | | apply NoDup_singleton].
    intros x Hx ->%list_elem_of_singleton. done.
  - eapply Forall_impl; [exact (devices_fk db Hc)|]. simpl. intros d Hd.
    apply elem_of_app. by left.
  - eapply Forall_impl; [exact (data_fk db Hc)|]. simpl. intros d Hd.
    apply elem_of_app. by left.
Qed.

Lemma next_device_id_consistent db :
  consistent db → consistent (next_device_id db).
Proof. intros Hc. apply (consistent_rows db); simpl; [done.. | lia | lia]. Qed.

Lemma device_conflict_false id deviceId userId db d :
  device_conflict id deviceId userId db = false → d ∈ devices db →
  dev_id d ≠ id ∧ (dev_deviceid d, dev_userid d) ≠ (deviceId, userId).
Proof.
  unfold device_conflict. intros Hf Hd.
  destruct (decide (dev_id d = id ∨ (dev_deviceid d, dev_userid d) = (deviceId, userId)))
    as [Hyes|Hno]; [|tauto].
  assert (existsb (fun d => (dev_id d =? id)
                    || ((dev_deviceid d =? deviceId) && (dev_userid d =? userId)))
                  (devices db) = true) as Ht; [|congruence].
  apply existsb_exists. exists d. split; [by apply list_elem_of_In|].
  destruct Hyes as [->|[= -> ->]]; rewrite ?Z.eqb_refl; simpl; [done|].
  by rewrite orb_true_r.
Qed.

Lemma add_device_consistent id deviceId userId db :
  consistent db → userId ∈ users db →
  device_conflict id deviceId userId db = false →
  id < devices_id_seq db →
  consistent (add_device (mkDevice id deviceId userId) db).
Proof.
  intros Hc Hu Hconf Hid. split; simpl; try apply Hc.
  - rewrite fmap_app. apply NoDup_app. split_and!; [apply Hc | | apply NoDup_singleton].
    intros x (d & -> & Hd)%list_elem_of_fmap Hx%list_elem_of_singleton. simpl in Hx.
    by destruct (device_conflict_false _ _ _ _ d Hconf Hd).
  - rewrite fmap_app. apply NoDup_app. split_and!; [apply Hc | | apply NoDup_singleton].
    intros x (d & -> & Hd)%list_elem_of_fmap Hx%list_elem_of_singleton. simpl in Hx.
    by destruct (device_conflict_false _ _ _ _ d Hconf Hd).
  - apply Forall_app. split; [apply Hc|]. by apply Forall_singleton.
  - apply Forall_app. split; [apply Hc|]. by apply Forall_singleton.
  - eapply Forall_impl; [exact (states_fk_device db Hc)|]. simpl. intros s Hs.
    rewrite fmap_app. apply elem_of_app. by left.
Qed.

Lemma insert_device_consistent deviceId userId db b db' :
  consistent db → insert_device deviceId userId db = (b, db') →
  consistent db' ∧ devices_id_seq db ≤ devices_id_seq db'
                 ∧ data_index_seq db' = data_index_seq db.
Proof.
  intros Hc. unfold insert_device, user_exists.
  case_bool_decide as Hu; simpl.
  - destruct (device_conflict _ _ _ _) eqn:Hconf; intros [= <- <-]; simpl.
    + split_and!; [by apply next_device_id_consistent | lia | done].
    + split_and!; [|lia|done].
      apply add_device_consistent; simpl; [by apply next_device_id_consistent|done|done|lia].
  - intros [= <- <-]. simpl. split_and!; [by apply next_device_id_consistent | lia | done].
Qed.

Lemma insert_device_on_conflict_consistent deviceId userId db b db' :
  consistent db → insert_device_on_conflict_do_nothing deviceId userId db = (b, db') →
  consistent db' ∧ devices_id_seq db ≤ devices_id_seq db'
                 ∧ data_index_seq db' = data_index_seq db.
Proof.
  intros Hc. unfold insert_device_on_conflict_do_nothing, user_exists.
  case_bool_decide as Hu; simpl.
  - destruct (device_conflict _ _ _ _) eqn:Hconf; intros [= <- <-]; simpl.
    + split_and!; [by apply next_device_id_consistent | lia | done].
    + split_and!; [|lia|done].
      apply add_device_consistent; simpl; [by apply next_device_id_consistent|done|done|lia].
  - intros [= <- <-]. simpl. split_and!; [by apply next_device_id_consistent | lia | done].
Qed.

Lemma update_data_index json index (l : list DataRow) :
  dat_index <$> ((fun r => if dat_index r =? index
                           then mkData (dat_index r) (dat_userid r) (dat_type r) (dat_key r) json
                           else r) <$> l) = dat_index <$> l.
Proof.
  rewrite <- list_fmap_compose. apply list_fmap_ext. intros i r _. simpl.
  by destruct (dat_index r =? index).
Qed.

Lemma update_data_consistent json index db :
  consistent db → consistent (update_data json index db).
Proof.
  intros Hc. split; simpl; try apply Hc.
  - rewrite update_data_index. apply Hc.
  - rewrite <- list_fmap_compose.
    erewrite list_fmap_ext; [exact (data_unique db Hc)|].
    intros i r _. simpl. by destruct (dat_index r =? index).
  - apply Forall_fmap. eapply Forall_impl; [exact (data_fk db Hc)|]. simpl.
    intros r Hr. by destruct (dat_index r =? index).
  - apply Forall_fmap. eapply Forall_impl; [exact (data_seq db Hc)|]. simpl.
    intros r Hr. by destruct (dat_index r =? index).
  - rewrite update_data_index. apply Hc.
Qed.

Lemma data_conflict_false index userId type key db r :
  data_conflict index userId type key db = false → r ∈ data db →
  dat_index r ≠ index ∧ (dat_userid r, dat_type r, dat_key r) ≠ (userId, type, key).
Proof.
  unfold data_conflict. intros Hf Hr.
  destruct (decide (dat_index r = index ∨
                    (dat_userid r, dat_type r, dat_key r) = (userId, type, key)))
    as [Hyes|Hno]; [|tauto].
  assert (existsb (fun r => (dat_index r =? index) || data_matches userId type key r)
                  (data db) = true) as Ht; [|congruence].
  apply existsb_exists. exists r. split; [by apply list_elem_of_In|].
  destruct Hyes as [->|[= Hu Ht Hk]]; [by rewrite Z.eqb_refl|].
  unfold data_matches. rewrite Hu, Z.eqb_refl, !bool_decide_eq_true_2 by done.
  by rewrite orb_true_r.
Qed.

Lemma insert_data_consistent userId type key json db o db' :
  consistent db → insert_data userId type key json db = (o, db') →
  consistent db' ∧ devices_id_seq db' = devices_id_seq db
                 ∧ data_index_seq db ≤ data_index_seq db'.
Proof.
  intros Hc. unfold insert_data, user_exists.
  assert (consistent (next_data_index db)) as Hn.
  { apply (consistent_rows db); simpl; [done.. | lia | lia]. }
  case_bool_decide as Hu; simpl.
  2:{ intros [= <- <-]. simpl. split_and!; [done | done | lia]. }
  destruct (data_conflict _ _ _ _ _) eqn:Hconf; intros [= <- <-]; simpl.
  { split_and!; [done | done | lia]. }
  split_and!; [|done|lia]. split; simpl; try apply Hc.
  - rewrite fmap_app. apply NoDup_app. split_and!; [apply Hc | | apply NoDup_singleton].
    intros x (r & -> & Hr)%list_elem_of_fmap Hx%list_elem_of_singleton. simpl in Hx.
    by destruct (data_conflict_false _ _ _ _ _ r Hconf Hr).
  - rewrite fmap_app. apply NoDup_app. split_and!; [apply Hc | | apply NoDup_singleton].
    intros x (r & -> & Hr)%list_elem_of_fmap Hx%list_elem_of_singleton. simpl in Hx.
    by destruct (data_conflict_false _ _ _ _ _ r Hconf Hr).
  - apply Forall_app. split; [apply Hc|]. by apply Forall_singleton.
  - apply Forall_app. split; [|apply Forall_singleton; simpl; lia].
    eapply Forall_impl; [exact (data_seq db Hc)|]. simpl. intros; lia.
  - eapply Forall_impl; [exact (states_fk_data db Hc)|]. simpl. intros s Hs.
    rewrite fmap_app. apply elem_of_app. by left.
Qed.

Lemma insert_states_consistent index userId deviceId db b db' :
  consistent db → insert_states index userId deviceId db = (b, db') →
  consistent db' ∧ devices_id_seq db' = devices_id_seq db
                 ∧ data_index_seq db' = data_index_seq db.
Proof.
  intros Hc. unfold insert_states.
  destruct (bool_decide (select_peers index userId deviceId db ≠ []) && _) eqn:Hfk;
    intros [= <- <-]; [done|].
  split; [|done]. split; simpl; try apply Hc.
  - apply fold_add_state_NoDup, Hc.
  - apply Forall_forall. intros r [Hr|Hr]%fold_add_state_elem.
    + pose proof (states_fk_data db Hc) as Hf. rewrite Forall_forall in Hf. by apply Hf.
    + apply andb_false_iff in Hfk as [Hnil|Hin].
      * apply bool_decide_eq_false in Hnil. destruct Hnil. intros Hnil.
        rewrite Hnil in Hr. by apply elem_of_nil in Hr.
      * apply negb_false_iff, bool_decide_eq_true in Hin.
        apply select_peers_elem in Hr as (d & _ & _ & ->). done.
  - apply Forall_forall. intros r [Hr|Hr]%fold_add_state_elem.
    + pose proof (states_fk_device db Hc) as Hf. rewrite Forall_forall in Hf. by apply Hf.
    + apply select_peers_elem in Hr as (d & Hd & _ & ->). simpl.
      apply list_elem_of_fmap. by exists d.
Qed.

Lemma createIdentity_consistent drv identity deviceId db :
  consistent db → consistent (createIdentity drv identity deviceId db).2.
Proof.
  intros Hc. unfold createIdentity, exec.
  destruct (drv Transaction); simpl; [|done].
  destruct (drv CreateIdentityQuery); simpl; [|by apply rollback_consistent].
  destruct (insert_user identity db) as [b1 w1] eqn:H1.
  destruct (insert_user_consistent _ _ _ _ Hc H1) as (Hc1 & Hd1 & Hi1).
  destruct b1; simpl; [|apply rollback_consistent; [done|lia|lia]].
  destruct (drv CreateDeviceQuery); simpl; [|apply rollback_consistent; [done|lia|lia]].
  destruct (insert_device deviceId identity w1) as [b2 w2] eqn:H2.
  destruct (insert_device_consistent _ _ _ _ _ Hc1 H2) as (Hc2 & Hd2 & Hi2).
  destruct b2; simpl; [|apply rollback_consistent; [done|lia|lia]].
  destruct (drv Commit); simpl; [done|apply rollback_consistent; [done|lia|lia]].
Qed.

Lemma identify_consistent drv identity deviceId db :
  consistent db → consistent (identify drv identity deviceId db).2.
Proof.
  intros Hc. unfold identify, exec.
  destruct (drv IdentifyQuery); simpl; [|done].
  destruct (user_exists identity db); [|done].
  destruct (drv CreateDeviceQuery); simpl; [|done].
  destruct (insert_device_on_conflict_do_nothing deviceId identity db) as [b1 w1] eqn:H1.
  destruct (insert_device_on_conflict_consistent _ _ _ _ _ Hc H1) as (Hc1 & _).
  by destruct b1.
Qed.

Lemma save_states_consistent drv userId deviceId index snapshot w :
  consistent snapshot → consistent w →
  devices_id_seq snapshot ≤ devices_id_seq w →
  data_index_seq snapshot ≤ data_index_seq w →
  consistent (save_states drv userId deviceId index snapshot w).2.
Proof.
  intros Hs Hw Hd Hi. unfold save_states, exec.
  destruct (drv UpdateStateQuery); simpl; [|by apply rollback_consistent].
  destruct (insert_states index userId deviceId w) as [b1 w1] eqn:H1.
  destruct (insert_states_consistent _ _ _ _ _ _ Hw H1) as (Hc1 & Hd1 & Hi1).
  destruct b1; simpl; [|apply rollback_consistent; [done|lia|lia]].
  destruct (drv Commit); simpl; [done|apply rollback_consistent; [done|lia|lia]].
Qed.

Lemma save_consistent drv userId deviceId type key object db :
  consistent db → consistent (save drv userId deviceId type key object db).2.
Proof.
  intros Hc. unfold save, exec, exec_returning.
  destruct (drv Transaction); simpl; [|done].
  destruct (drv GetIdQuery); simpl; [|by apply rollback_consistent].
  destruct (select_index userId type key db) as [|index rest].
  - destruct (drv InsertQuery); simpl; [|by apply rollback_consistent].
    destruct (insert_data userId type key (jsonToString object) db) as [o w1] eqn:H1.
    destruct (insert_data_consistent _ _ _ _ _ _ _ Hc H1) as (Hc1 & Hd1 & Hi1).
    destruct o as [index|]; simpl; [|apply rollback_consistent; [done|lia|lia]].
    apply save_states_consistent; [done|done|lia|lia].
  - destruct (drv UpdateQuery); simpl; [|by apply rollback_consistent].
    apply save_states_consistent; [done|by apply update_data_consistent|done|done].
Qed.

(** X1. The constraints of the schema (primary keys, unique constraints,
    foreign keys, sequences ahead of the ids in use) hold after
    [createIdentity], [identify] and [save] whenever they held before,
    whatever the driver does and whether the operation succeeds or not. *)
Theorem operations_keep_schema_constraints
    drv identity userId deviceId type key object db :
  consistent db →
  consistent (createIdentity drv identity deviceId db).2 ∧
  consistent (identify drv userId deviceId db).2 ∧
  consistent (save drv userId deviceId type key object db).2.
Proof.
  intros Hc. split_and!.
  - by apply createIdentity_consistent.
  - by apply identify_consistent.
  - by apply save_consistent.
Qed.

Lemma operations_keep_schema_constraints_witness :
  consistent (createIdentity all_ok 9 30 db_two_devices).2 ∧
  consistent (identify all_ok 7 30 db_two_devices).2 ∧
  consistent (save all_ok 7 30 "t" "k2" "{x}" db_two_devices).2.
Proof.
  exact (operations_keep_schema_constraints all_ok 9 7 30 "t" "k2" "{x}" db_two_devices
           db_two_devices_consistent).
Defined.

Lemma insert_data_seq userId type key json db index w :
  insert_data userId type key json db = (Some index, w) →
  index = data_index_seq db ∧ data_index_seq w = data_index_seq db + 1.
Proof.
  unfold insert_data. destruct (negb _); [done|].
  destruct (data_conflict _ _ _ _ _); [done|]. by intros [= <- <-].
Qed.

Lemma insert_states_seq index userId deviceId w db' :
  insert_states index userId deviceId w = (true, db') →
  data_index_seq db' = data_index_seq w.
Proof. unfold insert_states. destruct (_ && _); [done|]. by intros [= <-]. Qed.

(** X2. A successful [save] is an upsert of one data row: under a key that
    has a row the row keeps its index and no row is added; under a new key
    one row is appended, with the next value of the sequence as its index.
    The rows of every other key, the users and the devices are as before. *)
Theorem save_upserts_one_row drv userId deviceId type key object db db' :
  consistent db →
  save drv userId deviceId type key object db = (true, db') →
  users db' = users db ∧ devices db' = devices db ∧
  (∀ r, (dat_userid r, dat_type r, dat_key r) ≠ (userId, type, key) →
        r ∈ data db' ↔ r ∈ data db) ∧
  match data_index_of userId type key db with
  | Some index =>
      data_index_of userId type key db' = Some index ∧
      dat_index <$> data db' = dat_index <$> data db ∧
      data_index_seq db' = data_index_seq db
  | None =>
      data db' = data db ++ [mkData (data_index_seq db) userId type key
                                    (jsonToString object)] ∧
      data_index_seq db' = data_index_seq db + 1
  end.
Proof.
  intros Hc Hsave.
  destruct (save_true_result _ _ _ _ _ _ _ _ Hsave) as (idx & Hidx & _ & _ & Hu & Hd & _).
  destruct (save_true_inv _ _ _ _ _ _ _ _ Hsave) as (index & w & Hw & Hst).
  pose proof (insert_states_seq _ _ _ _ _ Hst) as Hseq.
  apply insert_states_true in Hst as (_ & _ & Hdata & _).
  split_and!; [done | done | |].
  - intros r Hne. rewrite Hdata.
    destruct Hw as [(rest & Hsel & ->) | (Hsel & Hins)].
    + assert (index ∈ select_index userId type key db) as Hin by (rewrite Hsel; left).
      apply select_index_elem in Hin as (r0 & Hr0 & Hi0 & Hu0 & Ht0 & Hk0).
      assert (∀ r1, r1 ∈ data db → dat_index r1 = index → r1 = r0) as Hone.
      { intros r1 Hr1 Hi1. apply (NoDup_fmap_same dat_index (data db)); [apply Hc|done..|congruence]. }
      simpl. rewrite list_elem_of_fmap. split.
      * intros (r1 & -> & Hr1). destruct (dat_index r1 =? index) eqn:Hi; [|done].
        apply Z.eqb_eq in Hi. rewrite (Hone r1 Hr1 Hi) in Hne. simpl in Hne. congruence.
      * intros Hr. exists r. split; [|done].
        destruct (dat_index r =? index) eqn:Hi; [|done].
        apply Z.eqb_eq in Hi. rewrite (Hone r Hr Hi) in Hne. congruence.
    + apply insert_data_Some in Hins as (_ & _ & _ & -> & _).
      rewrite elem_of_app, list_elem_of_singleton. split; [|by left].
      intros [?| ->]; [done|]. by destruct Hne.
  - unfold data_index_of in *.
    destruct Hw as [(rest & Hsel & ->) | (Hsel & Hins)]; rewrite Hsel; simpl.
    + split_and!; [| |done].
      * rewrite (select_index_data _ _ _ db' (update_data (jsonToString object) index db))
          by done.
        by rewrite select_index_update, Hsel.
      * rewrite Hdata. simpl. apply update_data_index.
    + destruct (insert_data_seq _ _ _ _ _ _ _ Hins) as [-> Hs].
      apply insert_data_Some in Hins as (_ & _ & _ & Hd' & _).
      split; [congruence | lia].
Qed.

Lemma save_upserts_one_row_witness :
  data (save all_ok 7 10 "t" "k2" "{x}" db_two_devices).2
  = data db_two_devices ++ [mkData 2 7 "t" "k2" "{x}"].
Proof.
  destruct (save_upserts_one_row all_ok 7 10 "t" "k2" "{x}" db_two_devices
              (save all_ok 7 10 "t" "k2" "{x}" db_two_devices).2
              db_two_devices_consistent eq_refl) as (_ & _ & _ & Hnew).
  exact (proj1 Hnew).
Defined.

(** X3. A successful [save] never removes a states row, and every row it
    adds is for the saved data row and for a device row of the same user
    other than the writer's: the pending changes of other data rows and of
    other users are left alone. *)
Theorem save_only_adds_peer_states drv userId deviceId type key object db db' :
  save drv userId deviceId type key object db = (true, db') →
  (∀ s, s ∈ states db → s ∈ states db') ∧
  (∀ s, s ∈ states db' → s ∉ states db →
        data_index_of userId type key db' = Some (st_dataindex s) ∧
        ∃ d, d ∈ devices db ∧ is_peer userId deviceId d ∧ st_deviceid s = dev_id d).
Proof.
  intros (index & Hidx & _ & _ & _ & _ & Hst)%save_true_result. rewrite Hst. split.
  - intros s Hs. apply fold_add_state_elem. by left.
  - intros s [Hs|Hs]%fold_add_state_elem Hnew; [done|].
    apply select_peers_elem in Hs as (d & Hd & Hp & ->). simpl. split; [done|].
    by exists d.
Qed.

Lemma save_only_adds_peer_states_witness :
  mkState 1 1 ∈ states (save all_ok 7 20 "t" "k2" "{x}" db_two_devices).2.
Proof.
  apply (proj1 (save_only_adds_peer_states all_ok 7 20 "t" "k2" "{x}" db_two_devices
                  (save all_ok 7 20 "t" "k2" "{x}" db_two_devices).2 eq_refl)).
  apply (bool_decide_unpack _). vm_compute. exact I.
Defined.

(** X4. [save] for a user that has no row in users fails and leaves every
    table as it was: the foreign key of data rejects the insert and the
    transaction is rolled back. *)
Theorem save_unknown_user_fails drv userId deviceId type key object db :
  consistent db → userId ∉ users db →
  (save drv userId deviceId type key object db).1 = false ∧
  rows (save drv userId deviceId type key object db).2 = rows db.
Proof.
  intros Hc Hu.
  assert (select_index userId type key db = []) as Hsel.
  { destruct (select_index userId type key db) as [|index rest] eqn:Hs; [done|].
    assert (index ∈ select_index userId type key db) as Hin by (rewrite Hs; left).
    apply select_index_elem in Hin as (r & Hr & _ & Hru & _).
    pose proof (data_fk db Hc) as Hfk. rewrite Forall_forall in Hfk.
    specialize (Hfk r Hr). simpl in Hfk. congruence. }
  unfold save, exec_returning. rewrite Hsel.
  destruct (drv Transaction); simpl; [|done].
  destruct (drv GetIdQuery); simpl; [|done].
  destruct (drv InsertQuery); simpl; [|done].
  unfold insert_data, user_exists. by rewrite bool_decide_eq_false_2.
Qed.

Lemma save_unknown_user_fails_witness :
  (save all_ok 8 10 "t" "k" "{x}" db_two_devices).1 = false ∧
  rows (save all_ok 8 10 "t" "k" "{x}" db_two_devices).2 = rows db_two_devices.
Proof.
  apply (save_unknown_user_fails all_ok 8 10 "t" "k" "{x}" db_two_devices
           db_two_devices_consistent).
  apply (bool_decide_unpack _). vm_compute. exact I.
Defined.

Lemma no_device_of_new_user identity db d :
  consistent db → identity ∉ users db → d ∈ devices db → dev_userid d ≠ identity.
Proof.
  intros Hc Hu Hd Heq. pose proof (devices_fk db Hc) as Hfk.
  rewrite Forall_forall in Hfk. specialize (Hfk d Hd). simpl in Hfk. congruence.
Qed.

Lemma device_conflict_none id deviceId userId db :
  (∀ d, d ∈ devices db →
        dev_id d ≠ id ∧ (dev_deviceid d ≠ deviceId ∨ dev_userid d ≠ userId)) →
  device_conflict id deviceId userId db = false.
Proof.
  intros Hno. unfold device_conflict.
  destruct (existsb _ _) eqn:Hex; [|done].
  apply existsb_exists in Hex as (d & Hd%list_elem_of_In & Hc).
  destruct (Hno d Hd) as [Hid Hpair].
  apply orb_true_iff in Hc as [Hc|Hc]; [apply Z.eqb_eq in Hc; done|].
  apply andb_true_iff in Hc as [H1%Z.eqb_eq H2%Z.eqb_eq]. tauto.
Qed.

(** With a fresh uuid and a driver that reports no error, [createIdentity]
    succeeds and adds the user and its one device. *)
Lemma createIdentity_fresh identity deviceId db :
  consistent db → identity ∉ users db →
  createIdentity all_ok identity deviceId db =
    (identity,
     {| users := users db ++ [identity];
        devices := devices db ++ [mkDevice (devices_id_seq db) deviceId identity];
        data := data db;
        states := states db;
        devices_id_seq := devices_id_seq db + 1;
        data_index_seq := data_index_seq db |}).
Proof.
  intros Hc Hu. unfold createIdentity, exec, all_ok. simpl.
  unfold insert_user, user_exists. rewrite bool_decide_eq_false_2 by done.
  unfold insert_device, user_exists. simpl.
  rewrite bool_decide_eq_true_2 by (apply elem_of_app; right; left). simpl.
  rewrite device_conflict_none; [done|]. simpl. intros d Hd. split.
  - pose proof (devices_seq db Hc) as Hs. rewrite Forall_forall in Hs.
    specialize (Hs d Hd). simpl in Hs. lia.
  - right. by apply (no_device_of_new_user identity db).
Qed.

(** X5. [createIdentity] never attaches a device to a user that exists: a
    device row it adds belongs to the identity it returns, and that identity
    was no user before. *)
Theorem createIdentity_never_joins_existing_user drv identity deviceId db d :
  d ∈ devices (createIdentity drv identity deviceId db).2 → d ∉ devices db →
  (identity ∉ users db) ∧
  (createIdentity drv identity deviceId db).1 = identity ∧
  d = mkDevice (devices_id_seq db) deviceId identity.
Proof.
  intros Hd Hnew.
  destruct (createIdentity_cases drv identity deviceId db)
    as [(Hok & Hid & _ & Hdev) | (_ & _ & Hrows)].
  - rewrite Hdev in Hd. apply elem_of_app in Hd as [Hd|Hd%list_elem_of_singleton]; [done|].
    split_and!; [|done|done].
    apply andb_true_iff in Hok as [Hok _]. apply andb_true_iff in Hok as [_ Hq].
    unfold createIdentity_queries, exec in Hq.
    destruct (drv CreateIdentityQuery); [|done].
    unfold insert_user, user_exists in Hq. by case_bool_decide.
  - unfold rows in Hrows. injection Hrows as _ Hdev _ _. by rewrite Hdev in Hd.
Qed.

Lemma createIdentity_never_joins_existing_user_witness :
  (9 ∉ users db_two_devices) ∧
  (createIdentity all_ok 9 30 db_two_devices).1 = 9.
Proof.
  destruct (createIdentity_never_joins_existing_user all_ok 9 30 db_two_devices
              (mkDevice 3 30 9)) as (Hu & Hid & _).
  - apply (bool_decide_unpack _). vm_compute. exact I.
  - apply (bool_decide_unpack _). vm_compute. exact I.
  - by split.
Defined.

(** With a driver that reports no error, [identify] of a device that is new
    to an existing user adds its row. *)
Lemma identify_new_device identity deviceId db :
  consistent db → identity ∈ users db → ¬ device_registered deviceId identity db →
  identify all_ok identity deviceId db =
    (true, add_device (mkDevice (devices_id_seq db) deviceId identity)
                      (next_device_id db)).
Proof.
  intros Hc Hu Hreg. unfold identify, exec, all_ok. simpl.
  unfold user_exists. rewrite bool_decide_eq_true_2 by done.
  unfold insert_device_on_conflict_do_nothing, user_exists.
  rewrite bool_decide_eq_true_2 by done. simpl.
  destruct (device_conflict _ _ _ _) eqn:Hconf; [|done].
  by apply device_conflict_registered in Hconf.
Qed.

(** With a driver that reports no error, [save] under a key that has no row
    yet appends the row and marks it for the peers of the writer. *)
Lemma save_new_key userId deviceId type key object db :
  consistent db → userId ∈ users db →
  select_index userId type key db = [] →
  save all_ok userId deviceId type key object db =
    (true,
     {| users := users db;
        devices := devices db;
        data := data db ++ [mkData (data_index_seq db) userId type key
                                   (jsonToString object)];
        states := fold_left add_state
                    (select_peers (data_index_seq db) userId deviceId db) (states db);
        devices_id_seq := devices_id_seq db;
        data_index_seq := data_index_seq db + 1 |}).
Proof.
  intros Hc Hu Hsel. unfold save, exec_returning, all_ok. simpl. rewrite Hsel.
  unfold insert_data, user_exists. rewrite bool_decide_eq_true_2 by done. simpl.
  assert (data_conflict (data_index_seq db) userId type key db = false) as ->.
  { unfold data_conflict. destruct (existsb _ _) eqn:Hex; [|done].
    apply existsb_exists in Hex as (r & Hr%list_elem_of_In & Hm).
    apply orb_true_iff in Hm as [Hm%Z.eqb_eq|Hm].
    - pose proof (data_seq db Hc) as Hs. rewrite Forall_forall in Hs.
      specialize (Hs r Hr). simpl in Hs. lia.
    - assert (dat_index r ∈ select_index userId type key db) as Hin.
      { unfold select_index. apply list_elem_of_fmap. exists r. split; [done|].
        by apply list_elem_of_filter. }
      rewrite Hsel in Hin. by apply elem_of_nil in Hin. }
  unfold save_states, exec. simpl. unfold insert_states. simpl.
  rewrite (select_peers_devices _ _ _ _ db) by done.
  assert (bool_decide (data_index_seq db ∈
            dat_index <$> data db ++ [mkData (data_index_seq db) userId type key
                                             (jsonToString object)]) = true) as ->.
  { apply bool_decide_eq_true_2. rewrite fmap_app. apply elem_of_app. right. left. }
  by rewrite andb_false_r.
Qed.

(** X6. A new account, a second device, a first save: after [createIdentity]
    for device A, [identify] of device B under the new identity and [save]
    by device A, all with a driver that reports no error, the tables hold
    the two device rows, the one data row and exactly one new states row,
    which marks the data row for device B and not for device A. *)
Theorem first_save_marks_the_second_device
    identity deviceA deviceB type key object db :
  consistent db → identity ∉ users db → deviceA ≠ deviceB →
  let db1 := (createIdentity all_ok identity deviceA db).2 in
  let db2 := (identify all_ok identity deviceB db1).2 in
  let db3 := (save all_ok identity deviceA type key object db2).2 in
  (identify all_ok identity deviceB db1).1 = true ∧
  (save all_ok identity deviceA type key object db2).1 = true ∧
  devices db3 = devices db ++ [mkDevice (devices_id_seq db) deviceA identity;
                               mkDevice (devices_id_seq db + 1) deviceB identity] ∧
  data db3 = data db ++ [mkData (data_index_seq db) identity type key
                                (jsonToString object)] ∧
  states db3 = states db ++ [mkState (data_index_seq db) (devices_id_seq db + 1)].
Proof.
  intros Hc Hu Hab db1 db2 db3.
  pose proof (createIdentity_consistent all_ok identity deviceA db Hc) as Hc1.
  fold db1 in Hc1.
  assert (db1 = {| users := users db ++ [identity];
                   devices := devices db ++ [mkDevice (devices_id_seq db) deviceA identity];
                   data := data db; states := states db;
                   devices_id_seq := devices_id_seq db + 1;
                   data_index_seq := data_index_seq db |}) as E1.
  { unfold db1. by rewrite createIdentity_fresh. }
  assert (identity ∈ users db1) as Hu1.
  { rewrite E1. simpl. apply elem_of_app. right. left. }
  assert (¬ device_registered deviceB identity db1) as Hreg.
  { intros (d & Hd & HdB & HdU). rewrite E1 in Hd. simpl in Hd.
    apply elem_of_app in Hd as [Hd|Hd%list_elem_of_singleton].
    - by apply (no_device_of_new_user identity db d).
    - subst d. simpl in HdB. done. }
  pose proof (identify_consistent all_ok identity deviceB db1 Hc1) as Hc2.
  fold db2 in Hc2.
  pose proof (identify_new_device identity deviceB db1 Hc1 Hu1 Hreg) as E2.
  assert (db2 = add_device (mkDevice (devices_id_seq db1) deviceB identity)
                           (next_device_id db1)) as E2'.
  { unfold db2. by rewrite E2. }
  assert (select_index identity type key db2 = []) as Hsel.
  { destruct (select_index identity type key db2) as [|index rest] eqn:Hs; [done|].
    assert (index ∈ select_index identity type key db2) as Hin by (rewrite Hs; left).
    apply select_index_elem in Hin as (r & Hr & _ & Hru & _).
    rewrite E2', E1 in Hr. simpl in Hr.
    pose proof (data_fk db Hc) as Hfk. rewrite Forall_forall in Hfk.
    specialize (Hfk r Hr). simpl in Hfk. congruence. }
  assert (identity ∈ users db2) as Hu2 by (by rewrite E2').
  pose proof (save_new_key identity deviceA type key object db2 Hc2 Hu2 Hsel) as E3.
  assert (select_peers (data_index_seq db2) identity deviceA db2
          = [mkState (data_index_seq db) (devices_id_seq db + 1)]) as Hpeers.
  { unfold select_peers. rewrite E2', E1. simpl.
    rewrite <- app_assoc. simpl. rewrite filter_app.
    assert (filter (λ d, (dev_userid d =? identity) && negb (dev_deviceid d =? deviceA) = true)
                   (devices db) = []) as ->.
    { destruct (filter _ (devices db)) as [|d l] eqn:Hf; [done|].
      assert (d ∈ filter (λ d, (dev_userid d =? identity)
                               && negb (dev_deviceid d =? deviceA) = true)
                         (devices db)) as Hd by (rewrite Hf; left).
      apply list_elem_of_filter in Hd as [Hp Hd].
      apply andb_true_iff in Hp as [Hp%Z.eqb_eq _].
      by destruct (no_device_of_new_user identity db d). }
    rewrite !filter_cons, filter_nil. simpl.
    rewrite !Z.eqb_refl. simpl.
    assert ((deviceB =? deviceA) = false) as -> by (apply Z.eqb_neq; congruence).
    done. }
  split; [by rewrite E2|]. split; [unfold db3; by rewrite E3|].
  unfold db3. rewrite E3. simpl. rewrite Hpeers. simpl.
  split_and!.
  - rewrite E2', E1. simpl. by rewrite <- app_assoc.
  - by rewrite E2', E1.
  - unfold add_state. rewrite bool_decide_eq_false_2; [by rewrite E2', E1|].
    rewrite E2', E1. simpl. intros Hin.
    pose proof (states_fk_data db Hc) as Hfk. rewrite Forall_forall in Hfk.
    specialize (Hfk _ Hin). simpl in Hfk.
    apply list_elem_of_fmap in Hfk as (r & Hi & Hr).
    pose proof (data_seq db Hc) as Hs. rewrite Forall_forall in Hs.
    specialize (Hs r Hr). simpl in Hs. lia.
Qed.

Lemma first_save_marks_the_second_device_witness :
  states (save all_ok 9 30 "t" "k" "{x}"
            (identify all_ok 9 40 (createIdentity all_ok 9 30 db_two_devices).2).2).2
  = states db_two_devices ++ [mkState 2 4].
Proof.
  destruct (first_save_marks_the_second_device 9 30 40 "t" "k" "{x}" db_two_devices
              db_two_devices_consistent) as (_ & _ & _ & _ & Hst).
  - apply (bool_decide_unpack _). vm_compute. exact I.
  - lia.
  - exact Hst.
Defined.

(** X7. A successful [identify] leaves the device registered under the
    identity, touches no table but devices, and is idempotent on the rows:
    identifying the same device again, whatever the driver does, changes
    no row. *)
Theorem identify_registers_once drv identity deviceId db db1 :
  consistent db →
  identify drv identity deviceId db = (true, db1) →
  device_registered deviceId identity db1 ∧
  users db1 = users db ∧ data db1 = data db ∧ states db1 = states db ∧
  (∀ d, d ∈ devices db → d ∈ devices db1) ∧
  ∀ drv2, rows (identify drv2 identity deviceId db1).2 = rows db1.
Proof.
  intros Hc Hid.
  pose proof (identify_consistent drv identity deviceId db Hc) as Hc1.
  rewrite Hid in Hc1. simpl in Hc1.
  unfold identify, exec in Hid.
  destruct (drv IdentifyQuery); simpl in Hid; [|done].
  destruct (user_exists identity db) eqn:Hu; [|done].
  destruct (drv CreateDeviceQuery); simpl in Hid; [|done].
  unfold insert_device_on_conflict_do_nothing in Hid. rewrite Hu in Hid. simpl in Hid.
  assert (device_registered deviceId identity db1 ∧
          users db1 = users db ∧ data db1 = data db ∧ states db1 = states db ∧
          (∀ d, d ∈ devices db → d ∈ devices db1)) as (Hreg & Hus & Hda & Hst & Hds).
  { destruct (device_conflict _ _ _ _) eqn:Hconf; injection Hid as <-; simpl.
    - apply device_conflict_registered in Hconf; [|done]. by split_and!.
    - split_and!; try done.
      + exists (mkDevice (devices_id_seq db) deviceId identity). split; [|done].
        apply elem_of_app. right. left.
      + intros d Hd. apply elem_of_app. by left. }
  split_and!; try done.
  intros drv2. unfold identify, exec.
  destruct (drv2 IdentifyQuery); simpl; [|done].
  unfold user_exists in *. rewrite Hus, Hu.
  destruct (drv2 CreateDeviceQuery); simpl; [|done].
  unfold insert_device_on_conflict_do_nothing, user_exists. rewrite Hus, Hu. simpl.
  apply (device_conflict_registered _ _ _ Hc1) in Hreg. by rewrite Hreg.
Qed.

Lemma identify_registers_once_witness :
  device_registered 30 7 (identify all_ok 7 30 db_two_devices).2 ∧
  rows (identify all_ok 7 30 (identify all_ok 7 30 db_two_devices).2).2
  = rows (identify all_ok 7 30 db_two_devices).2.
Proof.
  destruct (identify_registers_once all_ok 7 30 db_two_devices
              (identify all_ok 7 30 db_two_devices).2
              db_two_devices_consistent eq_refl) as (Hreg & _ & _ & _ & _ & Hagain).
  split; [exact Hreg | exact (Hagain all_ok)].
Defined.

End DatabaseInvariants.

(** * The creation of the tables *)
Module DatabaseSetupFacts.
Import DatabaseSetup.

#[local] Set Warnings "-clear-no-such-hyp".

Lemma create_if_missing_cases drv q tables :
  (create_if_missing drv q tables = Some tables ∧ table q ∈ tables) ∨
  (create_if_missing drv q tables = Some (tables ++ [table q]) ∧ (table q ∉ tables) ∧
   drv (table q) = true ∧ ∀ r, r ∈ references q → r ∈ tables) ∨
  (create_if_missing drv q tables = None ∧ (table q ∉ tables) ∧
   (drv (table q) = false ∨ ∃ r, r ∈ references q ∧ r ∉ tables)).
Proof.
  unfold create_if_missing, exec.
  destruct (decide (table q ∈ tables)) as [Hin|Hin].
  { left. by rewrite bool_decide_eq_true_2. }
  right. rewrite !bool_decide_eq_false_2 by done. simpl.
  destruct (drv (table q)); simpl; [|right; split_and!; [done|done|by left]].
  destruct (forallb _ (references q)) eqn:Hrefs; simpl.
  - left. split_and!; try done. intros r Hr%list_elem_of_In.
    rewrite forallb_forall in Hrefs. exact (bool_decide_eq_true_1 _ (Hrefs r Hr)).
  - right. split_and!; try done. right.
    destruct (decide (Forall (fun r => r ∈ tables) (references q))) as [Hall|Hnot].
    + rewrite Forall_forall in Hall.
      assert (forallb (λ t, bool_decide (t ∈ tables)) (references q) = true) as Ht;
        [|congruence].
      apply forallb_forall. intros r Hr%list_elem_of_In.
      by apply bool_decide_eq_true_2, Hall.
    + apply not_Forall_Exists in Hnot; [|apply _].
      apply Exists_exists in Hnot as (r & Hr & Hnr). by exists r.
Qed.

Lemma create_if_missing_all_ok q tables :
  (∀ r, r ∈ references q → r ∈ tables) →
  ∃ t', create_if_missing all_ok q tables = Some t' ∧ table q ∈ t' ∧
        ∀ t, t ∈ tables → t ∈ t'.
Proof.
  intros Hrefs.
  destruct (create_if_missing_cases all_ok q tables)
    as [[E H]|[(E & _)|(_ & _ & [?|(r & Hr & Hno)])]].
  - by exists tables.
  - exists (tables ++ [table q]). split_and!; [done|set_solver|set_solver].
  - done.
  - destruct Hno. by apply Hrefs.
Qed.

Lemma create_if_missing_extends drv q tables t' :
  create_if_missing drv q tables = Some t' →
  ∃ new, t' = tables ++ new ∧ ∀ t, t ∈ new → t = table q ∧ t ∉ tables.
Proof.
  intros E.
  destruct (create_if_missing_cases drv q tables)
    as [[E' H]|[(E' & H & _)|(E' & _)]]; rewrite E' in E; [| |done].
  - injection E as <-. exists []. split; [by rewrite app_nil_r|set_solver].
  - injection E as <-. exists [table q]. split; [done|set_solver].
Qed.

(** X8. [initDatabase] never drops a table and creates only tables of the
    schema that were missing; with a driver that reports no error all four
    tables exist afterwards, whichever of them existed before, and running
    it again, with any driver, changes nothing. *)
Theorem initDatabase_completes_the_schema tables :
  (∀ drv, ∃ new, initDatabase drv tables = tables ++ new ∧
                 ∀ t, t ∈ new → t ∈ schema ∧ t ∉ tables) ∧
  (∀ t, t ∈ schema → t ∈ initDatabase all_ok tables) ∧
  (∀ drv, initDatabase drv (initDatabase all_ok tables) = initDatabase all_ok tables).
Proof.
  assert (∀ drv tbl, (∀ t, t ∈ schema → t ∈ tbl) → initDatabase drv tbl = tbl) as Hfull.
  { intros drv tbl Hall. unfold initDatabase, create_if_missing. simpl.
    assert (∀ t, t ∈ schema → bool_decide (t ∈ tbl) = true) as Hb.
    { intros t Ht. by apply bool_decide_eq_true_2, Hall. }
    rewrite (Hb "users") by (unfold schema; set_solver). simpl.
    rewrite (Hb "devices") by (unfold schema; set_solver). simpl.
    rewrite (Hb "data") by (unfold schema; set_solver). simpl.
    by rewrite (Hb "states") by (unfold schema; set_solver). }
  assert (∀ t, t ∈ schema → t ∈ initDatabase all_ok tables) as Hall.
  { unfold initDatabase.
    destruct (create_if_missing_all_ok createUsers tables) as (t1 & -> & Hq1 & Hs1);
      [set_solver|].
    destruct (create_if_missing_all_ok createDevices t1) as (t2 & -> & Hq2 & Hs2);
      [simpl; set_solver|].
    destruct (create_if_missing_all_ok createData t2) as (t3 & -> & Hq3 & Hs3);
      [simpl; set_solver|].
    destruct (create_if_missing_all_ok createStates t3) as (t4 & -> & Hq4 & Hs4);
      [simpl; set_solver|].
    unfold schema. simpl in *. set_solver. }
  split_and!; [|done|by intros drv; apply Hfull].
  intros drv. unfold initDatabase.
  destruct (create_if_missing drv createUsers tables) as [t1|] eqn:E1;
    [|exists []; rewrite app_nil_r; set_solver].
  apply create_if_missing_extends in E1 as (n1 & -> & H1).
  destruct (create_if_missing drv createDevices _) as [t2|] eqn:E2;
    [|exists n1; unfold schema; simpl in *; set_solver].
  apply create_if_missing_extends in E2 as (n2 & -> & H2).
  destruct (create_if_missing drv createData _) as [t3|] eqn:E3;
    [|exists (n1 ++ n2); rewrite app_assoc; unfold schema; simpl in *; set_solver].
  apply create_if_missing_extends in E3 as (n3 & -> & H3).
  destruct (create_if_missing drv createStates _) as [t4|] eqn:E4;
    [|exists (n1 ++ n2 ++ n3); rewrite !app_assoc; unfold schema; simpl in *; set_solver].
  apply create_if_missing_extends in E4 as (n4 & -> & H4).
  exists (n1 ++ n2 ++ n3 ++ n4). rewrite !app_assoc. unfold schema. simpl in *. set_solver.
Qed.

Lemma create_if_missing_fails drv q tables :
  table q ∉ tables → drv (table q) = false → create_if_missing drv q tables = None.
Proof.
  intros Hin Hdrv. unfold create_if_missing, exec.
  rewrite bool_decide_eq_false_2 by done. simpl. by rewrite Hdrv.
Qed.

(** X9. [initDatabase] returns at the first CREATE TABLE that fails: the
    table that could not be created is still missing, and no table that
    comes after it in the schema is created. *)
Theorem initDatabase_stops_at_first_failure drv tables pre q post :
  schema = pre ++ q :: post → q ∉ tables → drv q = false →
  (q ∉ initDatabase drv tables) ∧
  ∀ t, t ∈ post → t ∈ initDatabase drv tables → t ∈ tables.
Proof.
  unfold schema. intros Hsch Hq Hdrv. unfold initDatabase.
  destruct pre as [|p1 [|p2 [|p3 [|p4 pre]]]]; simpl in Hsch;
    [| | | |by destruct pre]; injection Hsch as <-; subst.
  - rewrite create_if_missing_fails by done. set_solver.
  - destruct (create_if_missing drv createUsers tables) as [t1|] eqn:E1; [|set_solver].
    apply create_if_missing_extends in E1 as (n1 & -> & H1). simpl in *.
    rewrite create_if_missing_fails; [set_solver|set_solver|done].
  - destruct (create_if_missing drv createUsers tables) as [t1|] eqn:E1; [|set_solver].
    apply create_if_missing_extends in E1 as (n1 & -> & H1). simpl in *.
    destruct (create_if_missing drv createDevices _) as [t2|] eqn:E2; [|set_solver].
    apply create_if_missing_extends in E2 as (n2 & -> & H2). simpl in *.
    rewrite create_if_missing_fails; [set_solver|set_solver|done].
  - destruct (create_if_missing drv createUsers tables) as [t1|] eqn:E1; [|set_solver].
    apply create_if_missing_extends in E1 as (n1 & -> & H1). simpl in *.
    destruct (create_if_missing drv createDevices _) as [t2|] eqn:E2; [|set_solver].
    apply create_if_missing_extends in E2 as (n2 & -> & H2). simpl in *.
    destruct (create_if_missing drv createData _) as [t3|] eqn:E3; [|set_solver].
    apply create_if_missing_extends in E3 as (n3 & -> & H3). simpl in *.
    rewrite create_if_missing_fails; [set_solver|set_solver|done].
Qed.

Lemma initDatabase_stops_at_first_failure_witness :
  ("devices" ∉ initDatabase (fun t => negb (bool_decide (t = "devices"))) ["users"]) ∧
  ∀ t, t ∈ ["data"; "states"] →
       t ∈ initDatabase (fun t => negb (bool_decide (t = "devices"))) ["users"] →
       t ∈ ["users"].
Proof.
  apply (initDatabase_stops_at_first_failure
           (fun t => negb (bool_decide (t = "devices"))) ["users"]
           ["users"] "devices" ["data"; "states"]).
  - reflexivity.
  - apply (bool_decide_unpack _). vm_compute. exact I.
  - reflexivity.
Defined.

Lemma initDatabase_completes_the_schema_witness :
  "users" ∈ initDatabase all_ok ["data"].
Proof.
  apply (proj1 (proj2 (initDatabase_completes_the_schema ["data"]))).
  apply (bool_decide_unpack _). vm_compute. exact I.
Defined.

End DatabaseSetupFacts.

(** * Frames, proofs and exports at the remote connector *)
Module ConnectorExtras.
Import RemoteConnector ConnectorSlots ConnectorFacts.

Section Frames.
Context {Crypto CryptoInfo : Type} `{!Externals Crypto CryptoInfo}.

Abbreviation RC := (RC Crypto CryptoInfo).
Abbreviation M := (@M Crypto CryptoInfo).

Lemma isActive_other (s : State) (rc : RC) :
  state (_stateMachine rc) ≠ s → isActive s rc = false.
Proof. intros Hs. unfold isActive. by apply bool_decide_eq_false_2. Qed.

Lemma checked_out_of_idle (k : M unit) (rc : RC) :
  state (_stateMachine rc) ≠ Idle →
  (idle ← checkIdle; if (idle : bool) then k else mret tt) rc = triggerError true rc.
Proof.
  intros Hs. rewrite (run_bind_returns _ _ _ _ _ (checkIdle_busy rc (isActive_other _ _ Hs))).
  reflexivity.
Qed.

(** X10. A message that arrives out of its state is dropped with a
    recoverable error: an AccountMessage out of Registering, a
    WelcomeMessage out of LoggingIn, a ProofMessage, MacUpdateAck, ChangeAck
    or LastChanged out of Idle, a message of an unknown type and a frame
    that does not deserialize all do what [triggerError(true)] does and
    nothing else: nothing is sent, stored or emitted. *)
Theorem unexpected_frame_is_basic_error (rc : RC) :
  (∀ deviceId, state (_stateMachine rc) ≠ Registering →
     binaryMessageReceived (FAccount deviceId) rc = triggerError true rc) ∧
  (∀ m, state (_stateMachine rc) ≠ LoggingIn →
     binaryMessageReceived (FWelcome m) rc = triggerError true rc) ∧
  (∀ frame, state (_stateMachine rc) ≠ Idle →
     (∃ m, frame = FProof m) ∨ frame = FMacUpdateAck ∨
     (∃ dataId, frame = FChangeAck dataId) ∨ frame = FLastChanged →
     binaryMessageReceived frame rc = triggerError true rc) ∧
  (∀ name, binaryMessageReceived (FUnknown name) rc = triggerError true rc) ∧
  binaryMessageReceived FMalformed rc = triggerError true rc.
Proof.
  split_and!.
  - intros deviceId Hs. unfold binaryMessageReceived, onAccount, catch_all. msimpl.
    by rewrite (isActive_other _ _ Hs).
  - intros m Hs. unfold binaryMessageReceived, onWelcome, catch_all. msimpl.
    by rewrite (isActive_other _ _ Hs).
  - intros frame Hs Hframe. unfold binaryMessageReceived, catch_all.
    destruct Hframe as [[m ->]|[->|[[dataId ->]| ->]]];
      unfold onProof, onMacUpdateAck, onChangeAck, onLastChanged;
      by rewrite checked_out_of_idle.
  - reflexivity.
  - reflexivity.
Qed.

(** X11. No exception leaves [binaryMessageReceived]: whatever a handler
    throws is caught there and handed to [triggerError] or [onError], which
    do not throw. *)
Theorem frame_handler_never_throws (frame : Frame) (rc rc' : RC) o :
  binaryMessageReceived frame rc = Some (o, rc') → o = Returns tt.
Proof.
  unfold binaryMessageReceived, catch_all.
  destruct frame;
    [ by intros [= <- <-] | .. ];
    match goal with
    | |- match ?m rc with _ => _ end = _ → _ =>
        destruct (m rc) as [[[[]|e] r]|]; [by intros [= <- <-] | | done]
    end;
    destruct e; unfold onError, triggerError, submitEvent, clientError; msimpl;
    try destruct clientError_canRecover; msimpl; by intros [= <- <-].
Qed.

(** ** Answers to a proof *)

(** Breaks a goal [keeps P m] down along the structure of [m]. *)
Ltac inv_step leaf :=
  lazymatch goal with
  | |- keeps _ (mret _) => apply keeps_ret
  | |- keeps _ (throw _) => apply keeps_throw
  | |- keeps _ crash => apply keeps_crash
  | |- keeps _ (lift _) => apply keeps_lift
  | |- keeps _ (get ≫= _) => apply keeps_bind_get; intros ? ?
  | |- keeps _ (_ ≫= _) => apply keeps_bind; [| intros ?]
  | |- keeps _ (catch_Exception _ _) => apply keeps_catch_Exception; [| intros ?]
  | |- keeps _ (catch_all _ _) => apply keeps_catch_all; [| intros ?]
  | |- keeps _ (modify _) => apply keeps_modify; intros ? ?; leaf
  | |- keeps _ (if ?b then _ else _) => destruct b
  | |- keeps _ (match ?x with _ => _ end) => destruct x
  | |- keeps _ (let _ := _ in _) => cbv zeta
  end.

Ltac inv_auto leaf := repeat (first [assumption | inv_step leaf]).

Lemma set_activeProofs_same (rc : RC) : set_activeProofs (_activeProofs rc) rc = rc.
Proof. by destruct rc. Qed.

(** Without a proof of [deviceId] on hold, a reply and the timer of the
    proof do nothing. *)
Lemma no_proof_no_answer (deviceId : QUuid) (rc : RC) :
  _activeProofs rc !! deviceId = None →
  (∀ accept, loginReply deviceId accept rc = Some (Returns tt, rc)) ∧
  proofTimerFired deviceId rc = Some (Returns tt, rc).
Proof.
  intros Hnone. split.
  - intros accept. unfold loginReply. msimpl. destruct (isIdle rc); [|done]. msimpl.
    rewrite Hnone. msimpl. by rewrite (delete_id _ _ Hnone), set_activeProofs_same.
  - unfold proofTimerFired. msimpl. by rewrite Hnone.
Qed.

(** X12. A proof is answered at most once.  Once [loginReply] has run in
    Idle for a device, or the timer of its proof has fired, the proof is off
    [_activeProofs], whether the answer went out or an exception cut it
    short; a later reply, accept or deny, and a later timer of that device
    then send nothing and leave the connector as it is. *)
Theorem proof_answered_at_most_once (deviceId : QUuid) (accept : bool) (rc rc' : RC) o :
  (isIdle rc = true ∧ loginReply deviceId accept rc = Some (o, rc')) ∨
  proofTimerFired deviceId rc = Some (o, rc') →
  _activeProofs rc' !! deviceId = None ∧
  (∀ again, loginReply deviceId again rc' = Some (Returns tt, rc')) ∧
  proofTimerFired deviceId rc' = Some (Returns tt, rc').
Proof.
  intros Hrun.
  assert (_activeProofs rc' !! deviceId = None) as Hnone.
  { destruct Hrun as [[Hidle Hrun]|Hrun].
    - unfold loginReply in Hrun. msimpl_in Hrun. rewrite Hidle in Hrun. cbn in Hrun.
      revert Hrun.
      change (catch_Exception
                (match _activeProofs rc !! deviceId with
                 | Some crypto =>
                     if accept
                     then '(index, scheme, secret) ←
                            lift (encryptSecretKey (_cryptoController rc) crypto);
                          sendMessage (AcceptMessage deviceId index scheme secret);;
                          emit (prepareAddedData deviceId);;
                          emit (accountAccessGranted deviceId)
                     else sendMessage (DenyMessage deviceId)
                 | None => mret tt
                 end)
                (fun _ => sendMessage (DenyMessage deviceId))
                (set_activeProofs (delete deviceId (_activeProofs rc)) rc) = Some (o, rc')
              → _activeProofs rc' !! deviceId = None).
      apply (keeps_catch_Exception (fun r : RC => _activeProofs r !! deviceId = None)).
      + unfold sendMessage, sendBinaryMessage, emit, effect.
        inv_auto ltac:(done).
      + intros what. unfold sendMessage, sendBinaryMessage, effect. inv_auto ltac:(done).
      + cbn. apply lookup_delete_eq.
    - unfold proofTimerFired, sendMessage, sendBinaryMessage in Hrun. msimpl_in Hrun.
      destruct (_activeProofs rc !! deviceId) eqn:Hp; msimpl_in Hrun.
      + destruct (_socket rc); [|done]. injection Hrun as _ <-. cbn.
        apply lookup_delete_eq.
      + by injection Hrun as _ <-. }
  split; [done|]. by apply no_proof_no_answer.
Qed.

(** X13. An accept that cannot be carried out is a deny: when the owner
    accepts a proof on hold and the secret key cannot be encrypted for the
    peer, [loginReply] sends a DenyMessage; no AcceptMessage goes out and
    the access is not announced as granted. *)
Theorem failed_accept_is_denied (deviceId : QUuid) (info : CryptoInfo) (what : string)
    (rc : RC) :
  isIdle rc = true → _socket rc ≠ None →
  _activeProofs rc !! deviceId = Some info →
  encryptSecretKey (_cryptoController rc) info = Throws (Exception what) →
  loginReply deviceId true rc =
    Some (Returns tt,
          set_effects (effects rc ++ [Sent (DenyMessage deviceId)])
            (set_activeProofs (delete deviceId (_activeProofs rc)) rc)).
Proof.
  intros Hidle Hsock Hproof Henc.
  unfold loginReply, sendMessage, sendBinaryMessage. msimpl.
  rewrite Hidle. msimpl. rewrite Hproof. msimpl. rewrite Henc. msimpl.
  by destruct (_socket rc).
Qed.

(** X14. A proof whose cmac does not verify under the export key is
    denied: in Idle, [onProof] takes the export out of the cache, sends a
    DenyMessage and nothing else; the proof is not put on hold, the owner is
    not asked and no timer is started. *)
Theorem proof_with_bad_cmac_is_denied (m : ProofMessage) (key : QByteArray)
    (what : string) (rc : RC) :
  isIdle rc = true → _socket rc ≠ None →
  _exportsCache rc !! pNonce m = Some key → key ≠ "" →
  verifyImportCmac (_cryptoController rc) (macscheme m) key
    (pNonce m +:+ toRfc4122 (_deviceId rc) +:+ macscheme m) (cmac m)
    = Throws (Exception what) →
  onProof m rc =
    Some (Returns tt,
          set_effects (effects rc ++ [Sent (DenyMessage (deviceId m))])
            (set_exportsCache (delete (pNonce m) (_exportsCache rc)) rc)).
Proof.
  intros Hidle Hsock Hcache Hkey Hcmac.
  unfold onProof. rewrite (run_bind_returns _ _ _ _ _ (checkIdle_idle rc Hidle)).
  cbv beta iota. rewrite run_catch_get, run_catch_modify.
  unfold sendMessage, sendBinaryMessage.
  msimpl. rewrite Hcache. msimpl. rewrite bool_decide_eq_false_2 by done.
  msimpl. rewrite Hcmac. msimpl. by destruct (_socket rc).
Qed.

(** X15. A proof whose keys cannot be read gets no answer: the exception
    of the crypto library is not the one [onProof] catches, so no
    DenyMessage is sent; [binaryMessageReceived] catches it and reports a
    client error.  The export is used up all the same. *)
Theorem proof_with_unreadable_keys_is_a_client_error (m : ProofMessage)
    (key : QByteArray) (what : string) (rc : RC) :
  isIdle rc = true →
  _exportsCache rc !! pNonce m = Some key → key ≠ "" →
  verifyImportCmac (_cryptoController rc) (macscheme m) key
    (pNonce m +:+ toRfc4122 (_deviceId rc) +:+ macscheme m) (cmac m) = Returns tt →
  createCryptoInfo (_cryptoController rc) (signAlgorithm m) (signKey m)
    (cryptAlgorithm m) (cryptKey m) = Throws (CryptoPPException what) →
  onProof m rc =
    Some (Throws (CryptoPPException what),
          set_exportsCache (delete (pNonce m) (_exportsCache rc)) rc) ∧
  binaryMessageReceived (FProof m) rc =
    onError (clientError what)
            (set_exportsCache (delete (pNonce m) (_exportsCache rc)) rc) ∧
  ∀ o rc', binaryMessageReceived (FProof m) rc = Some (o, rc') →
           replies (effects rc') = replies (effects rc) ∧
           _activeProofs rc' = _activeProofs rc.
Proof.
  intros Hidle Hcache Hkey Hcmac Hinfo.
  assert (onProof m rc =
            Some (Throws (CryptoPPException what),
                  set_exportsCache (delete (pNonce m) (_exportsCache rc)) rc)) as Hrun.
  { unfold onProof. rewrite (run_bind_returns _ _ _ _ _ (checkIdle_idle rc Hidle)).
    cbv beta iota. rewrite run_catch_get, run_catch_modify.
    msimpl. rewrite Hcache. msimpl. rewrite bool_decide_eq_false_2 by done.
    msimpl. rewrite Hcmac, Hinfo. reflexivity. }
  assert (binaryMessageReceived (FProof m) rc =
            onError (clientError what)
                    (set_exportsCache (delete (pNonce m) (_exportsCache rc)) rc)) as Hframe.
  { unfold binaryMessageReceived, catch_all. by rewrite Hrun. }
  split_and!; [done | done |].
  intros o rc'. rewrite Hframe.
  unfold onError, triggerError, submitEvent, clientError. msimpl.
  destruct clientError_canRecover; msimpl; intros [= _ <-]; cbn; [done|].
  by rewrite replies_snoc.
Qed.

(** ** Exports, the cmac flag, the retry timer *)

(** X16. [exportAccount] of a connector that is not registered throws and
    changes nothing.  When it returns, the key of the export is in the
    export cache under the nonce of the export data, the data names this
    device as the partner and is trusted exactly when a password was given,
    and nothing was sent or emitted.  When it throws, the export cache is as
    it was. *)
Theorem exportAccount_registers_the_export (includeServer : bool)
    (password : option string) (rc : RC) :
  (isNull (_deviceId rc) = true →
     exportAccount includeServer password rc =
       Some (Throws (Exception "Cannot export data without beeing registered on a server."),
             rc)) ∧
  (∀ data salt key rc',
     exportAccount includeServer password rc = Some (Returns (data, salt, key), rc') →
     isNull (_deviceId rc) = false ∧
     _exportsCache rc' = <[exp_pNonce data := key]> (_exportsCache rc) ∧
     exp_partnerId data = _deviceId rc ∧
     exp_trusted data = bool_decide (password ≠ None) ∧
     exp_config data = (if includeServer then Some (loadConfig rc) else None) ∧
     effects rc' = effects rc) ∧
  (∀ e rc',
     exportAccount includeServer password rc = Some (Throws e, rc') →
     _exportsCache rc' = _exportsCache rc).
Proof.
  unfold exportAccount. msimpl. destruct (isNull (_deviceId rc)).
  { split_and!; [done | done |]. by intros e rc' [= _ <-]. }
  destruct (rng_GenerateBlock (_cryptoController rc) NonceSize) as [nonce c]. msimpl.
  destruct (generateExportKey c password) as [[[scheme salt] key]|e1]; msimpl.
  2:{ split_and!; [done | done |]. by intros e rc' [= _ <-]. }
  destruct (createExportCmac c scheme key (signData nonce (_deviceId rc) scheme))
    as [cmac|e2]; msimpl.
  2:{ split_and!; [done | done |]. by intros e rc' [= _ <-]. }
  split_and!; [done | | done].
  intros data salt' key' rc' [= <- _ <- <-]. cbn. by split_and!.
Qed.

(** X17. The cmac flag lasts until the server acknowledges.  [sendKeyUpdate]
    sets [sendCmac] in the settings before anything else, so the flag is set
    whether the MacUpdateMessage went out or the call threw; a MacUpdateAck
    that arrives in Idle removes it, and the flag then reads false; one that
    arrives out of Idle leaves the settings alone. *)
Theorem cmac_flag_lasts_until_acknowledged (rc : RC) :
  (∀ o rc', sendKeyUpdate rc = Some (o, rc') →
            toBool (sValue keySendCmac rc') = true) ∧
  (isIdle rc = true →
     ∃ rc', onMacUpdateAck rc = Some (Returns tt, rc') ∧
            toBool (sValue keySendCmac rc') = false) ∧
  (isIdle rc = false →
     ∀ o rc', onMacUpdateAck rc = Some (o, rc') → settings rc' = settings rc).
Proof.
  split_and!.
  - intros o rc'. unfold sendKeyUpdate, setValue, sendMessage, sendBinaryMessage. msimpl.
    assert (∀ r : RC, settings r = <[keySendCmac := VBool true]> (settings rc) →
                      toBool (sValue keySendCmac r) = true) as Hset.
    { intros r Hr. unfold sValue. by rewrite Hr, lookup_insert_eq. }
    destruct (generateEncryptionKeyCmac (_cryptoController rc)); msimpl.
    + destruct (_socket rc); [|done]. intros [= _ <-]. by apply Hset.
    + intros [= _ <-]. by apply Hset.
  - intros Hidle. eexists. split.
    + unfold onMacUpdateAck. rewrite (run_bind_returns _ _ _ _ _ (checkIdle_idle rc Hidle)).
      reflexivity.
    + unfold sValue. cbn. rewrite lookup_delete_eq. reflexivity.
  - intros Hidle o rc'. unfold onMacUpdateAck.
    rewrite (run_bind_returns _ _ _ _ _ (checkIdle_busy rc Hidle)).
    by intros [= _ <-].
Qed.

(** X18. A retry timer that fires after the connection made it to Idle does
    nothing: [onEntryIdleState] leaves the retry index at 0, whatever else it
    does, and the timer reconnects only when the index is not 0; after
    [scheduleRetry] it is not, and the timer calls [reconnect]. *)
Theorem stale_retry_timer_is_ignored (rc : RC) :
  (∀ o rc1, onEntryIdleState rc = Some (o, rc1) →
            retryTimerFired rc1 = Some (Returns tt, rc1)) ∧
  (∀ rc1, scheduleRetry rc = Some (Returns tt, rc1) →
          retryTimerFired rc1 = reconnect rc1).
Proof.
  split.
  - intros o rc1 Hrun.
    assert (_retryIndex rc1 = 0) as Hzero.
    { revert Hrun. unfold onEntryIdleState.
      change ((modify (set_retryIndex 0) ≫= ?k) rc) with (k tt (set_retryIndex 0 rc)).
      apply (keeps_bind_get (fun r : RC => _retryIndex r = 0)); [|done].
      intros r0 Hr0. unfold initKeyUpdate, onError, triggerError, submitEvent,
        sendMessage, sendBinaryMessage, emit, effect.
      inv_auto ltac:(done). }
    unfold retryTimerFired. msimpl. by rewrite Hzero.
  - intros rc1. unfold scheduleRetry, retry. msimpl.
    assert (∀ r : RC, _retryIndex r ≠ 0 → retryTimerFired r = reconnect r) as Hfire.
    { intros r Hr. unfold retryTimerFired. msimpl.
      by apply Z.eqb_neq in Hr as ->. }
    change (Z.of_nat 5) with 5.
    destruct (5 <=? _retryIndex rc) eqn:Hcap; msimpl.
    + intros [= <-]. apply Hfire. cbn. apply Z.leb_le in Hcap. lia.
    + destruct (_retryIndex rc <? 0) eqn:Hneg; msimpl; [done|].
      apply Z.ltb_ge in Hneg.
      destruct (Timeouts !! Z.to_nat (_retryIndex rc)); msimpl; [|done].
      intros [= <-]. apply Hfire. cbn. lia.
Qed.

(** ** Resync and the errors of the socket *)

(** X19. [resync] out of Idle is ignored without an error: nothing is
    sent, emitted or submitted to the machine, and the connector is as it
    was.  In Idle it announces RemoteReadyWithChanges and sends a
    SyncMessage; the LastChanged that ends the download then clears the
    operation timer and announces RemoteReady. *)
Theorem resync_only_in_idle (rc : RC) :
  (isIdle rc = false → resync rc = Some (Returns tt, rc)) ∧
  (isIdle rc = true → _socket rc ≠ None →
     resync rc =
       Some (Returns tt,
             set_effects (effects rc ++ [Emitted (remoteEvent RemoteReadyWithChanges);
                                         Sent SyncMessage]) rc) ∧
     (resync;; binaryMessageReceived FLastChanged) rc =
       Some (Returns tt,
             set_effects (effects rc ++ [Emitted (remoteEvent RemoteReadyWithChanges);
                                         Sent SyncMessage;
                                         Emitted (remoteEvent RemoteReady)])
               (set_opTimer None rc))).
Proof.
  split.
  - intros Hidle. unfold resync. msimpl. by rewrite Hidle.
  - intros Hidle Hsock.
    assert (resync rc =
              Some (Returns tt,
                    set_effects (effects rc ++ [Emitted (remoteEvent RemoteReadyWithChanges);
                                                Sent SyncMessage]) rc)) as Hrun.
    { unfold resync, sendMessage, sendBinaryMessage. msimpl. rewrite Hidle. msimpl.
      destruct (_socket rc); [|done]. msimpl. by rewrite <- app_assoc. }
    split; [done|].
    rewrite (run_bind_returns _ _ _ _ _ Hrun). cbv beta.
    set (r1 := set_effects _ rc).
    assert (isIdle r1 = true) as Hidle1 by exact Hidle.
    unfold binaryMessageReceived, catch_all, onLastChanged.
    rewrite (run_bind_returns _ _ _ _ _ (checkIdle_idle r1 Hidle1)).
    unfold endOp, r1. msimpl. by rewrite <- app_assoc.
Qed.



End Frames.

(** ** The theorems at work on the example connector *)
Section AtWork.
Import CryptoController Examples MoreExamples.

Ltac by_running := vm_compute; first [reflexivity | discriminate | lia | done].

Lemma unexpected_frame_is_basic_error_witness :
  binaryMessageReceived FLastChanged (connector_in Connected)
  = triggerError true (connector_in Connected).
Proof.
  destruct (unexpected_frame_is_basic_error (connector_in Connected))
    as (_ & _ & Hidle & _).
  apply Hidle; [discriminate | by right; right; right].
Defined.

Lemma frame_handler_never_throws_witness :
  binaryMessageReceived FMalformed (connector_in Idle)
    = Some (Returns tt, connector_after [OpFrame FMalformed] (connector_in Idle)) ∧
  Returns tt = Returns tt :> Outcome unit.
Proof.
  split; [by_running|].
  apply (frame_handler_never_throws FMalformed (connector_in Idle)
           (connector_after [OpFrame FMalformed] (connector_in Idle))).
  by_running.
Defined.

Lemma proof_answered_at_most_once_witness :
  proofTimerFired 9 (connector_after [OpLoginReply 9 false] connector_asked)
  = Some (Returns tt, connector_after [OpLoginReply 9 false] connector_asked).
Proof.
  destruct (proof_answered_at_most_once 9 false connector_asked
              (connector_after [OpLoginReply 9 false] connector_asked) (Returns tt))
    as (_ & _ & Htimer).
  - left. split; by_running.
  - exact Htimer.
Defined.

Lemma failed_accept_is_denied_witness :
  loginReply 9 true connector_asked_no_key =
    Some (Returns tt,
          set_effects (effects connector_asked_no_key ++ [Sent (DenyMessage 9)])
            (set_activeProofs (delete 9 (_activeProofs connector_asked_no_key))
                              connector_asked_no_key)).
Proof.
  apply (failed_accept_is_denied 9 (mkCryptoInfo "sa" "sk" "ca" "ck") "no current key"
           connector_asked_no_key); by_running.
Defined.

Lemma proof_with_bad_cmac_is_denied_witness :
  onProof proof_bad_cmac connector_exporting =
    Some (Returns tt,
          set_effects (effects connector_exporting ++ [Sent (DenyMessage 9)])
            (set_exportsCache (delete "n" (_exportsCache connector_exporting))
                              connector_exporting)).
Proof.
  apply (proof_with_bad_cmac_is_denied proof_bad_cmac "k"
           "import cmac verification failed" connector_exporting); by_running.
Defined.

Lemma proof_with_unreadable_keys_is_a_client_error_witness :
  onProof proof_bad_key connector_exporting =
    Some (Throws (CryptoPPException "invalid key"),
          set_exportsCache (delete "n" (_exportsCache connector_exporting))
                           connector_exporting).
Proof.
  destruct (proof_with_unreadable_keys_is_a_client_error proof_bad_key "k" "invalid key"
              connector_exporting) as (Hrun & _); [by_running..|].
  exact Hrun.
Defined.

Lemma exportAccount_registers_the_export_witness :
  exportAccount false None connector_unregistered =
    Some (Throws (Exception "Cannot export data without beeing registered on a server."),
          connector_unregistered).
Proof.
  apply (proj1 (exportAccount_registers_the_export false None connector_unregistered)).
  by_running.
Defined.

Lemma cmac_flag_lasts_until_acknowledged_witness :
  ∃ rc', onMacUpdateAck (connector_in Idle) = Some (Returns tt, rc') ∧
         toBool (sValue keySendCmac rc') = false.
Proof.
  apply (proj1 (proj2 (cmac_flag_lasts_until_acknowledged (connector_in Idle)))).
  by_running.
Defined.

Lemma stale_retry_timer_is_ignored_witness :
  retryTimerFired
    (set_effects [Emitted (remoteEvent RemoteReady)] (connector_in Idle))
  = Some (Returns tt,
          set_effects [Emitted (remoteEvent RemoteReady)] (connector_in Idle)).
Proof.
  apply (proj1 (stale_retry_timer_is_ignored (connector_in Idle)) (Returns tt)).
  by_running.
Defined.

Lemma resync_only_in_idle_witness :
  resync (connector_in Downloading) = Some (Returns tt, connector_in Downloading).
Proof.
  apply (proj1 (resync_only_in_idle (connector_in Downloading))). by_running.
Defined.


End AtWork.

End ConnectorExtras.

(** * Properties of the operations of the websocket connector *)
Module WsFacts.
Import WsRemoteConnector WsOperations.

Section Facts.
Variable url_isValid : string → bool.
Variable getDeviceId : string.

Lemma refused (cryptor : option Encryptor) (op : Operation) (c : Connector) :
  state (ws c) ≠ Idle → run_operation cryptor op c = Some (emit (operationFailed (refusal op)) c).
Proof.
  intros Hs. destruct op; simpl;
    unfold download, upload, remove, markUnchanged;
    by rewrite bool_decide_eq_false_2.
Qed.

(** X21. One operation at a time.  A download, upload, removal or mark in
    any state but Idle fails at once with [operationFailed] and does nothing
    else: no command is sent, the state and the operation timer stay.  In
    Idle the operation sends its one command, starts the operation timer
    and takes the connector to Operating, where every further operation is
    refused; or, for an upload whose encryption throws, it reports the
    failure, sends nothing and stays in Idle. *)
Theorem one_operation_at_a_time (cryptor : option Encryptor) (op : Operation)
    (c : Connector) :
  (state (ws c) ≠ Idle →
     run_operation cryptor op c = Some (emit (operationFailed (refusal op)) c)) ∧
  (state (ws c) = Idle → ∀ c', run_operation cryptor op c = Some c' →
     (state (ws c') = Operating ∧ operationTimer c' = true ∧
      (∃ command, actions c' = actions c ++ [Sent command]) ∧
      ∀ next, run_operation cryptor next c' = Some (emit (operationFailed (refusal next)) c')) ∨
     (∃ key object keyProperty what,
        op = Upload key object keyProperty ∧
        c' = set_state Idle (emit (operationFailed what) (set_state Operating c)))).
Proof.
  split; [apply refused|].
  intros Hidle c' Hrun.
  assert (∀ command c1, sendCommand command (set_state Operating c) = Some c1 →
            state (ws c1) = Operating ∧ operationTimer c1 = true ∧
            (∃ command, actions c1 = actions c ++ [Sent command]) ∧
            ∀ next, run_operation cryptor next c1 = Some (emit (operationFailed (refusal next)) c1)) as Hsent.
  { intros command c1. unfold sendCommand. simpl.
    destruct (socket (ws c)); [|done]. intros [= <-]. simpl.
    split_and!; [done | done | by eexists |]. intros next. by apply refused. }
  destruct op as [key kp|key object kp|key|key]; simpl in Hrun;
    unfold download, upload, remove, markUnchanged in Hrun;
    rewrite bool_decide_eq_true_2 in Hrun by done; simpl in Hrun.
  - left. destruct (sendCommand (loadCmd key) (set_state Operating c)) as [c1|] eqn:Hs;
      [|done]. simpl in Hrun.
    destruct (Hsent _ _ Hs) as (H1 & H2 & [cmd H3] & _).
    destruct cryptor; injection Hrun as <-; simpl;
      (split_and!; [done | done | by exists cmd |]); intros next;
      apply refused; simpl; by rewrite H1.
  - destruct cryptor as [cr|]; [|left; by eapply Hsent].
    destruct (encrypt cr key object kp) as [value|what]; [left; by eapply Hsent|].
    right. injection Hrun as <-. by exists key, object, kp, what.
  - left. by eapply Hsent.
  - left. by eapply Hsent.
Qed.

(** X22. [completed] ends the operation: whatever the reply, the connector
    is back in Idle and exactly one of [operationDone] and [operationFailed]
    has been emitted; a failure reply emits [operationFailed] with the error
    of the reply and leaves [decryptReply] as it is, a success reply leaves
    it cleared. *)
Theorem completed_ends_the_operation (cryptor : option Encryptor) (success : bool)
    (data error : string) (c c' : Connector) :
  completed cryptor success data error c = Some c' →
  state (ws c') = Idle ∧ socket (ws c') = socket (ws c) ∧
  (∃ s, actions c' = actions c ++ [Emitted s] ∧
        ((∃ d, s = operationDone d) ∨ (∃ t, s = operationFailed t))) ∧
  (success = false →
     actions c' = actions c ++ [Emitted (operationFailed error)] ∧
     decryptReply c' = decryptReply c) ∧
  (success = true → decryptReply c' = false).
Proof.
  unfold completed. destruct success; simpl.
  - destruct (decryptReply c) eqn:Hflag.
    + destruct cryptor as [cr|]; [|done]. simpl.
      destruct (decrypt cr (currentKey c) data (currentKeyProperty c)) as [plain|what];
        intros [= <-]; simpl; split_and!; try done; eexists; split; eauto.
    + intros [= <-]; simpl; split_and!; try done. eexists; split; eauto.
  - intros [= <-]; simpl; split_and!; try done. eexists; split; eauto.
Qed.

(** X23. [decryptReply] outlives a download that failed: the failure reply
    does not clear the flag or the key of the download, so with an
    encryptor the success reply of the next operation, whatever it is, is
    decrypted under the key of the failed download, and what is emitted is
    the outcome of that decryption. *)
Theorem failed_download_leaves_the_decrypt_flag (cr : Encryptor) (key : ObjectKey)
    (keyProperty data error : string) (c c1 c2 : Connector) :
  state (ws c) = Idle →
  download (Some cr) key keyProperty c = Some c1 →
  completed (Some cr) false data error c1 = Some c2 →
  state (ws c2) = Idle ∧ decryptReply c2 = true ∧
  currentKey c2 = key ∧ currentKeyProperty c2 = keyProperty ∧
  ∀ next reply c3 c4,
    (∀ k p, next ≠ Download k p) →
    run_operation (Some cr) next c2 = Some c3 →
    state (ws c3) = Operating →
    completed (Some cr) true reply "" c3 = Some c4 →
    actions c4 =
      actions c3 ++ [Emitted (match decrypt cr key reply keyProperty with
                              | inl plain => operationDone plain
                              | inr what => operationFailed what
                              end)].
Proof.
  intros Hidle Hdown Hfail.
  unfold download in Hdown. rewrite bool_decide_eq_true_2 in Hdown by done.
  simpl in Hdown. unfold sendCommand in Hdown. simpl in Hdown.
  destruct (socket (ws c)) as [so|] eqn:Hso; [|done]. injection Hdown as <-.
  unfold completed in Hfail. injection Hfail as <-. simpl.
  split_and!; try done.
  intros next reply c3 c4 Hnext Hrun Hop Hdone.
  assert (decryptReply c3 = true ∧ currentKey c3 = key ∧
          currentKeyProperty c3 = keyProperty) as (Hflag & Hkey & Hprop).
  { destruct next as [k p|k o p|k|k]; [by destruct (Hnext k p)|..];
      simpl in Hrun; unfold upload, remove, markUnchanged, sendCommand in Hrun;
      simpl in Hrun; rewrite Hso in Hrun; simpl in Hrun.
    - destruct (encrypt cr k o p); injection Hrun as <-; [done|].
      simpl in Hop. done.
    - by injection Hrun as <-.
    - by injection Hrun as <-. }
  unfold completed in Hdone. simpl in Hdone. rewrite Hflag, Hkey, Hprop in Hdone.
  by destruct (decrypt cr key reply keyProperty); injection Hdone as <-.
Qed.

Lemma delays_app (l k : list Action) : delays (l ++ k) = delays l ++ delays k.
Proof. unfold delays. apply omap_app. Qed.

Lemma backoff_msec_capped (k : nat) : (5 ≤ k)%nat → backoff_msec k = 300000.
Proof.
  intros Hk. unfold backoff_msec.
  do 5 (destruct k as [|k]; [lia|]). by destruct k.
Qed.

Lemma backoff_msec_next (i : Z) (k : nat) :
  0 ≤ i ≤ 5 →
  backoff_msec (Z.to_nat (Z.min (i + 1) 5) + k) = backoff_msec (Z.to_nat i + S k).
Proof.
  intros Hi. destruct (decide (i = 5)) as [-> | Hne].
  - rewrite !backoff_msec_capped; [done | lia | lia].
  - f_equal. lia.
Qed.

(** Ready for a connection attempt: disconnected, without a socket, with a
    valid url and the remote enabled. *)
Lemma failed_attempt_step (c : Connector) :
  state (ws c) = Disconnected → socket (ws c) = None →
  url_isValid (remoteUrl (ws c)) = true → default true (remoteEnabled (ws c)) = true →
  0 ≤ retryIndex (ws c) ≤ 5 →
  ∃ c', failed_attempt url_isValid c = Some c' ∧
        state (ws c') = Disconnected ∧ socket (ws c') = None ∧
        remoteUrl (ws c') = remoteUrl (ws c) ∧
        remoteEnabled (ws c') = remoteEnabled (ws c) ∧
        delays (actions c') =
          delays (actions c) ++ [backoff_msec (Z.to_nat (retryIndex (ws c)))] ∧
        retryIndex (ws c') = Z.min (retryIndex (ws c) + 1) 5.
Proof.
  intros Hs Hso Hurl Hen Hi.
  assert (retryIndex (ws c) = 0 ∨ retryIndex (ws c) = 1 ∨ retryIndex (ws c) = 2 ∨
          retryIndex (ws c) = 3 ∨ retryIndex (ws c) = 4 ∨ retryIndex (ws c) = 5)
    as Hcases by lia.
  destruct c as [[so st ri url en eff] nr ot dr ck ckp ui vp acts]. simpl in *. subst.
  unfold failed_attempt, reloadRemoteState, reconnect. simpl. rewrite Hurl, Hen. simpl.
  unfold disconnected, retry. simpl.
  destruct Hcases as [-> | [-> | [-> | [-> | [-> | ->]]]]]; simpl;
    eexists; (split; [reflexivity|]); simpl;
    rewrite !delays_app; simpl; rewrite app_nil_r; done.
Qed.

Lemma failed_attempts_from (n : nat) : ∀ c,
  state (ws c) = Disconnected → socket (ws c) = None →
  url_isValid (remoteUrl (ws c)) = true → default true (remoteEnabled (ws c)) = true →
  0 ≤ retryIndex (ws c) ≤ 5 →
  ∃ c', failed_attempts url_isValid n c = Some c' ∧
        delays (actions c') =
          delays (actions c) ++
          ((fun k => backoff_msec (Z.to_nat (retryIndex (ws c)) + k)) <$> seq 0 n) ∧
        retryIndex (ws c') = Z.min (retryIndex (ws c) + Z.of_nat n) 5.
Proof.
  induction n as [|n IH]; intros c Hs Hso Hurl Hen Hi.
  - exists c. split; [reflexivity|]. simpl. rewrite app_nil_r. split; [done | lia].
  - destruct (failed_attempt_step c Hs Hso Hurl Hen Hi)
      as (c1 & Hstep & Hs1 & Hso1 & Hurl1 & Hen1 & Hd1 & Hi1).
    destruct (IH c1) as (c' & Hrest & Hd' & Hi'); [done | done | congruence | congruence | lia |].
    exists c'. split_and!.
    + cbn [failed_attempts]. rewrite Hstep. exact Hrest.
    + rewrite Hd', Hd1, <- app_assoc. f_equal. cbn [seq fmap list_fmap app].
      rewrite Nat.add_0_r. f_equal. rewrite <- fmap_S_seq, <- list_fmap_compose.
      apply list_fmap_ext. intros _ k _. simpl. rewrite Hi1.
      by apply backoff_msec_next.
    + lia.
Qed.

(** X24. The back-off of the websocket connector.  From retry index 0, [n]
    connection attempts in a row that fail wait 5s, 10s, 30s, 60s, 300s,
    300s, ... before the next one (in milliseconds), the index going up to 5
    and staying there; a connection that is established, and a change state
    that loads, set the index back to 0. *)
Theorem websocket_retry_delays (n : nat) (c : Connector) :
  state (ws c) = Disconnected → socket (ws c) = None →
  url_isValid (remoteUrl (ws c)) = true → default true (remoteEnabled (ws c)) = true →
  retryIndex (ws c) = 0 →
  (∃ c', failed_attempts url_isValid n c = Some c' ∧
         delays (actions c') = delays (actions c) ++ (backoff_msec <$> seq 0 n) ∧
         retryIndex (ws c') = Z.min (Z.of_nat n) 5) ∧
  (∀ c1 c2, connected getDeviceId c1 = Some c2 → retryIndex (ws c2) = 0) ∧
  (∀ changes c1 c2, changeState true changes c1 = Some c2 → retryIndex (ws c2) = 0).
Proof.
  intros Hs Hso Hurl Hen Hi. split_and!.
  - destruct (failed_attempts_from n c Hs Hso Hurl Hen) as (c' & Hrun & Hd & Hidx); [lia|].
    exists c'. rewrite Hi in Hd, Hidx. split_and!; [done | | done].
    rewrite Hd. f_equal.
  - intros c1 c2. unfold connected, sendCommand. simpl.
    destruct (userIdentity c1); destruct (socket (ws c1)); try done; by intros [= <-].
  - intros changes c1 c2. unfold changeState. simpl. by intros [= <-].
Qed.

(** X25. A resync that is asked for is carried out once.  In Idle,
    [requestResync] resets the local store and sends loadChanges with the
    resync flag at once.  While the connector is connecting, identifying,
    reloading or closing it only notes the request; the reload that follows
    the next identification carries it out.  Either way the note is cleared
    by the reload, so the reload after it is a plain one. *)
Theorem resync_is_carried_out_once (c : Connector) :
  socket (ws c) ≠ None →
  (state (ws c) = Idle →
     ∃ c1, requestResync url_isValid c = Some c1 ∧
           actions c1 = actions c ++ [Emitted (remoteStateChanged RemoteLoadingState []);
                                      Emitted (performLocalReset false);
                                      Sent (loadChangesCmd true)] ∧
           needResync c1 = false ∧ state (ws c1) = Reloading) ∧
  (state (ws c) ∈ [Connecting; Identifying; Reloading; Closing] →
     requestResync url_isValid c = Some (set_retryIndex 0 (set_needResync true c)) ∧
     ∀ userId resync,
       ∃ c2, identified url_isValid userId resync
               (set_retryIndex 0 (set_needResync true c)) = Some c2 ∧
             actions c2 = actions c ++ [Emitted (remoteStateChanged RemoteLoadingState []);
                                        Emitted (performLocalReset false);
                                        Sent (loadChangesCmd true)] ∧
             needResync c2 = false ∧ state (ws c2) = Reloading) ∧
  (state (ws c) = Idle → needResync c = false →
     ∃ c1, reloadRemoteState url_isValid c = Some c1 ∧
           actions c1 = actions c ++ [Emitted (remoteStateChanged RemoteLoadingState []);
                                      Sent (loadChangesCmd false)]).
Proof.
  intros Hso. destruct c as [[so st ri url en eff] nr ot dr ck ckp ui vp acts].
  simpl in *. destruct so as [so|]; [clear Hso|done]. split_and!.
  - intros ->. eexists. split; [reflexivity|]. simpl. by rewrite <- !app_assoc.
  - intros Hst. split.
    + unfold requestResync, reloadRemoteState. simpl.
      repeat (apply elem_of_cons in Hst as [-> | Hst]; [done|]).
      by apply elem_of_nil in Hst.
    + intros userId resync. eexists. split; [reflexivity|]. simpl.
      by rewrite <- !app_assoc.
  - intros -> ->. eexists. split; [reflexivity|]. simpl. by rewrite <- !app_assoc.
Qed.

Lemma reconnect_again (n : nat) (c : Connector) :
  state (ws c) = Connecting →
  Nat.iter n (fun c => set_ws (reconnect url_isValid (ws c)) c) c = c.
Proof.
  intros Hs. induction n as [|n IH]; [done|]. simpl. rewrite IH.
  unfold reconnect. rewrite Hs. simpl. by destruct c.
Qed.

(** X26. An operation timeout leads to a new connection without back-off.
    With a socket, in any state but Connecting and Closing, the timeout
    closes the socket and takes the connector to Closing; the disconnect
    that follows arms no retry timer and leaves the retry index alone; and
    when the socket is destroyed, [reconnect] opens a new one to the remote
    url (valid, with the remote enabled) and the connector is Connecting. *)
Theorem timeout_reconnects_without_backoff (c : Connector) (so : Socket) :
  socket (ws c) = Some so →
  state (ws c) ≠ Connecting → state (ws c) ≠ Closing →
  url_isValid (remoteUrl (ws c)) = true → default true (remoteEnabled (ws c)) = true →
  ∃ so1 c2,
    state (ws (operationTimeout url_isValid c)) = Closing ∧
    socket (ws (operationTimeout url_isValid c)) = Some so1 ∧
    closeRequested so1 = true ∧
    disconnected (operationTimeout url_isValid c) = Some c2 ∧
    state (ws c2) = Disconnected ∧ socket (ws c2) = None ∧
    delays (actions c2) = delays (actions c) ∧
    retryIndex (ws c2) = retryIndex (ws c) ∧
    state (ws (destroyed url_isValid so1 c2)) = Connecting ∧
    socket (ws (destroyed url_isValid so1 c2)) = Some (mkSocket false 0) ∧
    effects (ws (destroyed url_isValid so1 c2)) =
      effects (ws c) ++ [clearAuthenticationError; remoteStateChanged_RemoteConnecting;
                         SocketOpened (remoteUrl (ws c))].
Proof.
  intros Hso Hn1 Hn2 Hurl Hen.
  destruct c as [[so0 st ri url en eff] nr ot dr ck ckp ui vp acts]. simpl in *. subst so0.
  assert (∀ c : Connector, state (ws c) = Disconnected → socket (ws c) = None →
            remoteUrl (ws c) = url → remoteEnabled (ws c) = en →
            ∀ n, Nat.iter (S n) (fun c => set_ws (reconnect url_isValid (ws c)) c) c =
                 set_ws (mkWs (Some (mkSocket false 0)) Connecting (retryIndex (ws c)) url en
                              (effects (ws c) ++ [clearAuthenticationError;
                                                  remoteStateChanged_RemoteConnecting;
                                                  SocketOpened url])) c) as Hnew.
  { intros c Hs Hsock Hu He n. rewrite Nat.iter_succ_r.
    assert (set_ws (reconnect url_isValid (ws c)) c =
            set_ws (mkWs (Some (mkSocket false 0)) Connecting (retryIndex (ws c)) url en
                         (effects (ws c) ++ [clearAuthenticationError;
                                             remoteStateChanged_RemoteConnecting;
                                             SocketOpened url])) c) as ->.
    { unfold reconnect. rewrite Hs, Hsock, Hu, He. simpl. by rewrite Hurl, Hen. }
    by apply reconnect_again. }
  unfold operationTimeout, reconnect. simpl.
  rewrite !bool_decide_eq_false_2 by done. simpl.
  unfold destroyed, disconnected. simpl.
  eexists _, _. split_and!; try reflexivity.
  - simpl. rewrite delays_app. simpl. by rewrite app_nil_r.
  - cbn [reconnectOnDestroyed]. by rewrite Hnew.
  - cbn [reconnectOnDestroyed]. by rewrite Hnew.
  - cbn [reconnectOnDestroyed]. by rewrite Hnew.
Qed.

(** X27. A disconnect fails the operation in flight: in Operating, with
    its socket, the connector stops the operation timer, emits
    [operationFailed] for the operation, arms the retry timer, drops the
    socket and is Disconnected. *)
Theorem disconnect_fails_the_operation (c : Connector) :
  state (ws c) = Operating → socket (ws c) ≠ None → 0 ≤ retryIndex (ws c) →
  ∃ c' delay,
    disconnected c = Some c' ∧
    actions c' = actions c ++ [Emitted (operationFailed "Connection closed");
                               SingleShot delay;
                               Emitted (remoteStateChanged RemoteDisconnected [])] ∧
    delay = backoff_msec (Z.to_nat (retryIndex (ws c))) ∧
    state (ws c') = Disconnected ∧ socket (ws c') = None ∧ operationTimer c' = false ∧
    decryptReply c' = decryptReply c.
Proof.
  intros Hs Hso Hi.
  destruct c as [[so st ri url en eff] nr ot dr ck ckp ui vp acts]. simpl in *. subst st.
  destruct so as [so|]; [clear Hso|done].
  unfold disconnected, retry. simpl. change (Z.of_nat 5) with 5.
  destruct (5 <=? ri) eqn:Hcap.
  - apply Z.leb_le in Hcap. simpl. eexists _, _. split; [reflexivity|]. simpl.
    rewrite <- !app_assoc. split_and!; try done.
    rewrite backoff_msec_capped; [done|lia].
  - apply Z.leb_gt in Hcap.
    assert (ri = 0 ∨ ri = 1 ∨ ri = 2 ∨ ri = 3 ∨ ri = 4) as Hcases by lia.
    destruct Hcases as [-> | [-> | [-> | [-> | ->]]]]; simpl;
      eexists _, _; (split; [reflexivity|]); simpl; rewrite <- !app_assoc; done.
Qed.

End Facts.

(** ** The theorems at work on the example connector *)
Section AtWork.

Ltac by_running := vm_compute; first [reflexivity | discriminate | lia | done].

Lemma one_operation_at_a_time_witness :
  run_operation None (Remove ("t", "k")) (connector_in Operating)
  = Some (emit (operationFailed "Remote connector state does not allow removals")
               (connector_in Operating)).
Proof.
  apply (proj1 (one_operation_at_a_time None (Remove ("t", "k")) (connector_in Operating))).
  by_running.
Defined.

Lemma completed_ends_the_operation_witness :
  state (ws (set_state Idle (emit (operationDone "d") (connector_in Operating)))) = Idle.
Proof.
  apply (completed_ends_the_operation None true "d" "" (connector_in Operating)
           (set_state Idle (emit (operationDone "d") (connector_in Operating)))).
  by_running.
Defined.

Lemma failed_download_leaves_the_decrypt_flag_witness :
  decryptReply
    (default (connector_in Idle)
       (c1 ← download (Some failing_encryptor) ("t", "k") "id" (connector_in Idle);
        completed (Some failing_encryptor) false "" "not found" c1)) = true.
Proof.
  destruct (failed_download_leaves_the_decrypt_flag failing_encryptor ("t", "k") "id"
              "" "not found" (connector_in Idle)
              (default (connector_in Idle)
                 (download (Some failing_encryptor) ("t", "k") "id" (connector_in Idle)))
              (default (connector_in Idle)
                 (c1 ← download (Some failing_encryptor) ("t", "k") "id" (connector_in Idle);
                  completed (Some failing_encryptor) false "" "not found" c1)))
    as (_ & Hflag & _); [by_running..|].
  exact Hflag.
Defined.

Lemma websocket_retry_delays_witness :
  ∃ c', failed_attempts nonempty_url 3 connector_down = Some c' ∧
        delays (actions c') = delays (actions connector_down) ++ [5000; 10000; 30000] ∧
        retryIndex (ws c') = 3.
Proof.
  apply (proj1 (websocket_retry_delays nonempty_url "device-1" 3 connector_down
                  eq_refl eq_refl eq_refl eq_refl eq_refl)).
Defined.

Lemma resync_is_carried_out_once_witness :
  ∃ c1, requestResync nonempty_url (connector_in Idle) = Some c1 ∧
        actions c1 = actions (connector_in Idle)
                     ++ [Emitted (remoteStateChanged RemoteLoadingState []);
                         Emitted (performLocalReset false);
                         Sent (loadChangesCmd true)] ∧
        needResync c1 = false ∧ state (ws c1) = Reloading.
Proof.
  apply (proj1 (resync_is_carried_out_once nonempty_url (connector_in Idle)
                  ltac:(discriminate))).
  reflexivity.
Defined.

Lemma timeout_reconnects_without_backoff_witness :
  ∃ so1 c2,
    state (ws (operationTimeout nonempty_url (connector_in Idle))) = Closing ∧
    socket (ws (operationTimeout nonempty_url (connector_in Idle))) = Some so1 ∧
    closeRequested so1 = true ∧
    disconnected (operationTimeout nonempty_url (connector_in Idle)) = Some c2 ∧
    state (ws c2) = Disconnected ∧ socket (ws c2) = None ∧
    delays (actions c2) = delays (actions (connector_in Idle)) ∧
    retryIndex (ws c2) = retryIndex (ws (connector_in Idle)) ∧
    state (ws (destroyed nonempty_url so1 c2)) = Connecting ∧
    socket (ws (destroyed nonempty_url so1 c2)) = Some (mkSocket false 0) ∧
    effects (ws (destroyed nonempty_url so1 c2)) =
      effects (ws (connector_in Idle))
      ++ [clearAuthenticationError; remoteStateChanged_RemoteConnecting;
          SocketOpened (remoteUrl (ws (connector_in Idle)))].
Proof.
  apply (timeout_reconnects_without_backoff nonempty_url (connector_in Idle)
           (mkSocket false 0)); by_running.
Defined.

Lemma disconnect_fails_the_operation_witness :
  ∃ c' delay,
    disconnected (connector_in Operating) = Some c' ∧
    actions c' = actions (connector_in Operating)
                 ++ [Emitted (operationFailed "Connection closed");
                     SingleShot delay;
                     Emitted (remoteStateChanged RemoteDisconnected [])] ∧
    delay = backoff_msec (Z.to_nat (retryIndex (ws (connector_in Operating)))) ∧
    state (ws c') = Disconnected ∧ socket (ws c') = None ∧ operationTimer c' = false ∧
    decryptReply c' = decryptReply (connector_in Operating).
Proof.
  apply (disconnect_fails_the_operation (connector_in Operating)); by_running.
Defined.

End AtWork.

End WsFacts.

(** * The comparison of remote configurations *)
Module RemoteConfigFacts.
Import RemoteConfigClass.

(** X28. [operator!=] is the negation of [operator==], and for two
    configurations that see the same data when they share their d-pointer,
    [operator==] holds exactly when url, access key, headers and keepalive
    timeout are all the same. *)
Theorem operators_agree (a b : RemoteConfig) :
  operator_ne a b = negb (operator_eq a b) ∧
  (shared a b → operator_eq a b = true ↔ data a = data b).
Proof.
  split.
  - unfold operator_ne, operator_eq.
    by destruct (bool_decide (d a = d b)), (bool_decide (url (data a) = url (data b))),
      (bool_decide (accessKey (data a) = accessKey (data b))),
      (bool_decide (headers (data a) = headers (data b))),
      (bool_decide (keepaliveTimeout (data a) = keepaliveTimeout (data b))).
  - intros Hshared. unfold operator_eq. split.
    + intros [Hd%bool_decide_eq_true | Hfields]%orb_true_iff; [by apply Hshared|].
      apply andb_true_iff in Hfields as [Hfields Hk%bool_decide_eq_true].
      apply andb_true_iff in Hfields as [Hfields Hh%bool_decide_eq_true].
      apply andb_true_iff in Hfields as [Hu%bool_decide_eq_true Ha%bool_decide_eq_true].
      destruct (data a), (data b). simpl in *. congruence.
    + intros Heq. rewrite Heq.
      rewrite (bool_decide_eq_true_2 (url (data b) = url (data b))) by done.
      rewrite (bool_decide_eq_true_2 (accessKey (data b) = accessKey (data b))) by done.
      rewrite (bool_decide_eq_true_2 (headers (data b) = headers (data b))) by done.
      rewrite (bool_decide_eq_true_2 (keepaliveTimeout (data b) = keepaliveTimeout (data b)))
        by done.
      apply orb_true_r.
Qed.

Lemma operators_agree_witness :
  operator_eq (config_at 1) (config_at 2) = true ↔ data (config_at 1) = data (config_at 2).
Proof.
  apply (proj2 (operators_agree (config_at 1) (config_at 2))).
  intros Hd. reflexivity.
Defined.

End RemoteConfigFacts.
